(** * renamer: a shallow embedding of the batch file renamer

    The embedded program is the current version of the tool (the one with the
    [extract] and [chd] actions).  The superseded walker, whose recursive call
    drops its arguments, is embedded next to it as [Legacy.get_files_node].

    Conventions of the embedding:
    - file names and log lines are [string]s of 8-bit characters;
    - a path is the list of its components; [path.join dir name] appends the
      segments of [name] to [dir] and [path.basename] is the last component;
    - JavaScript numbers are used by the program as file indices and season
      numbers only; they are embedded as [Z], which is what the program
      computes for integers of magnitude below 2^53, where its numbers are
      exact, the counter advances by one and a template literal writes every
      digit; statements about names carry that bound where they need it;
    - the file system is a tree rooted at the directory every path starts
      from; it records names, kinds and contents, no owners and no time
      stamps, and a path that cannot be reached is reported as [ENOENT]
      whatever blocks it;
    - a function that can throw returns a [result]; the console and the log
      file are threaded through a [world] together with the file system;
    - an external tool is a function from the command line to what
      [spawnSync] reports; what the tool does to the files is not embedded;
    - the program is an ES module, so it runs in strict mode: an assignment
      to a name that is declared nowhere ([fullpath] and [dest] in [remove])
      throws a [ReferenceError]. *)

From Stdlib Require Import Bool Arith ZArith NArith Lia List Ascii String.
Import ListNotations.
Local Open Scope list_scope.
Local Open Scope string_scope.

Set Implicit Arguments.
Set Warnings "-register-all".

(** ** Strings *)

Module Str.

(** [s.startsWith(p)], returning what follows the prefix. *)
Fixpoint strip_prefix (p s : string) : option string :=
  match p with
  | EmptyString => Some s
  | String a p' =>
      match s with
      | EmptyString => None
      | String b s' => if Ascii.eqb a b then strip_prefix p' s' else None
      end
  end.

Definition starts_with (p s : string) : bool :=
  match strip_prefix p s with Some _ => true | None => false end.

(** The first occurrence of [pat] in [s]: what stands before it and what
    stands after it. *)
Fixpoint split_at_first (pat s : string) : option (string * string) :=
  match strip_prefix pat s with
  | Some post => Some (EmptyString, post)
  | None =>
      match s with
      | EmptyString => None
      | String c t =>
          match split_at_first pat t with
          | Some (pre, post) => Some (String c pre, post)
          | None => None
          end
      end
  end.

(** [s.includes(pat)] *)
Definition includes (pat s : string) : bool :=
  match split_at_first pat s with Some _ => true | None => false end.

(** The replacement text of [String.prototype.replace] for a string pattern:
    [$$] is a dollar sign, [$&] the matched text, [$`] the text before the
    match and [$'] the text after it; there are no capture groups, so any
    other character after a dollar sign leaves the dollar sign as it is. *)
Fixpoint get_substitution (matched before after template : string) : string :=
  match template with
  | EmptyString => EmptyString
  | String a t =>
      if Ascii.eqb a "$" then
        match t with
        | String c rest =>
            if Ascii.eqb c "$" then
              String "$" (get_substitution matched before after rest)
            else if Ascii.eqb c "&" then
              matched ++ get_substitution matched before after rest
            else if Ascii.eqb c "`" then
              before ++ get_substitution matched before after rest
            else if Ascii.eqb c "'" then
              after ++ get_substitution matched before after rest
            else String a (get_substitution matched before after t)
        | EmptyString => String a EmptyString
        end
      else String a (get_substitution matched before after t)
  end.

(** [s.replace(pat, template)] for a string pattern: only the first
    occurrence is replaced. *)
Definition replace (pat template s : string) : string :=
  match split_at_first pat s with
  | Some (pre, post) => pre ++ get_substitution pat pre post template ++ post
  | None => s
  end.

Definition lower_char (c : ascii) : ascii :=
  let n := nat_of_ascii c in
  if (65 <=? n)%nat && (n <=? 90)%nat then ascii_of_nat (n + 32) else c.

(** [s.toLowerCase()] on ASCII text. *)
Fixpoint to_lower (s : string) : string :=
  match s with
  | EmptyString => EmptyString
  | String c t => String (lower_char c) (to_lower t)
  end.

Fixpoint has_char (c : ascii) (s : string) : bool :=
  match s with
  | EmptyString => false
  | String a t => Ascii.eqb a c || has_char c t
  end.

Fixpoint repeat_char (c : ascii) (n : nat) : string :=
  match n with
  | O => EmptyString
  | S k => String c (repeat_char c k)
  end.

(** [s] is a suffix of [t]. *)
Definition ends_with (s t : string) : Prop := exists u, t = u ++ s.

(** Decimal digits of a natural number, most significant first. *)
Definition digit (d : N) : ascii := ascii_of_N (48 + d).

Fixpoint digits_aux (fuel : nat) (n : N) (acc : string) : string :=
  match fuel with
  | O => acc
  | S f =>
      let acc' := String (digit (n mod 10)) acc in
      if (n <? 10)%N then acc' else digits_aux f (n / 10) acc'
  end.

Definition string_of_N (n : N) : string :=
  digits_aux (S (N.to_nat (N.log2 n))) n EmptyString.

(** The text of an integer inside a template literal. *)
Definition number_to_string (z : Z) : string :=
  match z with
  | Z0 => "0"
  | Zpos p => string_of_N (Npos p)
  | Zneg p => String "-" (string_of_N (Npos p))
  end.

(** [n] written in decimal and filled with zeros on the left up to width
    [w]; a text that is already [w] wide or wider is left alone. *)
Definition zero_pad (w : nat) (z : Z) : string :=
  let s := number_to_string z in
  repeat_char "0" (w - String.length s) ++ s.

End Str.

(** ** Paths *)

Definition path := list string.

Module Path.

(** The segments of a text between slashes. *)
Fixpoint segments (s : string) : list string :=
  match s with
  | EmptyString => [EmptyString]
  | String c t =>
      if Ascii.eqb c "/" then EmptyString :: segments t
      else
        match segments t with
        | seg :: more => String c seg :: more
        | [] => [String c EmptyString]
        end
  end.

Definition push_segment (acc : path) (seg : string) : path :=
  if String.eqb seg EmptyString then acc
  else if String.eqb seg "." then acc
  else if String.eqb seg ".." then removelast acc
  else (acc ++ [seg])%list.

(** [path.join(dir, name)]: the segments of [name] are appended to [dir];
    empty segments and ["."] are dropped and [".."] steps back. *)
Definition join (dir : path) (name : string) : path :=
  fold_left push_segment (segments name) dir.

Definition eqb (p q : path) : bool :=
  if list_eq_dec string_dec p q then true else false.

(** [p] lies strictly below [q]. *)
Fixpoint below (p q : path) : bool :=
  match q, p with
  | [], [] => false
  | [], _ :: _ => true
  | b :: q', a :: p' => String.eqb a b && below p' q'
  | _ :: _, [] => false
  end.

Definition basename (p : path) : string := last p EmptyString.

(** Walks a text and keeps what follows the last dot seen. *)
Fixpoint after_last_dot (s : string) (found : option string) : option string :=
  match s with
  | EmptyString => found
  | String c t =>
      if Ascii.eqb c "." then after_last_dot t (Some t)
      else after_last_dot t found
  end.

(** [path.extname] of a file name: from the last dot to the end; empty when
    there is no dot, when the only dot is the first character, and for
    [".."]. *)
Definition extname_of_name (name : string) : string :=
  match name with
  | EmptyString => EmptyString
  | String c t =>
      match after_last_dot t None with
      | Some e =>
          if String.eqb name ".." then EmptyString else String "." e
      | None => EmptyString
      end
  end.

Definition extname (p : path) : string := extname_of_name (basename p).

(** [path.basename(p, ext)]: the base name without [ext] when it ends with
    it and is more than it. *)
Definition basename_without (p : path) (ext : string) : string :=
  let base := basename p in
  let n := String.length base - String.length ext in
  if String.eqb (String.substring n (String.length ext) base) ext
     && negb (String.eqb base ext)
  then String.substring 0 n base else base.

(** The path a text of the command line names. *)
Definition of_string (s : string) : path :=
  fold_left push_segment (segments s) [].

(** How a path is printed in a log line. *)
Definition show (p : path) : string := String.concat "/" p.

End Path.

(** ** Naming policy *)

Local Open Scope Z_scope.

Definition pad2 (n : Z) : string :=
  if n <? 10 then "0" ++ Str.number_to_string n
  else Str.number_to_string n.

Definition pad3 (n : Z) : string :=
  if n <? 10 then "00" ++ Str.number_to_string n
  else if n <? 100 then "0" ++ Str.number_to_string n
  else Str.number_to_string n.

Definition pad4 (n : Z) : string :=
  if n <? 10 then "000" ++ Str.number_to_string n
  else if n <? 100 then "00" ++ Str.number_to_string n
  else if n <? 1000 then "0" ++ Str.number_to_string n
  else Str.number_to_string n.

Definition get_season_episode_for_file_index
    (index season : Z) (extension : string) : string :=
  "S" ++ pad2 season ++ "E" ++ pad2 index ++ extension.

Definition get_simple_filename_index
    (prefix : string) (index : Z) (extension : string) : string :=
  prefix ++ pad4 index ++ extension.

Definition get_ordered_filename
    (season index : Z) (prefix : string) (tv_show_mode : bool)
    (extension : string) : string :=
  if tv_show_mode then get_season_episode_for_file_index index season extension
  else get_simple_filename_index prefix index extension.

(** The name the body of the loop of [remove] computes for one file: the
    prefix step and the suffix step of its lines 545 to 554. *)
Definition substituted_name (file prefix replacement suffix : string) : string :=
  let new_name := file in
  let new_name :=
    if Str.starts_with prefix file
    then Str.replace prefix replacement new_name else new_name in
  let new_name :=
    if Str.includes suffix file
    then Str.replace suffix EmptyString new_name else new_name in
  new_name.

Local Close Scope Z_scope.

(** ** Errors and results *)

Inductive error : Type :=
| ENOENT
| ENOTDIR
| EISDIR
| EACCES
| EEXIST
| ENOTEMPTY
| EINVAL
| SpawnFailed (message : string)
| ExitStatus (status : Z)
| ReferenceError (name : string).

(** The double quote character. *)
Definition dq : string := String (ascii_of_nat 34) EmptyString.

Definition quoted (s : string) : string := dq ++ s ++ dq.

Definition json_of_code (code : string) : string :=
  "{" ++ quoted "code" ++ ":" ++ quoted code ++ "}".

(** [JSON.stringify(e)] of a thrown value. *)
Definition json_of_error (e : error) : string :=
  match e with
  | ENOENT => json_of_code "ENOENT"
  | ENOTDIR => json_of_code "ENOTDIR"
  | EISDIR => json_of_code "EISDIR"
  | EACCES => json_of_code "EACCES"
  | EEXIST => json_of_code "EEXIST"
  | ENOTEMPTY => json_of_code "ENOTEMPTY"
  | EINVAL => json_of_code "EINVAL"
  | SpawnFailed _ => "{}"
  | ExitStatus status => Str.number_to_string status
  | ReferenceError _ => "{}"
  end.

Inductive result (A : Type) : Type :=
| Ok (a : A)
| Throw (e : error).

Arguments Ok {A} a.
Arguments Throw {A} e.

(** An assignment to a name that is declared nowhere.  In strict mode the
    name does not resolve and nothing creates it: the assignment throws. *)
Definition assign_undeclared (name : string) : result unit :=
  Throw (ReferenceError name).

(** ** The file system *)

Inductive node : Type :=
| File (data : string)
| Dir (entries : list (string * node))
| Locked
| Broken.

Inductive stats : Type := IsFile | IsDirectory.

Module Fs.

Definition entries := list (string * node).

Fixpoint find (name : string) (es : entries) : option node :=
  match es with
  | [] => None
  | (n, v) :: rest => if String.eqb n name then Some v else find name rest
  end.

(** The entry is replaced where it stands; a new entry goes last. *)
Fixpoint put (name : string) (v : node) (es : entries) : entries :=
  match es with
  | [] => [(name, v)]
  | (n, x) :: rest =>
      if String.eqb n name then (n, v) :: rest else (n, x) :: put name v rest
  end.

Fixpoint del (name : string) (es : entries) : entries :=
  match es with
  | [] => []
  | (n, x) :: rest =>
      if String.eqb n name then rest else (n, x) :: del name rest
  end.

Fixpoint lookup (root : node) (p : path) : option node :=
  match p with
  | [] => Some root
  | c :: p' =>
      match root with
      | Dir es =>
          match find c es with
          | Some child => lookup child p'
          | None => None
          end
      | _ => None
      end
  end.

(** Places [v] at [p]; nothing is done when the parent of [p] is not a
    directory of the tree. *)
Fixpoint write (root : node) (p : path) (v : node) : option node :=
  match p with
  | [] => Some v
  | c :: p' =>
      match root with
      | Dir es =>
          match p' with
          | [] => Some (Dir (put c v es))
          | _ :: _ =>
              match find c es with
              | Some child =>
                  match write child p' v with
                  | Some child' => Some (Dir (put c child' es))
                  | None => None
                  end
              | None => None
              end
          end
      | _ => None
      end
  end.

Fixpoint unlink (root : node) (p : path) : node :=
  match p with
  | [] => root
  | c :: p' =>
      match root with
      | Dir es =>
          match p' with
          | [] => Dir (del c es)
          | _ :: _ =>
              match find c es with
              | Some child => Dir (put c (unlink child p') es)
              | None => root
              end
          end
      | _ => root
      end
  end.

Definition is_file (n : node) : bool :=
  match n with
  | File _ => true
  | Dir _ | Locked | Broken => false
  end.

Definition is_directory (n : node) : bool :=
  match n with
  | Dir _ | Locked => true
  | File _ | Broken => false
  end.

(** [fs.statSync] of an entry: a broken entry cannot be examined. *)
Definition stat_node (n : node) : result stats :=
  match n with
  | File _ => Ok IsFile
  | Dir _ | Locked => Ok IsDirectory
  | Broken => Throw ENOENT
  end.

Definition statSync (root : node) (p : path) : result stats :=
  match lookup root p with
  | Some n => stat_node n
  | None => Throw ENOENT
  end.

Definition existsSync (root : node) (p : path) : bool :=
  match lookup root p with
  | Some Broken | None => false
  | Some _ => true
  end.

(** [fs.promises.readdir] of an entry. *)
Definition readdir_node (n : node) : result entries :=
  match n with
  | Dir es => Ok es
  | File _ => Throw ENOTDIR
  | Locked => Throw EACCES
  | Broken => Throw ENOENT
  end.

Definition readdir (root : node) (p : path) : result (list string) :=
  match lookup root p with
  | Some n =>
      match readdir_node n with
      | Ok es => Ok (map fst es)
      | Throw e => Throw e
      end
  | None => Throw ENOENT
  end.

Definition renameSync (root : node) (old new : path) : result node :=
  match lookup root old with
  | None => Throw ENOENT
  | Some n =>
      if Path.eqb old new then Ok root
      else if Path.below new old then Throw EINVAL
      else
        let moved :=
          match write (unlink root old) new n with
          | Some root' => Ok root'
          | None => Throw ENOENT
          end in
        match lookup root new with
        | Some (Dir [] ) => if is_directory n then moved else Throw EISDIR
        | Some (Dir (_ :: _)) | Some Locked =>
            if is_directory n then Throw ENOTEMPTY else Throw EISDIR
        | Some (File _) | Some Broken =>
            if is_directory n then Throw ENOTDIR else moved
        | None => moved
        end
  end.

(** A regular file is created at [dest], or overwritten. *)
Definition put_file (root : node) (dest : path) (data : string) : result node :=
  match lookup root dest with
  | Some (Dir _) | Some Locked => Throw EISDIR
  | _ =>
      match write root dest (File data) with
      | Some root' => Ok root'
      | None => Throw ENOENT
      end
  end.

Definition copyFileSync (root : node) (src dest : path) : result node :=
  match lookup root src with
  | Some (File data) => put_file root dest data
  | Some (Dir _) | Some Locked => Throw EISDIR
  | Some Broken | None => Throw ENOENT
  end.

Definition mkdirSync (root : node) (p : path) : result node :=
  match lookup root p with
  | Some _ => Throw EEXIST
  | None =>
      match write root p (Dir []) with
      | Some root' => Ok root'
      | None => Throw ENOENT
      end
  end.

(** [fs.openSync(p, 'w+')]: the file is created, or emptied. *)
Definition openSync_w (root : node) (p : path) : result node :=
  put_file root p EmptyString.

(** [fs.utimesSync]: the tree keeps no time stamps. *)
Definition utimesSync (root : node) (p : path) : result node :=
  match lookup root p with
  | Some Broken | None => Throw ENOENT
  | Some _ => Ok root
  end.

End Fs.

(** ** The world: file system, console, log file, external processes *)

Inductive line : Type :=
| Out (text : string)
| Err (text : string).

Definition text_of (l : line) : string :=
  match l with Out s | Err s => s end.

(** [logger] is the file the file logger writes to while it is enabled,
    [logged] what it has written, and [spawned] the command lines that were
    really executed. *)
Record world : Type := mkWorld {
  fs : node;
  console : list line;
  logger : option path;
  logged : list string;
  spawned : list string
}.

Definition set_fs (root : node) (w : world) : world :=
  mkWorld root (console w) (logger w) (logged w) (spawned w).

Definition file_logger_write (str : string) (w : world) : world :=
  match logger w with
  | Some _ => mkWorld (fs w) (console w) (logger w) (logged w ++ [str]) (spawned w)
  | None => w
  end.

Definition log (str : string) (w : world) : world :=
  file_logger_write str
    (mkWorld (fs w) (console w ++ [Out str]) (logger w) (logged w) (spawned w)).

Definition log_error (str : string) (w : world) : world :=
  file_logger_write str
    (mkWorld (fs w) (console w ++ [Err str]) (logger w) (logged w) (spawned w)).

Definition caught (e : error) (w : world) : world :=
  log_error ("Caught error: " ++ json_of_error e) w.

Definition enable_file_logger (filename : path) (w : world) : world * result unit :=
  match Fs.openSync_w (fs w) filename with
  | Ok root => (mkWorld root (console w) (Some filename) (logged w) (spawned w), Ok tt)
  | Throw e => (w, Throw e)
  end.

Definition file_logger_close (w : world) : world :=
  mkWorld (fs w) (console w) None (logged w) (spawned w).

(** What [spawnSync] reports. *)
Inductive outcome : Type :=
| Failed (stderr : string) (message : string)
| Exited (status : Z) (output : string).

(** The options of one run.  [season] and [offset] hold the numbers their
    texts denote. *)
Record options : Type := mkOptions {
  source : string;
  dest : string;
  prefix : string;
  replacement : string;
  suffix : string;
  order : bool;
  season : Z;
  offset : Z;
  copy : bool;
  touch : bool;
  incoming : bool;
  chd : bool;
  extract_flag : bool;
  chdman : string;
  winrar : string;
  dryrun : bool;
  force : bool;
  dot : bool;
  recurse : bool;
  help : bool
}.

(** ** Directory walker *)

Record walk_result : Type := mkWalk {
  files : list path;
  dirs : list path
}.

Section Walker.

Variables skip_dot recurse_flag force_flag : bool.

(** The loop of [get_files] over the listing of [dir]; [descend] is the
    recursive call. *)
Section Loop.

Variable descend : path -> node -> world -> world * result walk_result.

Fixpoint get_files_loop (dir : path) (all_files : Fs.entries)
    (fls drs : list path) (w : world) {struct all_files}
    : world * result walk_result :=
  match all_files with
  | [] => (w, Ok (mkWalk fls drs))
  | (file, child) :: rest =>
      if Str.starts_with "." file && skip_dot then
        get_files_loop dir rest fls drs w
      else
        let fullpath := Path.join dir file in
        match Fs.stat_node child with
        | Throw e =>
            let w := caught e w in
            if force_flag then get_files_loop dir rest fls drs w
            else (w, Throw e)
        | Ok IsDirectory =>
            let drs := (drs ++ [fullpath])%list in
            if recurse_flag then
              match descend fullpath child w with
              | (w, Ok r) =>
                  get_files_loop dir rest (fls ++ files r)%list (drs ++ dirs r)%list w
              | (w, Throw e) =>
                  let w := caught e w in
                  if force_flag then get_files_loop dir rest fls drs w
                  else (w, Throw e)
              end
            else get_files_loop dir rest fls drs w
        | Ok IsFile => get_files_loop dir rest (fls ++ [fullpath])%list drs w
        end
  end.

End Loop.

(** [get_files] on the entry [n] that stands at [dir]. *)
Fixpoint get_files_node (dir : path) (n : node) (w : world) {struct n}
    : world * result walk_result :=
  match n with
  | Dir all_files => get_files_loop get_files_node dir all_files [] [] w
  | File _ => (w, Throw ENOTDIR)
  | Locked => (w, Throw EACCES)
  | Broken => (w, Throw ENOENT)
  end.

End Walker.

Definition get_files (dir : path) (skip_dot recurse_flag force_flag : bool)
    (w : world) : world * result walk_result :=
  match Fs.lookup (fs w) dir with
  | Some n => get_files_node skip_dot recurse_flag force_flag dir n w
  | None => (w, Throw ENOENT)
  end.

(** The walker of the superseded version: the recursive call passes the
    directory only, so one level down nothing is skipped, nothing is
    descended into and no failure is tolerated. *)
Module Legacy.

Definition get_files_node (skip_dot recurse_flag force_flag : bool)
    (dir : path) (n : node) (w : world) : world * result walk_result :=
  match n with
  | Dir all_files =>
      get_files_loop skip_dot recurse_flag force_flag
        (get_files_node false false false) dir all_files [] [] w
  | File _ => (w, Throw ENOTDIR)
  | Locked => (w, Throw EACCES)
  | Broken => (w, Throw ENOENT)
  end.

End Legacy.

(** ** Executor and workflows *)

Definition tab : string := String (ascii_of_nat 9) EmptyString.
Definition nl : string := String (ascii_of_nat 10) EmptyString.

Definition arrow (src dest : path) : string :=
  Path.show src ++ " => " ++ Path.show dest.

Definition extract_extension_copy_whitelist : list string :=
  [".avi"; ".ts"; ".mkv"; ".mp4"; ".m4v"; ".wmv"; ".srt"; ".idx"; ".sub"].

Definition extract_extension_archive_whitelist : list string := [".rar"].

Definition has (set : list string) (x : string) : bool :=
  existsb (String.eqb x) set.

Definition should_copy_one (filename : path) : bool :=
  has extract_extension_copy_whitelist (Str.to_lower (Path.extname filename)).

Definition should_extract_one (filename : path) : bool :=
  has extract_extension_archive_whitelist (Str.to_lower (Path.extname filename)).

Record report : Type := mkReport {
  missing_in_extract : list string;
  content_missing_in_extract : list string
}.

Section Program.

Variable config : options.
Variable spawnSync : string -> outcome.

Definition mkdir (fullpath : path) (w : world) : world * result unit :=
  match Fs.mkdirSync (fs w) fullpath with
  | Ok root => (set_fs root w, Ok tt)
  | Throw EEXIST => (w, Ok tt)
  | Throw e => (w, Throw e)
  end.

Definition copy_file (fullpath dest : path) (w : world) : world * result unit :=
  let w := log (arrow fullpath dest) w in
  if negb (dryrun config) then
    match Fs.copyFileSync (fs w) fullpath dest with
    | Ok root => (set_fs root w, Ok tt)
    | Throw e => (w, Throw e)
    end
  else (w, Ok tt).

Definition rename (fullpath dest : path) (w : world) : world * result unit :=
  if copy config then copy_file fullpath dest w
  else
    let w := log (arrow fullpath dest) w in
    if negb (dryrun config) then
      match Fs.renameSync (fs w) fullpath dest with
      | Ok root => (set_fs root w, Ok tt)
      | Throw e => (w, Throw e)
      end
    else (w, Ok tt).

(** The loop of [rename_by_file_order]; [index] is the value of the counter
    before the file at the head is named. *)
Fixpoint rename_by_file_order_loop (dest_dir : path) (prefix : string)
    (season : Z) (tv_show_mode : bool) (fls : list path) (index : Z)
    (w : world) : world * result unit :=
  match fls with
  | [] => (w, Ok tt)
  | file :: rest =>
      let ext := Str.to_lower (Path.extname file) in
      let new_name :=
        get_ordered_filename season index prefix tv_show_mode ext in
      let index := (index + 1)%Z in
      let dest := Path.join dest_dir new_name in
      match rename file dest w with
      | (w, Ok _) =>
          rename_by_file_order_loop dest_dir prefix season tv_show_mode
            rest index w
      | (w, Throw e) =>
          let w := caught e w in
          if force config then
            rename_by_file_order_loop dest_dir prefix season tv_show_mode
              rest index w
          else (w, Throw e)
      end
  end.

Definition rename_by_file_order (dir dest_dir : path) (prefix : string)
    (season offset : Z) (tv_show_mode : bool) (w : world)
    : world * result unit :=
  let w :=
    log ("Renaming files in " ++ Path.show dir ++ " based on file index...") w in
  match get_files dir (negb (dot config)) (recurse config) (force config) w with
  | (w, Ok r) =>
      rename_by_file_order_loop dest_dir prefix season tv_show_mode
        (files r) offset w
  | (w, Throw e) => (w, Throw e)
  end.

Definition spawn (cmd : string) (args : list string) (w : world)
    : world * result unit :=
  let command := cmd ++ " " ++ String.concat " " args in
  let w := log command w in
  if dryrun config then (w, Ok tt)
  else
    let w :=
      mkWorld (fs w) (console w) (logger w) (logged w)
        (spawned w ++ [command]) in
    match spawnSync command with
    | Failed stderr message =>
        (log_error ("Failed to execute: " ++ stderr) w,
         Throw (SpawnFailed message))
    | Exited status output =>
        if negb (status =? 0)%Z then
          (log_error
             ("Failed to execute: exit code " ++ Str.number_to_string status) w,
           Throw (ExitStatus status))
        else (log output w, Ok tt)
    end.

Definition file_count (dir : path) (w : world) : world * result nat :=
  match get_files dir (negb (dot config)) (recurse config) (force config) w with
  | (w, Ok r) => (w, Ok (List.length (files r)))
  | (w, Throw e) => (w, Throw e)
  end.

Definition check_one_extract_folder (basename : string) (source_count : nat)
    (extract_path : path) (rep : report) (w : world)
    : report * world * result unit :=
  let extract_file_path := Path.join extract_path basename in
  if negb (Fs.existsSync (fs w) extract_file_path) then
    (mkReport (missing_in_extract rep ++ [basename])
       (content_missing_in_extract rep), w, Ok tt)
  else
    match file_count extract_file_path w with
    | (w, Ok extract_count) =>
        if negb (source_count + 1 =? extract_count)%nat then
          (mkReport (missing_in_extract rep)
             (content_missing_in_extract rep ++ [basename]), w, Ok tt)
        else (rep, w, Ok tt)
    | (w, Throw e) => (rep, w, Throw e)
    end.

(** The first loop of [check_incoming], over the directories. *)
Fixpoint check_incoming_dirs (extract_path : path) (drs : list path)
    (rep : report) (w : world) : report * world * result unit :=
  match drs with
  | [] => (rep, w, Ok tt)
  | dir :: rest =>
      let attempt :=
        match file_count dir w with
        | (w, Ok source_count) =>
            let dirname := Path.basename dir in
            check_one_extract_folder dirname source_count extract_path rep w
        | (w, Throw e) => (rep, w, Throw e)
        end in
      match attempt with
      | (rep, w, Ok _) => check_incoming_dirs extract_path rest rep w
      | (rep, w, Throw e) =>
          let w := caught e w in
          if force config then check_incoming_dirs extract_path rest rep w
          else (rep, w, Throw e)
      end
  end.

(** The second loop of [check_incoming], over the plain files. *)
Fixpoint check_incoming_files (extract_path : path) (fls : list path)
    (rep : report) (w : world) : report * world * result unit :=
  match fls with
  | [] => (rep, w, Ok tt)
  | file :: rest =>
      let filename := Path.basename file in
      match check_one_extract_folder filename 1 extract_path rep w with
      | (rep, w, Ok _) => check_incoming_files extract_path rest rep w
      | (rep, w, Throw e) =>
          let w := caught e w in
          if force config then check_incoming_files extract_path rest rep w
          else (rep, w, Throw e)
      end
  end.

Definition log_all (lines : list string) (w : world) : world :=
  fold_left (fun w f => log f w) lines w.

(** The end of [check_incoming]: each list is printed under its heading
    when it is not empty. *)
Definition emit_report (rep : report) (w : world) : world :=
  let w :=
    match missing_in_extract rep with
    | [] => w
    | _ :: _ =>
        log_all (missing_in_extract rep) (log "Folders missing from !extract:" w)
    end in
  match content_missing_in_extract rep with
  | [] => w
  | _ :: _ =>
      log_all (content_missing_in_extract rep)
        (log "Folders in !extract with missing content:" w)
  end.

(** [check_incoming] together with the two lists it has filled when it
    returns or throws. *)
Definition check_incoming_report (dir : path) (w : world)
    : report * world * result unit :=
  let w := log ("Checking incoming folder " ++ Path.show dir ++ "...") w in
  let extract_path := Path.join dir "!extract" in
  let rep := mkReport [] [] in
  match get_files dir (negb (dot config)) (recurse config) (force config) w with
  | (w, Throw e) => (rep, w, Throw e)
  | (w, Ok r) =>
      match check_incoming_dirs extract_path (dirs r) rep w with
      | (rep, w, Throw e) => (rep, w, Throw e)
      | (rep, w, Ok _) =>
          match check_incoming_files extract_path (files r) rep w with
          | (rep, w, Throw e) => (rep, w, Throw e)
          | (rep, w, Ok _) => (rep, emit_report rep w, Ok tt)
          end
      end
  end.

Definition check_incoming (dir : path) (w : world) : world * result unit :=
  match check_incoming_report dir w with
  | (_, w, r) => (w, r)
  end.

(** [fs.cpSync(src, dest, {recursive: true, filter})] with the filter of
    [extract]: entries are visited in listing order, a directory before what
    it holds. *)
Definition ensure_dir (dst : path) (w : world) : world * result unit :=
  match Fs.lookup (fs w) dst with
  | None =>
      match Fs.mkdirSync (fs w) dst with
      | Ok root => (set_fs root w, Ok tt)
      | Throw e => (w, Throw e)
      end
  | Some (Dir _) | Some Locked => (w, Ok tt)
  | Some (File _) | Some Broken => (w, Throw ENOTDIR)
  end.

Section Copy.

Variable copy_item :
  path -> node -> path -> list path -> world -> list path * world * result unit.

Fixpoint copy_entries (src : path) (es : Fs.entries) (dst : path)
    (rar_files : list path) (w : world) {struct es}
    : list path * world * result unit :=
  match es with
  | [] => (rar_files, w, Ok tt)
  | (name, child) :: rest =>
      match
        copy_item (Path.join src name) child (Path.join dst name) rar_files w
      with
      | (rar_files, w, Ok _) => copy_entries src rest dst rar_files w
      | (rar_files, w, Throw e) => (rar_files, w, Throw e)
      end
  end.

End Copy.

Fixpoint cp_item (src : path) (n : node) (dst : path)
    (rar_files : list path) (w : world) {struct n}
    : list path * world * result unit :=
  match n with
  | Broken => (rar_files, w, Throw ENOENT)
  | Locked =>
      match ensure_dir dst w with
      | (w, Ok _) => (rar_files, w, Throw EACCES)
      | (w, Throw e) => (rar_files, w, Throw e)
      end
  | Dir es =>
      match ensure_dir dst w with
      | (w, Ok _) => copy_entries cp_item src es dst rar_files w
      | (w, Throw e) => (rar_files, w, Throw e)
      end
  | File data =>
      let rar_files :=
        if should_extract_one src then (rar_files ++ [src])%list
        else rar_files in
      if should_copy_one src then
        let w := log (arrow src dst) w in
        match Fs.put_file (fs w) dst data with
        | Ok root => (rar_files, set_fs root w, Ok tt)
        | Throw e => (rar_files, w, Throw e)
        end
      else (rar_files, log ("Skipping " ++ Path.show src) w, Ok tt)
  end.

Definition cpSync (src dst : path) (w : world)
    : list path * world * result unit :=
  match Fs.lookup (fs w) src with
  | Some n =>
      if Path.below dst src then ([], w, Throw EINVAL)
      else cp_item src n dst [] w
  | None => ([], w, Throw ENOENT)
  end.

(** The last loop of [extract]. *)
Fixpoint extract_rars (rar : string) (dest_path : path)
    (rar_files : list path) (w : world) : world * result unit :=
  match rar_files with
  | [] => (w, Ok tt)
  | f :: rest =>
      let args :=
        ["x"; "-y"; "-idp"; quoted (Path.show f); quoted (Path.show dest_path)] in
      match spawn (quoted rar) args w with
      | (w, Ok _) => extract_rars rar dest_path rest w
      | (w, Throw e) => (w, Throw e)
      end
  end.

Definition extract (content_path save_path : path) (rar : string) (w : world)
    : world * result unit :=
  let filename := Path.basename content_path in
  let extract_path := Path.join save_path "!extract" in
  let dest_path := Path.join extract_path filename in
  let logfile := Path.join dest_path "!extract.log" in
  match mkdir dest_path w with
  | (w, Throw e) => (w, Throw e)
  | (w, Ok _) =>
      match enable_file_logger logfile w with
      | (w, Throw e) => (w, Throw e)
      | (w, Ok _) =>
          let w := log "Extracting..." w in
          let w := log ("Root: " ++ Path.show save_path) w in
          let w := log ("Content: " ++ Path.show content_path) w in
          let w := log ("Destination: " ++ Path.show dest_path) w in
          match Fs.statSync (fs w) content_path with
          | Throw e => (w, Throw e)
          | Ok IsFile =>
              if should_copy_one content_path then
                let dest_file := Path.join dest_path filename in
                copy_file content_path dest_file w
              else (log ("Skipping " ++ Path.show content_path) w, Ok tt)
          | Ok IsDirectory =>
              match cpSync content_path dest_path w with
              | (_, w, Throw e) => (w, Throw e)
              | (rar_files, w, Ok _) => extract_rars rar dest_path rar_files w
              end
          end
      end
  end.

(** The loop of [touch_dir]. *)
Fixpoint touch_dir_loop (fls : list path) (w : world) : world * result unit :=
  match fls with
  | [] => (w, Ok tt)
  | file :: rest =>
      let w := log ("Touching " ++ Path.show file ++ "...") w in
      let attempt :=
        if negb (dryrun config) then
          match Fs.utimesSync (fs w) file with
          | Ok root => (set_fs root w, Ok tt)
          | Throw e => (w, Throw e)
          end
        else (w, Ok tt) in
      match attempt with
      | (w, Ok _) => touch_dir_loop rest w
      | (w, Throw e) =>
          let w := caught e w in
          if force config then touch_dir_loop rest w else (w, Throw e)
      end
  end.

Definition touch_dir (dir : path) (w : world) : world * result unit :=
  let w := log ("Touching files in " ++ Path.show dir ++ "...") w in
  match get_files dir (negb (dot config)) (recurse config) (force config) w with
  | (w, Ok r) => touch_dir_loop (files r) w
  | (w, Throw e) => (w, Throw e)
  end.

Definition chdman_verb_map (ext : string) : option string :=
  if String.eqb ext ".iso" then Some "createdvd"
  else if String.eqb ext ".gdi" then Some "createcd"
  else if String.eqb ext ".cue" then Some "createcd"
  else None.

(** The loop of [to_chd]. *)
Fixpoint to_chd_loop (dest_dir : path) (chdman_path : string)
    (fls : list path) (w : world) : world * result unit :=
  match fls with
  | [] => (w, Ok tt)
  | file :: rest =>
      let ext := Path.extname file in
      let attempt :=
        match chdman_verb_map (Str.to_lower ext) with
        | None => (w, Ok tt)
        | Some chdman_verb =>
            let basename := Path.basename_without file ext in
            let new_name := basename ++ ".chd" in
            let new_file := Path.join dest_dir new_name in
            let args :=
              [chdman_verb; "-i"; quoted (Path.show file);
               "-o"; quoted (Path.show new_file)] in
            match spawn chdman_path args w with
            | (w, Ok _) =>
                let verify_args :=
                  ["verify"; "-i"; quoted (Path.show new_file)] in
                spawn chdman_path verify_args w
            | (w, Throw e) => (w, Throw e)
            end
        end in
      match attempt with
      | (w, Ok _) => to_chd_loop dest_dir chdman_path rest w
      | (w, Throw e) =>
          let w := caught e w in
          if force config then to_chd_loop dest_dir chdman_path rest w
          else (w, Throw e)
      end
  end.

Definition to_chd (src_dir dest_dir : path) (chdman_path : string) (w : world)
    : world * result unit :=
  let w :=
    log ("Converting disc images to chd in " ++ Path.show src_dir ++ "...") w in
  match get_files src_dir (negb (dot config)) true (force config) w with
  | (w, Ok r) => to_chd_loop dest_dir chdman_path (files r) w
  | (w, Throw e) => (w, Throw e)
  end.

(** The loop of [remove]; [counter] counts the renames done so far.  The
    first statement of the body assigns to [fullpath], which the module
    declares nowhere, and so does the assignment to [dest] further down. *)
Fixpoint remove_loop (dir : path) (pre repl suf : string)
    (names : list string) (counter : nat) (w : world)
    : nat * world * result unit :=
  match names with
  | [] => (counter, w, Ok tt)
  | file :: rest =>
      match assign_undeclared "fullpath" with
      | Throw e => (counter, w, Throw e)
      | Ok _ =>
          let fullpath := Path.join dir file in
          match Fs.statSync (fs w) fullpath with
          | Throw e => (counter, w, Throw e)
          | Ok IsDirectory => remove_loop dir pre repl suf rest counter w
          | Ok IsFile =>
              let w := log (tab ++ file ++ "...") w in
              let w :=
                if Str.starts_with pre file
                then log (tab ++ tab ++ "Prefix found") w else w in
              let w :=
                if Str.includes suf file
                then log (tab ++ tab ++ "Suffix found") w else w in
              let new_name := substituted_name file pre repl suf in
              if String.eqb new_name file then
                remove_loop dir pre repl suf rest counter
                  (log (tab ++ tab ++ "Nothing to do") w)
              else
                match assign_undeclared "dest" with
                | Throw e => (counter, w, Throw e)
                | Ok _ =>
                    let dest := Path.join dir new_name in
                    let w :=
                      log (tab ++ tab ++ "Renaming:" ++ nl ++ tab ++ tab ++ tab
                           ++ Path.show fullpath ++ nl ++ tab ++ tab ++ tab
                           ++ "=>" ++ nl ++ tab ++ tab ++ tab ++ Path.show dest)
                        w in
                    match rename fullpath dest w with
                    | (w, Ok _) =>
                        remove_loop dir pre repl suf rest (S counter) w
                    | (w, Throw e) => (counter, w, Throw e)
                    end
                end
          end
      end
  end.

(** [remove] with the number of renames it has done when it returns or
    throws. *)
Definition remove_count (dir : path) (pre repl suf : string) (w : world)
    : nat * world * result unit :=
  match Fs.readdir (fs w) dir with
  | Throw e => (O, w, Throw e)
  | Ok names =>
      let w :=
        log ("Attempting to reformat files" ++ nl ++ tab ++ "Source dir = "
             ++ quoted (Path.show dir) ++ nl ++ tab ++ "Prefix = " ++ quoted pre
             ++ nl ++ tab ++ "Replacement = " ++ quoted repl
             ++ nl ++ tab ++ "Suffix = " ++ quoted suf) w in
      match remove_loop dir pre repl suf names O w with
      | (counter, w, Ok _) =>
          (counter,
           log ("Renamed " ++ Str.number_to_string (Z.of_nat counter)
                ++ " files.") w,
           Ok tt)
      | (counter, w, Throw e) => (counter, w, Throw e)
      end
  end.

Definition remove (dir : path) (pre repl suf : string) (w : world)
    : world * result unit :=
  match remove_count dir pre repl suf w with
  | (_, w, r) => (w, r)
  end.

(** What the process prints at start up: its version, its arguments, the
    usage text and the options. *)
Variables (argv_text config_text : string) (usage_text : list string).

Definition print_usage (w : world) : world :=
  mkWorld (fs w) (console w ++ map Out usage_text ++ [Out EmptyString])
    (logger w) (logged w) (spawned w).

(** How the process ends: [main] returns, [process.exit(-1)] is called, or
    a promise nobody waits for is rejected. *)
Inductive ending : Type :=
| Returned
| Exited_usage
| Unhandled (e : error).

(** [None] when the process exits there. *)
Definition startup_tasks (w : world) : world * option unit :=
  let w := log "Complex renamer app v0.1.2-alpha" w in
  let w := log argv_text w in
  if help config || String.eqb (source config) EmptyString then
    (print_usage w, None)
  else
    let w := log "Using this config:" w in
    (log config_text w, Some tt).

Definition cleanup_tasks (w : world) : world := file_logger_close w.

(** The workflow [perform_action] selects and waits for; the substitution
    workflow is started without being waited for, so it is [None] here. *)
Definition perform_action : option (world -> world * result unit) :=
  let src := Path.of_string (source config) in
  let dest_dir :=
    if String.eqb (dest config) EmptyString then src
    else Path.of_string (dest config) in
  if extract_flag config then Some (extract src dest_dir (winrar config))
  else if chd config then Some (to_chd src dest_dir (chdman config))
  else if incoming config then Some (check_incoming src)
  else if order config then
    let tv_show_mode := true in
    Some (rename_by_file_order src dest_dir (prefix config) (season config)
            (offset config) tv_show_mode)
  else if touch config then Some (touch_dir src)
  else None.

Definition main (w : world) : world * ending :=
  match startup_tasks w with
  | (w, None) => (w, Exited_usage)
  | (w, Some _) =>
      match perform_action with
      | Some workflow =>
          match workflow w with
          | (w, Ok _) => (cleanup_tasks (log "Done" w), Returned)
          | (w, Throw e) => (cleanup_tasks (caught e w), Returned)
          end
      | None =>
          let w := cleanup_tasks (log "Done" w) in
          match
            remove (Path.of_string (source config)) (prefix config)
              (replacement config) (suffix config) w
          with
          | (w, Ok _) => (w, Returned)
          | (w, Throw e) => (w, Unhandled e)
          end
      end
  end.

End Program.

(** ** Notions the properties are stated with *)

Module Decimal.

Definition is_digit (c : ascii) : bool :=
  let n := nat_of_ascii c in (48 <=? n)%nat && (n <=? 57)%nat.

Fixpoint all_digits (s : string) : bool :=
  match s with
  | EmptyString => true
  | String c t => is_digit c && all_digits t
  end.

(** The number a text of decimal digits denotes, read after [acc]. *)
Fixpoint value_from (acc : N) (s : string) : N :=
  match s with
  | EmptyString => acc
  | String c t => value_from (10 * acc + (N_of_ascii c - 48)) t
  end.

Definition value (s : string) : N := value_from 0 s.

End Decimal.

(** *** The walker *)

(** The walker passes over a name that starts with a dot when asked to. *)
Definition skipped (skip_dot : bool) (name : string) : bool :=
  Str.starts_with "." name && skip_dot.

(** Every entry of the tree can be examined and every directory read. *)
Fixpoint healthy (n : node) : bool :=
  match n with
  | File _ => true
  | Dir es => forallb (fun e : string * node => let (_, child) := e in healthy child) es
  | Locked | Broken => false
  end.

(** The regular files and the directories listed in [dir] itself. *)
Definition own_files (skip_dot : bool) (dir : path) (es : Fs.entries) : list path :=
  map (fun e => Path.join dir (fst e))
    (filter (fun e => negb (skipped skip_dot (fst e)) && Fs.is_file (snd e)) es).

Definition own_dirs (skip_dot : bool) (dir : path) (es : Fs.entries) : list path :=
  map (fun e => Path.join dir (fst e))
    (filter (fun e => negb (skipped skip_dot (fst e))
                      && Fs.is_directory (snd e)) es).

(** [p] is a regular file of the tree [n] that stands at [dir], and no name
    on the way from [dir] to it is passed over. *)
Inductive visible_file (skip_dot : bool) : path -> node -> path -> Prop :=
| visible_file_here dir es name data :
    In (name, File data) es -> skipped skip_dot name = false ->
    visible_file skip_dot dir (Dir es) (Path.join dir name)
| visible_file_below dir es name sub p :
    In (name, Dir sub) es -> skipped skip_dot name = false ->
    visible_file skip_dot (Path.join dir name) (Dir sub) p ->
    visible_file skip_dot dir (Dir es) p.

(** The same for the directories of the tree. *)
Inductive visible_dir (skip_dot : bool) : path -> node -> path -> Prop :=
| visible_dir_here dir es name sub :
    In (name, Dir sub) es -> skipped skip_dot name = false ->
    visible_dir skip_dot dir (Dir es) (Path.join dir name)
| visible_dir_below dir es name sub p :
    In (name, Dir sub) es -> skipped skip_dot name = false ->
    visible_dir skip_dot (Path.join dir name) (Dir sub) p ->
    visible_dir skip_dot dir (Dir es) p.

(** The files and directories of a tree in the order of a depth-first
    traversal: the entries of a directory in listing order, what a
    sub-directory holds right where the sub-directory stands. *)
Fixpoint tree_files (skip_dot recurse_flag : bool) (dir : path) (n : node)
    {struct n} : list path :=
  match n with
  | Dir es =>
      flat_map
        (fun e : string * node =>
           let (name, child) := e in
           if skipped skip_dot name then []
           else
             match child with
             | File _ => [Path.join dir name]
             | Dir _ =>
                 if recurse_flag
                 then tree_files skip_dot recurse_flag (Path.join dir name) child
                 else []
             | Locked | Broken => []
             end) es
  | _ => []
  end.

Fixpoint tree_dirs (skip_dot recurse_flag : bool) (dir : path) (n : node)
    {struct n} : list path :=
  match n with
  | Dir es =>
      flat_map
        (fun e : string * node =>
           let (name, child) := e in
           if skipped skip_dot name then []
           else
             match child with
             | Dir _ =>
                 Path.join dir name
                 :: (if recurse_flag
                     then tree_dirs skip_dot recurse_flag (Path.join dir name) child
                     else [])
             | Locked => [Path.join dir name]
             | File _ | Broken => []
             end) es
  | _ => []
  end.

(** What the walker finds below [dir]; nothing when it throws. *)
Definition found (skip_dot recurse_flag force_flag : bool) (dir : path)
    (n : node) (w : world) : walk_result :=
  match get_files_node skip_dot recurse_flag force_flag dir n w with
  | (_, Ok r) => r
  | (_, Throw _) => mkWalk [] []
  end.

(** The contribution of one entry of a listing to the list of files, and to
    the list of directories, of a recursive walk. *)
Definition entry_files (skip_dot force_flag : bool) (dir : path) (w : world)
    (e : string * node) : list path :=
  if skipped skip_dot (fst e) then []
  else
    match snd e with
    | File _ => [Path.join dir (fst e)]
    | child => files (found skip_dot true force_flag (Path.join dir (fst e)) child w)
    end.

Definition entry_dirs (skip_dot force_flag : bool) (dir : path) (w : world)
    (e : string * node) : list path :=
  if skipped skip_dot (fst e) then []
  else
    match snd e with
    | File _ => []
    | child =>
        Path.join dir (fst e)
        :: dirs (found skip_dot true force_flag (Path.join dir (fst e)) child w)
    end.

(** The number of regular files a recursive walk can reach. *)
Fixpoint count_files (skip_dot : bool) (n : node) {struct n} : nat :=
  match n with
  | Dir es =>
      list_sum
        (map
           (fun e : string * node =>
              let (name, child) := e in
              if skipped skip_dot name then 0
              else match child with File _ => 1 | _ => count_files skip_dot child end)
           es)
  | _ => 0
  end.

(** The errors the walker reports are logged one after the other. *)
Definition caught_all (errors : list error) (w : world) : world :=
  fold_left (fun w e => caught e w) errors w.

(** The walker reads the tree and logs errors: what it returns and what it
    logs depend on the tree alone. *)
Definition reads_only (skip_dot recurse_flag force_flag : bool) (n : node) : Prop :=
  forall dir, exists errors res,
    forall w,
      get_files_node skip_dot recurse_flag force_flag dir n w
      = (caught_all errors w, res).

(** On a tree without failing entries the walker returns the traversal and
    logs nothing. *)
Definition walks_as_tree (skip_dot recurse_flag force_flag : bool) (n : node) : Prop :=
  healthy n = true ->
  forall es, n = Dir es ->
  forall dir w,
    get_files_node skip_dot recurse_flag force_flag dir n w
    = (w, Ok (mkWalk (tree_files skip_dot recurse_flag dir n)
                (tree_dirs skip_dot recurse_flag dir n))).

(** *** The workflows *)

(** The pairs of source and destination [rename_by_file_order] works through,
    for the files [fls] and the counter starting at [index]. *)
Fixpoint rename_plan (dest_dir : path) (pre : string) (season_no : Z)
    (tv_show_mode : bool) (fls : list path) (index : Z) : list (path * path) :=
  match fls with
  | [] => []
  | file :: rest =>
      (file,
       Path.join dest_dir
         (get_ordered_filename season_no index pre tv_show_mode
            (Str.to_lower (Path.extname file))))
      :: rename_plan dest_dir pre season_no tv_show_mode rest (index + 1)
  end.

Definition arrow_line (pair : path * path) : line :=
  Out (arrow (fst pair) (snd pair)).

(** A loop whose body is wrapped in the handler of the workflows: a failure
    is logged, then thrown again unless the run goes on after errors. *)
Section Guarded.

Variables (S A : Type).
Variable on_caught : error -> S -> S.
Variable force_flag : bool.
Variable body : A -> S -> S * result unit.

Fixpoint guarded (items : list A) (s : S) : S * result unit :=
  match items with
  | [] => (s, Ok tt)
  | x :: rest =>
      match body x s with
      | (s, Ok _) => guarded rest s
      | (s, Throw e) =>
          let s := on_caught e s in
          if force_flag then guarded rest s else (s, Throw e)
      end
  end.

End Guarded.

(** The bodies of the guarded loops of the workflows. *)
Definition rename_body (config : options) (pair : path * path) (w : world)
    : world * result unit :=
  rename config (fst pair) (snd pair) w.

Definition touch_body (config : options) (file : path) (w : world)
    : world * result unit :=
  let w := log ("Touching " ++ Path.show file ++ "...") w in
  if negb (dryrun config) then
    match Fs.utimesSync (fs w) file with
    | Ok root => (set_fs root w, Ok tt)
    | Throw e => (w, Throw e)
    end
  else (w, Ok tt).

Definition to_chd_body (config : options) (spawnSync : string -> outcome)
    (dest_dir : path) (chdman_path : string) (file : path) (w : world)
    : world * result unit :=
  let ext := Path.extname file in
  match chdman_verb_map (Str.to_lower ext) with
  | None => (w, Ok tt)
  | Some chdman_verb =>
      let new_file :=
        Path.join dest_dir (Path.basename_without file ext ++ ".chd") in
      match
        spawn config spawnSync chdman_path
          [chdman_verb; "-i"; quoted (Path.show file);
           "-o"; quoted (Path.show new_file)] w
      with
      | (w, Ok _) =>
          spawn config spawnSync chdman_path
            ["verify"; "-i"; quoted (Path.show new_file)] w
      | (w, Throw e) => (w, Throw e)
      end
  end.

Definition check_dir_body (config : options) (extract_path dir : path)
    (s : report * world) : report * world * result unit :=
  match file_count config dir (snd s) with
  | (w, Ok source_count) =>
      check_one_extract_folder config (Path.basename dir) source_count
        extract_path (fst s) w
  | (w, Throw e) => (fst s, w, Throw e)
  end.

Definition check_file_body (config : options) (extract_path file : path)
    (s : report * world) : report * world * result unit :=
  check_one_extract_folder config (Path.basename file) 1 extract_path
    (fst s) (snd s).

Definition caught_in_report (e : error) (s : report * world) : report * world :=
  (fst s, caught e (snd s)).

(** *** Reconciliation *)

(** The number of files the walker finds under [p] in the tree [root]. *)
Definition file_count_of (config : options) (root : node) (p : path) : result nat :=
  snd (file_count config p (mkWorld root [] None [] [])).

(** What the reconciliation makes of one entry. *)
Inductive verdict : Type :=
| Missing
| Mismatch
| Matches
| Fails (e : error).

(** The verdict on the entry [basename], given its source count (or the
    failure to count). *)
Definition verdict_of (config : options) (root : node) (extract_path : path)
    (basename : string) (source_count : result nat) : verdict :=
  match source_count with
  | Throw e => Fails e
  | Ok sc =>
      if Fs.existsSync root (Path.join extract_path basename) then
        match file_count_of config root (Path.join extract_path basename) with
        | Ok c => if (sc + 1 =? c)%nat then Matches else Mismatch
        | Throw e => Fails e
        end
      else Missing
  end.

Definition is_missing (v : verdict) : bool :=
  match v with Missing => true | _ => false end.

Definition is_mismatch (v : verdict) : bool :=
  match v with Mismatch => true | _ => false end.

(** The entries a reconciliation goes through, directories first, each with
    its verdict. *)
Definition entry_verdicts (config : options) (root : node) (extract_path : path)
    (r : walk_result) : list (string * verdict) :=
  (map (fun d =>
          (Path.basename d,
           verdict_of config root extract_path (Path.basename d)
             (file_count_of config root d))) (dirs r)
   ++ map (fun f =>
             (Path.basename f,
              verdict_of config root extract_path (Path.basename f) (Ok 1)))
        (files r))%list.

Definition names_with (select : verdict -> bool)
    (entries : list (string * verdict)) : list string :=
  map fst (filter (fun e => select (snd e)) entries).

(** A list under its heading, or nothing when the list is empty. *)
Definition section_lines (heading : string) (items : list string) : list string :=
  match items with
  | [] => []
  | _ :: _ => heading :: items
  end.

(** The report after one more entry. *)
Definition record (rep : report) (basename : string) (v : verdict) : report :=
  match v with
  | Missing =>
      mkReport (missing_in_extract rep ++ [basename])%list
        (content_missing_in_extract rep)
  | Mismatch =>
      mkReport (missing_in_extract rep)
        (content_missing_in_extract rep ++ [basename])%list
  | Matches | Fails _ => rep
  end.

Definition outcome_of (v : verdict) : result unit :=
  match v with
  | Fails e => Throw e
  | _ => Ok tt
  end.

(** The options with one flag changed. *)
Definition with_dryrun (b : bool) (c : options) : options :=
  mkOptions (source c) (dest c) (prefix c) (replacement c) (suffix c) (order c)
    (season c) (offset c) (copy c) (touch c) (incoming c) (chd c)
    (extract_flag c) (chdman c) (winrar c) b (force c) (dot c) (recurse c)
    (help c).

Definition with_force (b : bool) (c : options) : options :=
  mkOptions (source c) (dest c) (prefix c) (replacement c) (suffix c) (order c)
    (season c) (offset c) (copy c) (touch c) (incoming c) (chd c)
    (extract_flag c) (chdman c) (winrar c) (dryrun c) b (dot c) (recurse c)
    (help c).

Definition with_recurse (b : bool) (c : options) : options :=
  mkOptions (source c) (dest c) (prefix c) (replacement c) (suffix c) (order c)
    (season c) (offset c) (copy c) (touch c) (incoming c) (chd c)
    (extract_flag c) (chdman c) (winrar c) (dryrun c) (force c) (dot c) b
    (help c).

Definition with_order (b : bool) (c : options) : options :=
  mkOptions (source c) (dest c) (prefix c) (replacement c) (suffix c) b
    (season c) (offset c) (copy c) (touch c) (incoming c) (chd c)
    (extract_flag c) (chdman c) (winrar c) (dryrun c) (force c) (dot c)
    (recurse c) (help c).

(** *** Worlds used in examples *)

Module Fixture.

Definition world_of (root : node) : world := mkWorld root [] None [] [].

(** The defaults of the command line, for the directory [movies]. *)
Definition defaults : options :=
  mkOptions "movies" "" "" "" "" false 1 1 false false false false false
    "chdman" "C:/Program Files/WinRAR/Rar.exe" false false false false false.

(** An external tool that always succeeds. *)
Definition tool_ok (command : string) : outcome := Exited 0 "done".

(** An incoming folder: a directory of three files extracted with its log,
    a single file that was not extracted. *)
Definition incoming_root : node :=
  Dir [("movies",
        Dir [("Alpha", Dir [("a", File "1"); ("b", File "2"); ("c", File "3")]);
             ("solo.mkv", File "4");
             ("!extract",
              Dir [("Alpha",
                    Dir [("a", File "1"); ("b", File "2"); ("c", File "3");
                         ("!extract.log", File "")])])])].

(** A single film and a show with an archive, next to an empty extract
    folder. *)
Definition downloads : node :=
  Dir [("in",
        Dir [("a.mkv", File "A");
             ("Show",
              Dir [("e1.mkv", File "1"); ("e2.rar", File "2");
                   ("notes.txt", File "3")])]);
       ("!extract", Dir [])].

(** Five files, and a directory that stands where the third one is to go. *)
Definition five : node :=
  Dir [("movies",
        Dir [("a", File "1"); ("b", File "2"); ("c", File "3");
             ("d", File "4"); ("e", File "5"); ("S01E03", Dir [])])].

(** A directory with a sub-directory listed before a file. *)
Definition shelf : Fs.entries :=
  [("d", Dir [("x", File EmptyString)]); ("f", File EmptyString)].

(** Three levels, with a hidden file at the bottom. *)
Definition library : node :=
  Dir [("movies",
        Dir [("a.mkv", File "1");
             ("d", Dir [("x.mkv", File "2");
                        ("sub", Dir [("deep.MKV", File "3");
                                     (".hid", File "4")])]);
             ("f.mkv", File "5")])].

Definition library_entries : Fs.entries :=
  match Fs.lookup library ["movies"] with
  | Some (Dir es) => es
  | _ => []
  end.

End Fixture.

(** *** Further notions *)

(** The integers from zero up to 2^53, which the numbers of the program hold
    exactly: below this bound the counter of a run advances by one and a
    number is written with all its digits. *)
Definition max_safe : Z := 9007199254740992.

Definition safe_integer (n : Z) : Prop := (0 <= n < max_safe)%Z.

(** The text starts with a decimal digit. *)
Definition leading_digit (s : string) : bool :=
  match s with
  | String c _ => Decimal.is_digit c
  | EmptyString => false
  end.

(** The names reorder-and-rename gives to the files [fls], in order, the
    counter starting at [index]. *)
Fixpoint ordered_names (pre : string) (season_no : Z) (tv_show_mode : bool)
    (fls : list path) (index : Z) : list string :=
  match fls with
  | [] => []
  | file :: rest =>
      get_ordered_filename season_no index pre tv_show_mode
        (Str.to_lower (Path.extname file))
      :: ordered_names pre season_no tv_show_mode rest (index + 1)
  end.


(** The command line [spawn] builds and logs. *)
Definition command_line (cmd : string) (args : list string) : string :=
  cmd ++ " " ++ String.concat " " args.

(** Where the converted image of [file] goes. *)
Definition chd_target (dest_dir file : path) : path :=
  Path.join dest_dir
    (Path.basename_without file (Path.extname file) ++ ".chd").

Definition create_command (chdman_path verb : string) (dest_dir file : path)
    : string :=
  command_line chdman_path
    [verb; "-i"; quoted (Path.show file);
     "-o"; quoted (Path.show (chd_target dest_dir file))].

Definition verify_command (chdman_path : string) (dest_dir file : path)
    : string :=
  command_line chdman_path
    ["verify"; "-i"; quoted (Path.show (chd_target dest_dir file))].

(** The commands the conversion of [file] consists of: none for a file
    that is not a disc image. *)
Definition chd_commands (chdman_path : string) (dest_dir file : path)
    : list string :=
  match chdman_verb_map (Str.to_lower (Path.extname file)) with
  | None => []
  | Some verb =>
      [create_command chdman_path verb dest_dir file;
       verify_command chdman_path dest_dir file]
  end.

(** The commands a real conversion of the images among [fls] may execute:
    the create command of an image, and the verify command of an image whose
    create command ends with status zero. *)
Definition chd_allowed (spawnSync : string -> outcome) (chdman_path : string)
    (dest_dir : path) (fls : list path) (c : string) : Prop :=
  exists file verb,
    In file fls
    /\ chdman_verb_map (Str.to_lower (Path.extname file)) = Some verb
    /\ (c = create_command chdman_path verb dest_dir file
        \/ (c = verify_command chdman_path dest_dir file
            /\ exists output,
                 spawnSync (create_command chdman_path verb dest_dir file)
                 = Exited 0 output)).

(** No name stands twice in the list. *)
Fixpoint distinct (names : list string) : bool :=
  match names with
  | [] => true
  | a :: rest => negb (existsb (String.eqb a) rest) && distinct rest
  end.

(** No directory of the tree lists a name twice. *)
Fixpoint unique_names (n : node) : bool :=
  match n with
  | Dir es =>
      distinct (map fst es)
      && forallb (fun e : string * node => let (_, child) := e in unique_names child) es
  | File _ | Locked | Broken => true
  end.

(** The two paths part at some component: neither leads to the other. *)
Fixpoint diverge (p q : path) : bool :=
  match p, q with
  | a :: p', b :: q' => if String.eqb a b then diverge p' q' else true
  | _, _ => false
  end.

(** Between two worlds the tree, the executed commands and the log file in
    use are the same: only lines were printed. *)
Definition only_printed (w w' : world) : Prop :=
  fs w' = fs w /\ spawned w' = spawned w /\ logger w' = logger w.

(** The regular files of the entry [n] standing at [src], in listing
    order. *)
Fixpoint all_files (src : path) (n : node) {struct n} : list path :=
  match n with
  | File _ => [src]
  | Dir es =>
      flat_map
        (fun e : string * node =>
           let (name, child) := e in all_files (Path.join src name) child)
        es
  | Locked | Broken => []
  end.

(** From [w] to [w'] the log file [f] stays in use and every line printed
    on the console was also written to it. *)
Definition mirrored (f : path) (w w' : world) : Prop :=
  logger w' = Some f
  /\ exists lines,
       console w' = (console w ++ lines)%list
       /\ logged w' = (logged w ++ map text_of lines)%list.

(** *** The previous version

    The reorder-and-rename workflow of version 0.1.1, which has no log file:
    it prints with [console.log] and [console.error], takes the extension of
    a file as it is written, and walks with the walker whose recursive call
    drops its arguments. *)
Module Previous.

Definition console_log (str : string) (w : world) : world :=
  mkWorld (fs w) (console w ++ [Out str])%list (logger w) (logged w) (spawned w).

Definition console_error (str : string) (w : world) : world :=
  mkWorld (fs w) (console w ++ [Err str])%list (logger w) (logged w) (spawned w).

Definition rename (config : options) (fullpath dest : path) (w : world)
    : world * result unit :=
  let w := console_log (arrow fullpath dest) w in
  if negb (dryrun config) then
    if copy config then
      match Fs.copyFileSync (fs w) fullpath dest with
      | Ok root => (set_fs root w, Ok tt)
      | Throw e => (w, Throw e)
      end
    else
      match Fs.renameSync (fs w) fullpath dest with
      | Ok root => (set_fs root w, Ok tt)
      | Throw e => (w, Throw e)
      end
  else (w, Ok tt).

Fixpoint rename_by_file_order_loop (config : options) (dest_dir : path)
    (prefix : string) (season : Z) (tv_show_mode : bool) (fls : list path)
    (index : Z) (w : world) : world * result unit :=
  match fls with
  | [] => (w, Ok tt)
  | file :: rest =>
      let ext := Path.extname file in
      let new_name :=
        get_ordered_filename season index prefix tv_show_mode ext in
      let index := (index + 1)%Z in
      let dest := Path.join dest_dir new_name in
      match rename config file dest w with
      | (w, Ok _) =>
          rename_by_file_order_loop config dest_dir prefix season tv_show_mode
            rest index w
      | (w, Throw e) =>
          let w := console_error ("Caught error: " ++ json_of_error e) w in
          if force config then
            rename_by_file_order_loop config dest_dir prefix season
              tv_show_mode rest index w
          else (w, Throw e)
      end
  end.

Definition get_files (dir : path) (skip_dot recurse_flag force_flag : bool)
    (w : world) : world * result walk_result :=
  match Fs.lookup (fs w) dir with
  | Some n => Legacy.get_files_node skip_dot recurse_flag force_flag dir n w
  | None => (w, Throw ENOENT)
  end.

Definition rename_by_file_order (config : options) (dir dest_dir : path)
    (prefix : string) (season offset : Z) (tv_show_mode : bool) (w : world)
    : world * result unit :=
  let w :=
    console_log
      ("Renaming files in " ++ Path.show dir ++ " based on file index...") w in
  match get_files dir (negb (dot config)) (recurse config) (force config) w with
  | (w, Ok r) =>
      rename_by_file_order_loop config dest_dir prefix season tv_show_mode
        (files r) offset w
  | (w, Throw e) => (w, Throw e)
  end.

End Previous.

(** The extension of the file is written in lower case. *)
Definition lower_extension (file : path) : Prop :=
  Str.to_lower (Path.extname file) = Path.extname file.

(** The line [touch_dir] prints for a file. *)
Definition touching (file : path) : string :=
  "Touching " ++ Path.show file ++ "...".
(** * Properties *)

Unset Implicit Arguments.

(** ** Texts *)

Lemma append_nil_r (s : string) : s ++ EmptyString = s.
Proof. induction s; simpl; congruence. Qed.

Lemma append_assoc (a b c : string) : (a ++ b) ++ c = a ++ (b ++ c).
Proof. induction a; simpl; congruence. Qed.

Lemma length_append (a b : string) :
  String.length (a ++ b) = String.length a + String.length b.
Proof. induction a; simpl; congruence. Qed.

Lemma ends_with_append (a b : string) : Str.ends_with b (a ++ b).
Proof. now exists a. Qed.

Lemma ends_with_trans (a b c : string) :
  Str.ends_with a b -> Str.ends_with b c -> Str.ends_with a c.
Proof.
  intros [u ->] [v ->]. exists (v ++ u). now rewrite append_assoc.
Qed.

(** ** Decimal texts *)

Section Digits.

Local Open Scope N_scope.

Lemma digits_aux_acc fuel : forall n acc,
  Str.digits_aux fuel n acc = (Str.digits_aux fuel n EmptyString ++ acc)%string.
Proof.
  induction fuel as [|f IH]; intros n acc; simpl; [reflexivity|].
  destruct (n <? 10); [reflexivity|].
  rewrite IH. rewrite (IH _ (String _ EmptyString)).
  now rewrite append_assoc.
Qed.

Lemma digits_aux_length_ge fuel : forall n acc,
  (String.length acc <= String.length (Str.digits_aux fuel n acc))%nat.
Proof.
  induction fuel as [|f IH]; intros n acc; simpl; [lia|].
  destruct (n <? 10); simpl; [lia|].
  specialize (IH (n / 10) (String (Str.digit (n mod 10)) acc)). simpl in IH. lia.
Qed.

(** A number of at least [10^k] has more than [k] digits. *)
Lemma digits_aux_length_lower k : forall fuel n acc,
  (k < fuel)%nat -> 10 ^ N.of_nat k <= n ->
  (String.length acc + k + 1 <= String.length (Str.digits_aux fuel n acc))%nat.
Proof.
  induction k as [|k IH]; intros fuel n acc Hf Hn;
    (destruct fuel as [|f]; [lia|]); simpl.
  - destruct (n <? 10); simpl; [lia|].
    pose proof (digits_aux_length_ge f (n / 10)
                  (String (Str.digit (n mod 10)) acc)) as H.
    simpl in H. lia.
  - rewrite Nat2N.inj_succ, N.pow_succ_r' in Hn.
    assert (1 <= 10 ^ N.of_nat k) by (pose proof (N.pow_nonzero 10 (N.of_nat k)); lia).
    destruct (N.ltb_spec n 10); [lia|].
    assert (10 ^ N.of_nat k <= n / 10).
    { apply N.div_le_lower_bound; lia. }
    specialize (IH f (n / 10) (String (Str.digit (n mod 10)) acc)).
    simpl in IH. lia.
Qed.

(** A number below [10^(k+1)] has at most [k+1] digits. *)
Lemma digits_aux_length_upper fuel : forall k n acc,
  n < 10 ^ N.of_nat (S k) ->
  (String.length (Str.digits_aux fuel n acc) <= String.length acc + k + 1)%nat.
Proof.
  induction fuel as [|f IH]; intros k n acc Hn; simpl; [lia|].
  destruct (N.ltb_spec n 10); simpl; [lia|].
  destruct k as [|k].
  - simpl in Hn. lia.
  - rewrite Nat2N.inj_succ, N.pow_succ_r' in Hn.
    assert (n / 10 < 10 ^ N.of_nat (S k)).
    { apply N.Div0.div_lt_upper_bound; lia. }
    specialize (IH k (n / 10) (String (Str.digit (n mod 10)) acc)).
    simpl in IH. lia.
Qed.

Lemma fuel_enough k n :
  10 ^ N.of_nat k <= n -> (k < S (N.to_nat (N.log2 n)))%nat.
Proof.
  intros Hn.
  assert (2 ^ N.of_nat k <= 10 ^ N.of_nat k).
  { apply N.pow_le_mono_l. lia. }
  assert (N.of_nat k <= N.log2 n).
  { apply N.log2_le_pow2; [|lia].
    pose proof (N.pow_nonzero 2 (N.of_nat k)). lia. }
  lia.
Qed.

Lemma string_of_N_length_lower k n :
  10 ^ N.of_nat k <= n -> (k + 1 <= String.length (Str.string_of_N n))%nat.
Proof.
  intros Hn. unfold Str.string_of_N.
  pose proof (digits_aux_length_lower k _ n EmptyString (fuel_enough k n Hn) Hn) as H.
  simpl in H |- *. lia.
Qed.

Lemma string_of_N_length_upper k n :
  n < 10 ^ N.of_nat (S k) -> (String.length (Str.string_of_N n) <= k + 1)%nat.
Proof.
  intros Hn. unfold Str.string_of_N.
  pose proof (digits_aux_length_upper (S (N.to_nat (N.log2 n))) k n EmptyString Hn) as H.
  simpl in H |- *. lia.
Qed.

Lemma string_of_N_nonempty n : (1 <= String.length (Str.string_of_N n))%nat.
Proof.
  unfold Str.string_of_N. simpl.
  destruct (n <? 10); simpl; [lia|].
  pose proof (digits_aux_length_ge (N.to_nat (N.log2 n)) (n / 10)
                (String (Str.digit (n mod 10)) EmptyString)) as H.
  simpl in H. lia.
Qed.

Lemma is_digit_digit d : d < 10 -> Decimal.is_digit (Str.digit d) = true.
Proof.
  intros H.
  assert (In d [0;1;2;3;4;5;6;7;8;9]) as Hin.
  { assert (d = 0 \/ d = 1 \/ d = 2 \/ d = 3 \/ d = 4 \/ d = 5 \/ d = 6
            \/ d = 7 \/ d = 8 \/ d = 9) by lia.
    simpl. intuition. }
  simpl in Hin.
  repeat (destruct Hin as [<-|Hin]; [reflexivity|]). contradiction.
Qed.

Lemma value_digit d : d < 10 -> N_of_ascii (Str.digit d) - 48 = d.
Proof.
  intros H.
  assert (d = 0 \/ d = 1 \/ d = 2 \/ d = 3 \/ d = 4 \/ d = 5 \/ d = 6
          \/ d = 7 \/ d = 8 \/ d = 9) as Hd by lia.
  repeat (destruct Hd as [->|Hd]; [reflexivity|]). subst. reflexivity.
Qed.

Lemma all_digits_append a b :
  Decimal.all_digits (a ++ b) = Decimal.all_digits a && Decimal.all_digits b.
Proof.
  induction a as [|c a IH]; simpl; [reflexivity|].
  rewrite IH. now rewrite andb_assoc.
Qed.

Lemma value_from_append a : forall acc b,
  Decimal.value_from acc (a ++ b) = Decimal.value_from (Decimal.value_from acc a) b.
Proof. induction a as [|c a IH]; intros; simpl; [reflexivity|]. apply IH. Qed.

Lemma digits_aux_digits fuel : forall n,
  Decimal.all_digits (Str.digits_aux fuel n EmptyString) = true.
Proof.
  induction fuel as [|f IH]; intros n; simpl; [reflexivity|].
  assert (Decimal.is_digit (Str.digit (n mod 10)) = true) as Hd.
  { apply is_digit_digit. apply N.mod_lt. lia. }
  destruct (n <? 10); simpl.
  - now rewrite Hd.
  - rewrite digits_aux_acc, all_digits_append, IH. simpl. now rewrite Hd.
Qed.

Lemma digits_aux_value fuel : forall n,
  n < 2 ^ N.of_nat fuel ->
  Decimal.value (Str.digits_aux fuel n EmptyString) = n.
Proof.
  unfold Decimal.value.
  induction fuel as [|f IH]; intros n Hn.
  - simpl in *. lia.
  - simpl. destruct (N.ltb_spec n 10).
    + simpl. rewrite value_digit; [|now rewrite N.mod_small].
      now apply N.mod_small.
    + rewrite digits_aux_acc, value_from_append.
      rewrite Nat2N.inj_succ, N.pow_succ_r' in Hn.
      rewrite IH.
      * cbn [Decimal.value_from]. rewrite value_digit by (apply N.mod_lt; lia).
        pose proof (N.div_mod n 10). lia.
      * apply N.Div0.div_lt_upper_bound; lia.
Qed.

Lemma string_of_N_value n : Decimal.value (Str.string_of_N n) = n.
Proof.
  unfold Str.string_of_N. apply digits_aux_value.
  rewrite Nat2N.inj_succ, N2Nat.id.
  destruct n as [|p]; [reflexivity|].
  apply N.log2_spec. lia.
Qed.

End Digits.

(** ** Naming policy: ordered names *)

Section Padding.

Local Open Scope Z_scope.

Lemma number_to_string_nonneg n :
  0 <= n -> Str.number_to_string n = Str.string_of_N (Z.to_N n).
Proof. destruct n; [reflexivity | reflexivity | lia]. Qed.

Lemma number_length_lower k n :
  10 ^ Z.of_nat k <= n -> (k + 1 <= String.length (Str.number_to_string n))%nat.
Proof.
  intros Hn.
  assert (0 < 10 ^ Z.of_nat k) by (apply Z.pow_pos_nonneg; lia).
  rewrite number_to_string_nonneg by lia.
  apply string_of_N_length_lower.
  apply N2Z.inj_le. rewrite N2Z.inj_pow, nat_N_Z, Z2N.id by lia. exact Hn.
Qed.

Lemma number_length_upper k n :
  0 <= n < 10 ^ Z.of_nat (S k) ->
  (String.length (Str.number_to_string n) <= k + 1)%nat.
Proof.
  intros Hn.
  rewrite number_to_string_nonneg by lia.
  apply string_of_N_length_upper.
  apply N2Z.inj_lt. rewrite N2Z.inj_pow, nat_N_Z, Z2N.id by lia. apply Hn.
Qed.

Lemma number_length_1 n :
  0 <= n < 10 -> String.length (Str.number_to_string n) = 1%nat.
Proof.
  intros Hn.
  pose proof (number_length_upper 0 n ltac:(simpl; lia)).
  rewrite number_to_string_nonneg in * by lia.
  pose proof (string_of_N_nonempty (Z.to_N n)). lia.
Qed.

Lemma number_length_2 n :
  10 <= n < 100 -> String.length (Str.number_to_string n) = 2%nat.
Proof.
  intros Hn.
  pose proof (number_length_upper 1 n ltac:(simpl; lia)).
  pose proof (number_length_lower 1 n ltac:(simpl; lia)). lia.
Qed.

Lemma number_length_3 n :
  100 <= n < 1000 -> String.length (Str.number_to_string n) = 3%nat.
Proof.
  intros Hn.
  pose proof (number_length_upper 2 n ltac:(simpl; lia)).
  pose proof (number_length_lower 2 n ltac:(simpl; lia)). lia.
Qed.

Lemma zero_pad_wide w n :
  (w <= String.length (Str.number_to_string n))%nat ->
  Str.zero_pad w n = Str.number_to_string n.
Proof.
  intros H. unfold Str.zero_pad.
  replace (w - String.length (Str.number_to_string n))%nat with 0%nat by lia.
  reflexivity.
Qed.

Lemma zero_pad_narrow w k n :
  String.length (Str.number_to_string n) = k -> (k <= w)%nat ->
  Str.zero_pad w n = (Str.repeat_char "0" (w - k) ++ Str.number_to_string n)%string.
Proof. intros H _. unfold Str.zero_pad. now rewrite H. Qed.

Lemma pad2_zero_pad n : 0 <= n -> pad2 n = Str.zero_pad 2 n.
Proof.
  intros Hn. unfold pad2.
  destruct (Z.ltb_spec n 10).
  - now rewrite (zero_pad_narrow 2 1 n (number_length_1 n ltac:(lia)) ltac:(lia)).
  - rewrite zero_pad_wide; [reflexivity|].
    pose proof (number_length_lower 1 n ltac:(simpl; lia)). lia.
Qed.

Lemma pad4_zero_pad n : 0 <= n -> pad4 n = Str.zero_pad 4 n.
Proof.
  intros Hn. unfold pad4.
  destruct (Z.ltb_spec n 10);
    [|destruct (Z.ltb_spec n 100); [|destruct (Z.ltb_spec n 1000)]].
  - now rewrite (zero_pad_narrow 4 1 n (number_length_1 n ltac:(lia)) ltac:(lia)).
  - now rewrite (zero_pad_narrow 4 2 n (number_length_2 n ltac:(lia)) ltac:(lia)).
  - now rewrite (zero_pad_narrow 4 3 n (number_length_3 n ltac:(lia)) ltac:(lia)).
  - rewrite zero_pad_wide; [reflexivity|].
    pose proof (number_length_lower 3 n ltac:(simpl; lia)). lia.
Qed.

Lemma repeat_char_length c k : String.length (Str.repeat_char c k) = k.
Proof. induction k; simpl; congruence. Qed.

Lemma zero_pad_length w n :
  String.length (Str.zero_pad w n)
  = Nat.max w (String.length (Str.number_to_string n)).
Proof.
  unfold Str.zero_pad. rewrite length_append, repeat_char_length. lia.
Qed.

Lemma zeros_digits k : Decimal.all_digits (Str.repeat_char "0" k) = true.
Proof. induction k; simpl; auto. Qed.

Lemma zeros_value k : Decimal.value_from 0 (Str.repeat_char "0" k) = 0%N.
Proof. induction k; simpl; auto. Qed.

(** A zero-padded text is made of digits, denotes the number and is at
    least as wide as asked. *)
Lemma zero_pad_meaning w n :
  0 <= n ->
  Decimal.all_digits (Str.zero_pad w n) = true
  /\ Z.of_N (Decimal.value (Str.zero_pad w n)) = n
  /\ (w <= String.length (Str.zero_pad w n))%nat.
Proof.
  intros Hn. split; [|split].
  - unfold Str.zero_pad. rewrite all_digits_append, zeros_digits.
    rewrite number_to_string_nonneg by lia. apply digits_aux_digits.
  - unfold Str.zero_pad, Decimal.value.
    rewrite value_from_append, zeros_value, number_to_string_nonneg by lia.
    fold (Decimal.value (Str.string_of_N (Z.to_N n))).
    rewrite string_of_N_value. lia.
  - rewrite zero_pad_length. lia.
Qed.

End Padding.

(** C8, as the program has it.  For numbers from zero up to 2^53, where the
    numbers of the program are the integers: in TV mode, for an index and a
    season between 1 and 99, the ordered name is [S], the season zero-padded
    to two digits, [E], the index zero-padded to two digits and [.mkv];
    outside TV mode it is the prefix, the index zero-padded to four digits and
    the extension; a season or index of 100 or more, or an index of 10000 or
    more, is written in full, wider than the field and without padding.  The
    last part says what zero-padded means: digits only, denoting the number,
    at least as wide as the field. *)
Theorem ordered_name_zero_padded :
  (forall index season prefix,
      (1 <= index <= 99)%Z -> (1 <= season <= 99)%Z ->
      get_ordered_filename season index prefix true ".mkv"
      = "S" ++ Str.zero_pad 2 season ++ "E" ++ Str.zero_pad 2 index ++ ".mkv"
      /\ String.length (Str.zero_pad 2 season) = 2
      /\ String.length (Str.zero_pad 2 index) = 2)
  /\ (forall index season prefix extension,
         safe_integer index ->
         get_ordered_filename season index prefix false extension
         = prefix ++ Str.zero_pad 4 index ++ extension)
  /\ (forall n, (100 <= n)%Z -> safe_integer n ->
         pad2 n = Str.number_to_string n
         /\ 2 < String.length (Str.number_to_string n)
         /\ Decimal.all_digits (Str.number_to_string n) = true
         /\ Z.of_N (Decimal.value (Str.number_to_string n)) = n)
  /\ (forall n, (10000 <= n)%Z -> safe_integer n ->
         pad4 n = Str.number_to_string n
         /\ 4 < String.length (Str.number_to_string n)
         /\ Decimal.all_digits (Str.number_to_string n) = true
         /\ Z.of_N (Decimal.value (Str.number_to_string n)) = n)
  /\ (forall w n, safe_integer n ->
         Decimal.all_digits (Str.zero_pad w n) = true
         /\ Z.of_N (Decimal.value (Str.zero_pad w n)) = n
         /\ w <= String.length (Str.zero_pad w n)).
Proof.
  assert (forall n, (0 <= n)%Z ->
             Decimal.all_digits (Str.number_to_string n) = true
             /\ Z.of_N (Decimal.value (Str.number_to_string n)) = n) as Hnum.
  { intros n Hn. destruct (zero_pad_meaning 0 n Hn) as (H1 & H2 & _).
    unfold Str.zero_pad in H1, H2. cbn in H1, H2. now split. }
  split; [|split; [|split; [|split]]].
  - intros i s p Hi Hs. split; [|split].
    + unfold get_ordered_filename, get_season_episode_for_file_index.
      now rewrite !pad2_zero_pad by lia.
    + rewrite zero_pad_length.
      destruct (Z.ltb_spec s 10).
      * rewrite number_length_1 by lia. reflexivity.
      * rewrite number_length_2 by lia. reflexivity.
    + rewrite zero_pad_length.
      destruct (Z.ltb_spec i 10).
      * rewrite number_length_1 by lia. reflexivity.
      * rewrite number_length_2 by lia. reflexivity.
  - intros i s p ext [Hi _].
    unfold get_ordered_filename, get_simple_filename_index.
    now rewrite pad4_zero_pad.
  - intros n Hn _. split; [|split].
    + unfold pad2. destruct (Z.ltb_spec n 10); [lia | reflexivity].
    + pose proof (number_length_lower 2 n ltac:(simpl; lia)). lia.
    + apply Hnum. lia.
  - intros n Hn _. split; [|split].
    + unfold pad4.
      destruct (Z.ltb_spec n 10); [lia|].
      destruct (Z.ltb_spec n 100); [lia|].
      destruct (Z.ltb_spec n 1000); [lia | reflexivity].
    + pose proof (number_length_lower 4 n ltac:(simpl; lia)). lia.
    + apply Hnum. lia.
  - intros w n [Hn _]. now apply zero_pad_meaning.
Qed.

Lemma ordered_name_zero_padded_witness :
  get_ordered_filename 3 7 "" true ".mkv" = "S03E07.mkv"
  /\ get_ordered_filename 3 12345 "img" false ".JPG" = "img12345.JPG"
  /\ pad2 123 = "123".
Proof.
  destruct ordered_name_zero_padded as (Htv & Hplain & Hwide2 & _).
  split; [|split].
  - exact (proj1 (Htv 7%Z 3%Z "" ltac:(lia) ltac:(lia))).
  - exact (Hplain 12345%Z 3%Z "img" ".JPG" ltac:(unfold safe_integer, max_safe; lia)).
  - exact (proj1 (Hwide2 123%Z ltac:(lia)
                    ltac:(unfold safe_integer, max_safe; lia))).
Defined.

(** Read to the letter, the statement of the specification gives a
    zero-padded field to every index outside TV mode.  It fails below zero:
    the zeros of the one-digit case go before the minus sign, so the index -5
    gives the field [000-5], which is five characters wide, not four, and is
    not made of digits. *)
Lemma negative_index_not_zero_padded :
  get_ordered_filename 1 (-5) "img" false ".jpg" = "img000-5.jpg"
  /\ get_ordered_filename 1 (-5) "img" false ".jpg"
     <> "img" ++ Str.zero_pad 4 (-5) ++ ".jpg"
  /\ forall field,
       get_ordered_filename 1 (-5) "img" false ".jpg"
       = "img" ++ field ++ ".jpg" ->
       String.length field = 5 /\ Decimal.all_digits field = false.
Proof.
  split; [reflexivity|]. split; [discriminate|].
  intros field H.
  change (get_ordered_filename 1 (-5) "img" false ".jpg") with "img000-5.jpg" in H.
  cbn in H. injection H as H.
  assert (String.length field = 5) as Hlen.
  { apply (f_equal String.length) in H. rewrite length_append in H.
    cbn in H. lia. }
  split; [exact Hlen|].
  destruct field as [|c1 [|c2 [|c3 [|c4 [|c5 [|c6 rest]]]]]];
    try discriminate Hlen.
  cbn in H. injection H as <- <- <- <- <-. reflexivity.
Qed.

(** ** The substitution workflow: substituted names *)

(** C5.  The two steps of the specification are written in the body of the
    loop of [remove], but the program does not get there: the first
    statement of the body assigns to [fullpath], which is declared nowhere,
    so the run over the file [FOO_clip.mp4] with the prefix [FOO_] throws
    before it examines the file.  It prints the heading only, not even the
    line that names the file, renames nothing and leaves the file under its
    name. *)
Lemma substitution_is_never_reached :
  let w :=
    Fixture.world_of (Dir [("movies", Dir [("FOO_clip.mp4", File "1")])]) in
  let run := remove_count Fixture.defaults ["movies"] "FOO_" "" "" w in
  snd run = Throw (ReferenceError "fullpath")
  /\ fst (fst run) = 0
  /\ fs (snd (fst run)) = fs w
  /\ Fs.existsSync (fs (snd (fst run))) ["movies"; "FOO_clip.mp4"] = true
  /\ Fs.existsSync (fs (snd (fst run))) ["movies"; "clip.mp4"] = false
  /\ List.length (console (snd (fst run))) = 1
  /\ ~ In (Out (tab ++ "FOO_clip.mp4...")%string) (console (snd (fst run)))
  /\ ~ In (Out (tab ++ tab ++ "Prefix found")%string) (console (snd (fst run))).
Proof.
  cbv zeta. repeat split; try reflexivity; vm_compute; intuition discriminate.
Qed.

(** ** Directory walker *)

Local Open Scope list_scope.

(** Induction over a tree, with the property at hand for every entry of a
    directory. *)
Lemma node_induction (P : node -> Prop) :
  (forall data, P (File data)) ->
  (forall es, Forall (fun e => P (snd e)) es -> P (Dir es)) ->
  P Locked -> P Broken ->
  forall n, P n.
Proof.
  intros HFile HDir HLocked HBroken.
  fix IH 1.
  intros [data|es| |]; [apply HFile | | exact HLocked | exact HBroken].
  apply HDir.
  induction es as [|[name child] es IHes]; constructor; [apply IH | exact IHes].
Qed.

Lemma caught_all_app l1 l2 w :
  caught_all (l1 ++ l2) w = caught_all l2 (caught_all l1 w).
Proof. apply fold_left_app. Qed.

Lemma caught_fs e w : fs (caught e w) = fs w.
Proof. unfold caught, log_error, file_logger_write. simpl. now destruct (logger w). Qed.

Lemma caught_logger e w : logger (caught e w) = logger w.
Proof. unfold caught, log_error, file_logger_write. simpl. now destruct (logger w). Qed.

Lemma caught_spawned e w : spawned (caught e w) = spawned w.
Proof. unfold caught, log_error, file_logger_write. simpl. now destruct (logger w). Qed.

Lemma caught_console e w :
  console (caught e w) = console w ++ [Err ("Caught error: " ++ json_of_error e)%string].
Proof. unfold caught, log_error, file_logger_write. simpl. now destruct (logger w). Qed.

Lemma caught_all_fs errors : forall w, fs (caught_all errors w) = fs w.
Proof.
  induction errors as [|e l IH]; intros w; simpl; [reflexivity|].
  now rewrite IH, caught_fs.
Qed.

Lemma caught_all_logger errors : forall w, logger (caught_all errors w) = logger w.
Proof.
  induction errors as [|e l IH]; intros w; simpl; [reflexivity|].
  now rewrite IH, caught_logger.
Qed.

Lemma caught_all_spawned errors : forall w, spawned (caught_all errors w) = spawned w.
Proof.
  induction errors as [|e l IH]; intros w; simpl; [reflexivity|].
  now rewrite IH, caught_spawned.
Qed.

Lemma caught_all_console errors : forall w,
  console (caught_all errors w)
  = console w ++ map (fun e => Err ("Caught error: " ++ json_of_error e)%string) errors.
Proof.
  induction errors as [|e l IH]; intros w; simpl.
  - now rewrite app_nil_r.
  - rewrite IH, caught_console, <- app_assoc. reflexivity.
Qed.

(** *** The walker only reads the tree

    What the walker returns depends on the tree alone, and all it does to the
    world is to log the errors it met. *)

Lemma get_files_loop_reads_only skip_dot recurse_flag force_flag es :
  Forall (fun e => reads_only skip_dot recurse_flag force_flag (snd e)) es ->
  forall dir fls drs, exists errors res,
    forall w,
      get_files_loop skip_dot recurse_flag force_flag
        (get_files_node skip_dot recurse_flag force_flag) dir es fls drs w
      = (caught_all errors w, res).
Proof.
  induction 1 as [|[name child] es Hc _ IH]; intros dir fls drs; simpl.
  - now exists [], (Ok (mkWalk fls drs)).
  - destruct (Str.starts_with "." name && skip_dot); [apply IH|].
    destruct (Fs.stat_node child) as [[|]|e0].
    + apply IH.
    + destruct (Hc (Path.join dir name)) as (errs & res & Hw). simpl in Hw.
      destruct recurse_flag; [|apply IH].
      destruct res as [r|e].
      * destruct (IH dir (fls ++ files r) ((drs ++ [Path.join dir name]) ++ dirs r))
          as (errs' & res' & Hl).
        exists (errs ++ errs'), res'. intros w.
        rewrite Hw, Hl, caught_all_app. reflexivity.
      * destruct force_flag.
        -- destruct (IH dir fls (drs ++ [Path.join dir name]))
             as (errs' & res' & Hl).
           exists (errs ++ e :: errs'), res'. intros w.
           rewrite Hw, Hl, caught_all_app. reflexivity.
        -- exists (errs ++ [e]), (Throw e). intros w.
           rewrite Hw, caught_all_app. reflexivity.
    + destruct force_flag.
      * destruct (IH dir fls drs) as (errs' & res' & Hl).
        exists (e0 :: errs'), res'. intros w. now rewrite Hl.
      * now exists [e0], (Throw e0).
Qed.

Lemma get_files_node_reads_only skip_dot recurse_flag force_flag n :
  reads_only skip_dot recurse_flag force_flag n.
Proof.
  induction n as [data|es IH| |] using node_induction; intros dir.
  - now exists [], (Throw ENOTDIR).
  - apply get_files_loop_reads_only, IH.
  - now exists [], (Throw EACCES).
  - now exists [], (Throw ENOENT).
Qed.

Lemma get_files_reads_only dir skip_dot recurse_flag force_flag root :
  exists errors res,
    forall w, fs w = root ->
      get_files dir skip_dot recurse_flag force_flag w = (caught_all errors w, res).
Proof.
  unfold get_files.
  destruct (Fs.lookup root dir) as [n|] eqn:E.
  - destruct (get_files_node_reads_only skip_dot recurse_flag force_flag n dir)
      as (errs & res & H).
    exists errs, res. intros w <-. now rewrite E.
  - exists [], (Throw ENOENT). intros w <-. now rewrite E.
Qed.

(** The walker leaves the tree, the log file in use and the executed
    commands as they are. *)
Lemma get_files_frame dir skip_dot recurse_flag force_flag w :
  let w' := fst (get_files dir skip_dot recurse_flag force_flag w) in
  fs w' = fs w /\ logger w' = logger w /\ spawned w' = spawned w
  /\ exists errors,
       console w'
       = console w ++ map (fun e => Err ("Caught error: " ++ json_of_error e)%string) errors.
Proof.
  destruct (get_files_reads_only dir skip_dot recurse_flag force_flag (fs w))
    as (errs & res & H).
  simpl. rewrite (H w eq_refl). simpl.
  rewrite caught_all_fs, caught_all_logger, caught_all_spawned.
  repeat split. exists errs. apply caught_all_console.
Qed.

(** What the walker returns is the same in two worlds with the same tree. *)
Lemma get_files_result_of_tree dir skip_dot recurse_flag force_flag w w' :
  fs w = fs w' ->
  snd (get_files dir skip_dot recurse_flag force_flag w)
  = snd (get_files dir skip_dot recurse_flag force_flag w').
Proof.
  intros Hfs.
  destruct (get_files_reads_only dir skip_dot recurse_flag force_flag (fs w))
    as (errs & res & H).
  now rewrite (H w eq_refl), (H w' (eq_sym Hfs)).
Qed.

(** *** The walk of a tree without failing entries *)

Lemma tree_files_cons skip_dot recurse_flag dir e es :
  tree_files skip_dot recurse_flag dir (Dir (e :: es))
  = tree_files skip_dot recurse_flag dir (Dir [e])
    ++ tree_files skip_dot recurse_flag dir (Dir es).
Proof. simpl. now rewrite app_nil_r. Qed.

Lemma tree_dirs_cons skip_dot recurse_flag dir e es :
  tree_dirs skip_dot recurse_flag dir (Dir (e :: es))
  = tree_dirs skip_dot recurse_flag dir (Dir [e])
    ++ tree_dirs skip_dot recurse_flag dir (Dir es).
Proof. simpl. now rewrite app_nil_r. Qed.

Lemma tree_files_single skip_dot recurse_flag dir name child :
  tree_files skip_dot recurse_flag dir (Dir [(name, child)])
  = if skipped skip_dot name then []
    else
      match child with
      | File _ => [Path.join dir name]
      | Dir _ =>
          if recurse_flag
          then tree_files skip_dot recurse_flag (Path.join dir name) child
          else []
      | Locked | Broken => []
      end.
Proof. cbn [tree_files flat_map]. now rewrite app_nil_r. Qed.

Lemma tree_dirs_single skip_dot recurse_flag dir name child :
  tree_dirs skip_dot recurse_flag dir (Dir [(name, child)])
  = if skipped skip_dot name then []
    else
      match child with
      | Dir _ =>
          Path.join dir name
          :: (if recurse_flag
              then tree_dirs skip_dot recurse_flag (Path.join dir name) child
              else [])
      | Locked => [Path.join dir name]
      | File _ | Broken => []
      end.
Proof. cbn [tree_dirs flat_map]. now rewrite app_nil_r. Qed.

Lemma get_files_loop_healthy skip_dot recurse_flag force_flag es :
  Forall (fun e => walks_as_tree skip_dot recurse_flag force_flag (snd e)) es ->
  healthy (Dir es) = true ->
  forall dir fls drs w,
    get_files_loop skip_dot recurse_flag force_flag
      (get_files_node skip_dot recurse_flag force_flag) dir es fls drs w
    = (w, Ok (mkWalk (fls ++ tree_files skip_dot recurse_flag dir (Dir es))
                (drs ++ tree_dirs skip_dot recurse_flag dir (Dir es)))).
Proof.
  induction 1 as [|[name child] es Hc _ IH]; intros Hh dir fls drs w.
  - simpl. now rewrite !app_nil_r.
  - cbn [healthy forallb] in Hh. apply andb_true_iff in Hh as [Hchild Hrest].
    specialize (IH Hrest). cbn [snd] in Hc.
    rewrite tree_files_cons, tree_dirs_cons, !app_assoc.
    rewrite tree_files_single, tree_dirs_single.
    cbn [get_files_loop]. unfold skipped.
    destruct (Str.starts_with "." name && skip_dot) eqn:Hskip.
    + rewrite IH. now rewrite !app_nil_r.
    + destruct child as [data|sub| |]; try discriminate; cbn [Fs.stat_node].
      * rewrite IH. now rewrite !app_nil_r.
      * destruct recurse_flag.
        -- rewrite (Hc Hchild sub eq_refl (Path.join dir name) w).
           rewrite IH. cbn [files dirs].
           do 3 f_equal; rewrite <- ?app_assoc; reflexivity.
        -- rewrite IH. now rewrite !app_nil_r.
Qed.

Lemma get_files_node_healthy skip_dot recurse_flag force_flag n :
  walks_as_tree skip_dot recurse_flag force_flag n.
Proof.
  induction n as [data|es IH| |] using node_induction;
    intros Hh es' Heq dir w; try discriminate.
  cbn [get_files_node].
  now rewrite (get_files_loop_healthy _ _ _ es IH Hh dir [] [] w).
Qed.

Lemma flat_map_ext_in {A B} (f g : A -> list B) l :
  (forall a, In a l -> f a = g a) -> flat_map f l = flat_map g l.
Proof.
  induction l as [|a l IH]; intros H; simpl; [reflexivity|].
  rewrite (H a (or_introl eq_refl)), IH; [reflexivity|].
  intros b Hb. apply H. now right.
Qed.

Lemma tree_files_own skip_dot dir es :
  tree_files skip_dot false dir (Dir es) = own_files skip_dot dir es.
Proof.
  unfold own_files. cbn [tree_files].
  induction es as [|[name child] es IH]; simpl; [reflexivity|].
  rewrite IH.
  destruct (skipped skip_dot name); simpl; [reflexivity|].
  now destruct child.
Qed.

Lemma tree_dirs_own skip_dot dir es :
  tree_dirs skip_dot false dir (Dir es) = own_dirs skip_dot dir es.
Proof.
  unfold own_dirs. cbn [tree_dirs].
  induction es as [|[name child] es IH]; simpl; [reflexivity|].
  rewrite IH.
  destruct (skipped skip_dot name); simpl; [reflexivity|].
  now destruct child.
Qed.

Lemma visible_file_in_tree skip_dot dir n p :
  visible_file skip_dot dir n p -> In p (tree_files skip_dot true dir n).
Proof.
  induction 1 as [dir es name data Hin Hskip
                 |dir es name sub p Hin Hskip _ IH];
    cbn [tree_files]; apply in_flat_map.
  - exists (name, File data). split; [exact Hin|]. rewrite Hskip. now left.
  - exists (name, Dir sub). split; [exact Hin|]. rewrite Hskip. exact IH.
Qed.

Lemma visible_dir_in_tree skip_dot dir n p :
  visible_dir skip_dot dir n p -> In p (tree_dirs skip_dot true dir n).
Proof.
  induction 1 as [dir es name sub Hin Hskip
                 |dir es name sub p Hin Hskip _ IH];
    cbn [tree_dirs]; apply in_flat_map.
  - exists (name, Dir sub). split; [exact Hin|]. rewrite Hskip. now left.
  - exists (name, Dir sub). split; [exact Hin|]. rewrite Hskip. right. exact IH.
Qed.

Lemma tree_files_visible skip_dot n : forall dir p,
  In p (tree_files skip_dot true dir n) <-> visible_file skip_dot dir n p.
Proof.
  induction n as [data|es IH| |] using node_induction; intros dir p;
    try (split; [intros [] | inversion 1]).
  split.
  - cbn [tree_files]. rewrite in_flat_map.
    intros ([name child] & Hin & Hp).
    destruct (skipped skip_dot name) eqn:Hskip; [destruct Hp|].
    destruct child as [data|sub| |].
    + destruct Hp as [<-|[]]. eapply visible_file_here; eauto.
    + rewrite Forall_forall in IH. specialize (IH _ Hin). cbn [snd] in IH.
      eapply visible_file_below; eauto. now apply IH.
    + destruct Hp.
    + destruct Hp.
  - apply visible_file_in_tree.
Qed.

Lemma tree_dirs_visible skip_dot n : healthy n = true -> forall dir p,
  In p (tree_dirs skip_dot true dir n) <-> visible_dir skip_dot dir n p.
Proof.
  induction n as [data|es IH| |] using node_induction; intros Hh dir p;
    try (split; [intros [] | inversion 1]).
  cbn [healthy] in Hh. rewrite forallb_forall in Hh.
  split.
  - cbn [tree_dirs]. rewrite in_flat_map.
    intros ([name child] & Hin & Hp).
    destruct (skipped skip_dot name) eqn:Hskip; [destruct Hp|].
    pose proof (Hh _ Hin) as Hchild. cbn beta iota in Hchild.
    destruct child as [data|sub| |]; try discriminate.
    + destruct Hp.
    + destruct Hp as [<-|Hp].
      * eapply visible_dir_here; eauto.
      * rewrite Forall_forall in IH. specialize (IH _ Hin). cbn [snd] in IH.
        eapply visible_dir_below; eauto. now apply IH.
  - apply visible_dir_in_tree.
Qed.

Lemma tree_files_count skip_dot n : forall dir,
  List.length (tree_files skip_dot true dir n) = count_files skip_dot n.
Proof.
  induction n as [data|es IH| |] using node_induction; intros dir;
    try reflexivity.
  cbn [tree_files count_files]. rewrite length_flat_map. f_equal.
  apply map_ext_in. intros [name child] Hin.
  destruct (skipped skip_dot name); [reflexivity|].
  rewrite Forall_forall in IH. specialize (IH _ Hin). cbn [snd] in IH.
  destruct child; try reflexivity. apply IH.
Qed.

Lemma found_healthy skip_dot recurse_flag force_flag dir sub w :
  healthy (Dir sub) = true ->
  found skip_dot recurse_flag force_flag dir (Dir sub) w
  = mkWalk (tree_files skip_dot recurse_flag dir (Dir sub))
      (tree_dirs skip_dot recurse_flag dir (Dir sub)).
Proof.
  intros Hh. unfold found.
  now rewrite (get_files_node_healthy skip_dot recurse_flag force_flag
                 (Dir sub) Hh sub eq_refl dir w).
Qed.

(** C1, as the program has it.  On a tree in which every entry can be
    examined and every directory read, the walk of a directory returns and
    logs nothing.  Without recursion it returns exactly the first-level
    entries that are not passed over.  With recursion it returns exactly the
    files, and the directories, that can be reached through names that are
    not passed over, as many files as the tree holds; and the lists are in the
    order of the traversal: the contributions of the entries in listing order,
    where a file contributes itself and a directory contributes itself and,
    right there, all that the walk finds below it. *)
Theorem walk_of_healthy_tree :
  forall skip_dot force_flag dir es w,
    Fs.lookup (fs w) dir = Some (Dir es) ->
    healthy (Dir es) = true ->
    get_files dir skip_dot false force_flag w
    = (w, Ok (mkWalk (own_files skip_dot dir es) (own_dirs skip_dot dir es)))
    /\ exists r,
         get_files dir skip_dot true force_flag w = (w, Ok r)
         /\ (forall p, In p (files r) <-> visible_file skip_dot dir (Dir es) p)
         /\ (forall p, In p (dirs r) <-> visible_dir skip_dot dir (Dir es) p)
         /\ List.length (files r) = count_files skip_dot (Dir es)
         /\ files r = flat_map (entry_files skip_dot force_flag dir w) es
         /\ dirs r = flat_map (entry_dirs skip_dot force_flag dir w) es.
Proof.
  intros skip_dot force_flag dir es w Hdir Hh.
  unfold get_files. rewrite Hdir.
  rewrite !(get_files_node_healthy _ _ _ (Dir es) Hh es eq_refl dir w).
  split; [now rewrite tree_files_own, tree_dirs_own|].
  eexists. split; [reflexivity|]. cbn [files dirs].
  split; [intros p; apply tree_files_visible|].
  split; [intros p; now apply tree_dirs_visible|].
  split; [apply tree_files_count|].
  cbn [healthy] in Hh. rewrite forallb_forall in Hh.
  split; cbn [tree_files tree_dirs]; apply flat_map_ext_in;
    intros [name child] Hin; unfold entry_files, entry_dirs; cbn [fst snd];
    destruct (skipped skip_dot name); try reflexivity;
    pose proof (Hh _ Hin) as Hchild; cbn beta iota in Hchild;
    destruct child as [data|sub| |]; try discriminate; try reflexivity;
    now rewrite found_healthy.
Qed.

Lemma walk_of_healthy_tree_witness :
  let w := Fixture.world_of Fixture.library in
  get_files ["movies"] true false false w
  = (w, Ok (mkWalk [["movies"; "a.mkv"]; ["movies"; "f.mkv"]] [["movies"; "d"]]))
  /\ exists r,
       get_files ["movies"] true true false w = (w, Ok r)
       /\ List.length (files r) = 4
       /\ files r
          = flat_map (entry_files true false ["movies"] w) Fixture.library_entries.
Proof.
  destruct (walk_of_healthy_tree true false ["movies"] Fixture.library_entries
              (Fixture.world_of Fixture.library) eq_refl eq_refl)
    as (Hflat & r & Hr & _ & _ & Hcount & Horder & _).
  split; [exact Hflat|].
  exists r. repeat split; assumption.
Defined.

(** Read to the letter, the statement of the specification fails twice.  The
    parent's own entries do not all come first: a file listed after a
    sub-directory comes after what the sub-directory holds.  And a readable
    root is not enough for the walk to return: an entry that cannot be
    examined makes it throw. *)
Lemma walk_own_entries_not_first :
  ~ (forall skip_dot force_flag dir es w r,
        healthy (Dir es) = true ->
        get_files_node skip_dot true force_flag dir (Dir es) w = (w, Ok r) ->
        exists rest, files r = own_files skip_dot dir es ++ rest)
  /\ ~ (forall skip_dot recurse_flag force_flag dir es w,
           exists r,
             snd (get_files_node skip_dot recurse_flag force_flag dir (Dir es) w)
             = Ok r).
Proof.
  split.
  - intros H.
    destruct (H true false [] Fixture.shelf (Fixture.world_of (Dir Fixture.shelf))
                (mkWalk [["d"; "x"]; ["f"]] [["d"]]) eq_refl eq_refl)
      as [rest Hrest].
    discriminate Hrest.
  - intros H.
    destruct (H true false false [] [("b", Broken)]
                (Fixture.world_of (Dir [("b", Broken)]))) as [r Hr].
    discriminate Hr.
Qed.

(** The superseded walker stops one level down, and does not pass over
    hidden entries there. *)
Lemma legacy_walker_one_level_down :
  let w := Fixture.world_of Fixture.library in
  snd (Legacy.get_files_node true true false ["movies"]
         (Dir Fixture.library_entries) w)
  = Ok (mkWalk
          [["movies"; "a.mkv"]; ["movies"; "d"; "x.mkv"]; ["movies"; "f.mkv"]]
          [["movies"; "d"]; ["movies"; "d"; "sub"]])
  /\ snd (get_files ["movies"] true true false w)
     = Ok (mkWalk
             [["movies"; "a.mkv"]; ["movies"; "d"; "x.mkv"];
              ["movies"; "d"; "sub"; "deep.MKV"]; ["movies"; "f.mkv"]]
             [["movies"; "d"]; ["movies"; "d"; "sub"]]).
Proof. split; reflexivity. Qed.

(** ** Logging *)

Lemma log_fs s w : fs (log s w) = fs w.
Proof. unfold log, file_logger_write. simpl. now destruct (logger w). Qed.

Lemma log_logger s w : logger (log s w) = logger w.
Proof. unfold log, file_logger_write. simpl. now destruct (logger w). Qed.

Lemma log_spawned s w : spawned (log s w) = spawned w.
Proof. unfold log, file_logger_write. simpl. now destruct (logger w). Qed.

Lemma log_console s w : console (log s w) = console w ++ [Out s].
Proof. unfold log, file_logger_write. simpl. now destruct (logger w). Qed.

Lemma log_logged_off s w : logger w = None -> logged (log s w) = logged w.
Proof. unfold log, file_logger_write. simpl. now intros ->. Qed.

Lemma caught_logged_off e w : logger w = None -> logged (caught e w) = logged w.
Proof. unfold caught, log_error, file_logger_write. simpl. now intros ->. Qed.

Lemma caught_all_logged_off errors : forall w,
  logger w = None -> logged (caught_all errors w) = logged w.
Proof.
  induction errors as [|e l IH]; intros w H; simpl; [reflexivity|].
  rewrite IH by now rewrite caught_logger. now apply caught_logged_off.
Qed.

(** ** Reorder and rename *)

(** The loop of [rename_by_file_order] is the guarded loop over its plan. *)
Lemma rename_by_file_order_loop_guarded config dest_dir pre season_no tv fls :
  forall index w,
    rename_by_file_order_loop config dest_dir pre season_no tv fls index w
    = guarded caught (force config) (rename_body config)
        (rename_plan dest_dir pre season_no tv fls index) w.
Proof.
  induction fls as [|file rest IH]; intros index w; [reflexivity|].
  cbn [rename_by_file_order_loop rename_plan guarded].
  unfold rename_body at 1. cbn [fst snd].
  destruct (rename config file _ w) as [w1 [[]|e]]; rewrite ?IH; reflexivity.
Qed.

(** Under dry-run a rename logs its line and does nothing else. *)
Lemma rename_dryrun config src dst w :
  dryrun config = true -> rename config src dst w = (log (arrow src dst) w, Ok tt).
Proof.
  intros H. unfold rename, copy_file. rewrite H. now destruct (copy config).
Qed.

Lemma guarded_rename_dryrun config plan : forall w,
  dryrun config = true ->
  let w' := fst (guarded caught (force config) (rename_body config) plan w) in
  snd (guarded caught (force config) (rename_body config) plan w) = Ok tt
  /\ fs w' = fs w /\ logger w' = logger w /\ spawned w' = spawned w
  /\ console w' = console w ++ map arrow_line plan
  /\ (logger w = None -> logged w' = logged w).
Proof.
  induction plan as [|[src dst] plan IH]; intros w Hdry.
  - cbn. rewrite app_nil_r. repeat split; reflexivity.
  - assert (guarded caught (force config) (rename_body config)
              ((src, dst) :: plan) w
            = guarded caught (force config) (rename_body config) plan
                (log (arrow src dst) w)) as ->.
    { cbn [guarded]. unfold rename_body at 1. cbn [fst snd].
      now rewrite (rename_dryrun config src dst w Hdry). }
    cbv zeta.
    destruct (IH (log (arrow src dst) w) Hdry) as (Hr & Hfs & Hlg & Hsp & Hco & Hld).
    rewrite log_fs in Hfs. rewrite log_logger in Hlg, Hld.
    rewrite log_spawned in Hsp. rewrite log_console in Hco.
    repeat split; try assumption.
    + rewrite Hco, <- app_assoc. reflexivity.
    + intros Hoff. rewrite (Hld Hoff). now apply log_logged_off.
Qed.

(** C4. With dry-run on, reorder-and-rename changes nothing in the file
    system: the tree is the same afterwards, so no file has moved and what
    exists at a computed destination existed there before; the executed
    commands and the log file in use are untouched, and nothing is written to
    a log file when none is open.  When the enumeration succeeds the run
    returns, and what it prints after the enumeration is one line
    [src => dest] for each planned pair, in order. *)
Theorem rename_by_file_order_dryrun :
  forall config dir dest_dir pre season_no off tv w,
    dryrun config = true ->
    let run := rename_by_file_order config dir dest_dir pre season_no off tv w in
    fs (fst run) = fs w
    /\ (forall p, Fs.existsSync (fs (fst run)) p = Fs.existsSync (fs w) p)
    /\ (forall p, Fs.lookup (fs (fst run)) p = Fs.lookup (fs w) p)
    /\ spawned (fst run) = spawned w
    /\ logger (fst run) = logger w
    /\ (logger w = None -> logged (fst run) = logged w)
    /\ forall wr r,
         get_files dir (negb (dot config)) (recurse config) (force config)
           (log ("Renaming files in " ++ Path.show dir
                 ++ " based on file index...")%string w)
         = (wr, Ok r) ->
         snd run = Ok tt
         /\ console (fst run)
            = console wr
              ++ map arrow_line
                   (rename_plan dest_dir pre season_no tv (files r) off).
Proof.
  intros config dir dest_dir pre season_no off tv w Hdry run.
  set (w0 := log ("Renaming files in " ++ Path.show dir
                  ++ " based on file index...")%string w).
  pose proof (get_files_frame dir (negb (dot config)) (recurse config)
                (force config) w0) as Hframe.
  cbn zeta in Hframe.
  destruct (get_files_reads_only dir (negb (dot config)) (recurse config)
              (force config) (fs w0)) as (errs & res & Hwalk).
  specialize (Hwalk w0 eq_refl).
  assert (run = match res with
                | Ok r =>
                    rename_by_file_order_loop config dest_dir pre season_no tv
                      (files r) off (caught_all errs w0)
                | Throw e => (caught_all errs w0, Throw e)
                end) as Hrun.
  { unfold run, rename_by_file_order. fold w0. now rewrite Hwalk. }
  assert (fs (caught_all errs w0) = fs w) as Hfs0
      by (rewrite caught_all_fs; apply log_fs).
  assert (spawned (caught_all errs w0) = spawned w) as Hsp0
      by (rewrite caught_all_spawned; apply log_spawned).
  assert (logger (caught_all errs w0) = logger w) as Hlg0
      by (rewrite caught_all_logger; apply log_logger).
  assert (logger w = None -> logged (caught_all errs w0) = logged w) as Hld0.
  { intros Hoff. rewrite caught_all_logged_off by now (unfold w0; rewrite log_logger).
    now apply log_logged_off. }
  assert (fs (fst run) = fs w /\ spawned (fst run) = spawned w
          /\ logger (fst run) = logger w
          /\ (logger w = None -> logged (fst run) = logged w)) as (Hfs & Hsp & Hlg & Hld).
  { rewrite Hrun. destruct res as [r|e]; [|now repeat split].
    rewrite rename_by_file_order_loop_guarded.
    destruct (guarded_rename_dryrun config
                (rename_plan dest_dir pre season_no tv (files r) off)
                (caught_all errs w0) Hdry) as (_ & H1 & H2 & H3 & _ & H5).
    repeat split; try congruence.
    intros Hoff. rewrite H5 by congruence. auto. }
  split; [exact Hfs|].
  split; [intros p; unfold Fs.existsSync; now rewrite Hfs|].
  split; [intros p; now rewrite Hfs|].
  split; [exact Hsp|]. split; [exact Hlg|]. split; [exact Hld|].
  intros wr r Hok. rewrite Hwalk in Hok. injection Hok as <- ->.
  rewrite Hrun, rename_by_file_order_loop_guarded.
  destruct (guarded_rename_dryrun config
              (rename_plan dest_dir pre season_no tv (files r) off)
              (caught_all errs w0) Hdry) as (Hr & _ & _ & _ & Hco & _).
  split; assumption.
Qed.

Lemma rename_by_file_order_dryrun_witness :
  let config := with_dryrun true Fixture.defaults in
  let w := Fixture.world_of Fixture.library in
  fs (fst (rename_by_file_order config ["movies"] ["movies"] "" 1 1 true w))
  = Fixture.library.
Proof.
  exact (proj1 (rename_by_file_order_dryrun (with_dryrun true Fixture.defaults)
                  ["movies"] ["movies"] "" 1%Z 1%Z true
                  (Fixture.world_of Fixture.library) eq_refl)).
Defined.

(** ** Failure and continuation *)

Section GuardedLoops.

Variables (S A : Type).
Variable on_caught : error -> S -> S.
Variable body : A -> S -> S * result unit.

(** When the run stops at errors, the loop ends at the first item that
    fails, whatever comes after it. *)
Lemma guarded_halts pre : forall x post s s1 s2 e,
  guarded on_caught false body pre s = (s1, Ok tt) ->
  body x s1 = (s2, Throw e) ->
  guarded on_caught false body (pre ++ x :: post) s = (on_caught e s2, Throw e).
Proof.
  induction pre as [|y pre IH]; intros x post s s1 s2 e Hpre Hx.
  - cbn in Hpre. injection Hpre as <-. cbn. now rewrite Hx.
  - cbn [app guarded] in *.
    destruct (body y s) as [s' [[]|e']]; [|discriminate].
    eapply IH; eassumption.
Qed.

(** When the run goes on after errors, the loop goes through every item,
    one after the other, and returns. *)
Lemma guarded_continues l1 : forall l2 s,
  guarded on_caught true body (l1 ++ l2) s
  = guarded on_caught true body l2 (fst (guarded on_caught true body l1 s)).
Proof.
  induction l1 as [|y l1 IH]; intros l2 s; [reflexivity|].
  cbn [app guarded].
  destruct (body y s) as [s' [[]|e']]; apply IH.
Qed.

Lemma guarded_returns items : forall s,
  snd (guarded on_caught true body items s) = Ok tt.
Proof.
  induction items as [|y l IH]; intros s; [reflexivity|].
  cbn [guarded]. destruct (body y s) as [s' [[]|e']]; apply IH.
Qed.

Lemma guarded_logs_failure x post s s2 e :
  body x s = (s2, Throw e) ->
  guarded on_caught true body (x :: post) s
  = guarded on_caught true body post (on_caught e s2).
Proof. intros H. cbn [guarded]. now rewrite H. Qed.

End GuardedLoops.

Lemma touch_dir_loop_guarded config fls : forall w,
  touch_dir_loop config fls w
  = guarded caught (force config) (touch_body config) fls w.
Proof.
  induction fls as [|file rest IH]; intros w; [reflexivity|].
  cbn [touch_dir_loop guarded]. unfold touch_body at 1.
  destruct (negb (dryrun config)).
  - destruct (Fs.utimesSync _ file) as [root|e]; rewrite ?IH; reflexivity.
  - now rewrite IH.
Qed.

Lemma to_chd_loop_guarded config spawnSync dest_dir chdman_path fls : forall w,
  to_chd_loop config spawnSync dest_dir chdman_path fls w
  = guarded caught (force config)
      (to_chd_body config spawnSync dest_dir chdman_path) fls w.
Proof.
  induction fls as [|file rest IH]; intros w; [reflexivity|].
  cbn [to_chd_loop guarded]. unfold to_chd_body at 1.
  destruct (chdman_verb_map (Str.to_lower (Path.extname file))) as [verb|].
  - destruct (spawn config spawnSync chdman_path _ w) as [w1 [[]|e]].
    + destruct (spawn config spawnSync chdman_path _ w1) as [w2 [[]|e]];
        rewrite ?IH; reflexivity.
    + rewrite ?IH; reflexivity.
  - now rewrite IH.
Qed.

Lemma check_incoming_dirs_guarded config extract_path drs : forall rep w,
  check_incoming_dirs config extract_path drs rep w
  = guarded caught_in_report (force config)
      (check_dir_body config extract_path) drs (rep, w).
Proof.
  induction drs as [|dir rest IH]; intros rep w; [reflexivity|].
  cbn [check_incoming_dirs guarded]. unfold check_dir_body at 1. cbn [fst snd].
  destruct (file_count config dir w) as [w1 [n|e]].
  - destruct (check_one_extract_folder config _ n extract_path rep w1)
      as [[rep2 w2] [[]|e]]; unfold caught_in_report; cbn [fst snd];
      rewrite ?IH; reflexivity.
  - unfold caught_in_report; cbn [fst snd]. rewrite ?IH; reflexivity.
Qed.

Lemma check_incoming_files_guarded config extract_path fls : forall rep w,
  check_incoming_files config extract_path fls rep w
  = guarded caught_in_report (force config)
      (check_file_body config extract_path) fls (rep, w).
Proof.
  induction fls as [|file rest IH]; intros rep w; [reflexivity|].
  cbn [check_incoming_files guarded]. unfold check_file_body at 1. cbn [fst snd].
  destruct (check_one_extract_folder config _ 1 extract_path rep w)
    as [[rep2 w2] [[]|e]]; unfold caught_in_report; cbn [fst snd];
    rewrite ?IH; reflexivity.
Qed.

Lemma main_logs_failure_again config spawnSync argv_text config_text usage_text
    workflow w w1 w2 e :
  startup_tasks config argv_text config_text usage_text w = (w1, Some tt) ->
  perform_action config spawnSync = Some workflow ->
  workflow w1 = (w2, Throw e) ->
  main config spawnSync argv_text config_text usage_text w
  = (cleanup_tasks (caught e w2), Returned).
Proof.
  intros Hs Hp Hw. unfold main. now rewrite Hs, Hp, Hw.
Qed.

Lemma perform_action_order config spawnSync :
  extract_flag config = false -> chd config = false -> incoming config = false ->
  order config = true ->
  perform_action config spawnSync
  = Some (rename_by_file_order config (Path.of_string (source config))
            (if String.eqb (dest config) EmptyString
             then Path.of_string (source config)
             else Path.of_string (dest config))
            (prefix config) (season config) (offset config) true).
Proof.
  intros He Hc Hi Ho. unfold perform_action. now rewrite He, Hc, Hi, Ho.
Qed.

(** The workflows with a handler.  The loops of reorder-and-rename, touch,
    convert and reconcile wrap each item in the same handler.  In such a
    loop, when an item fails after the items before it went through: with the
    flag unset the failure is logged and the loop ends there with that
    failure, whatever items come after; with the flag set the failure is
    logged, the loop goes on with the items that remain and returns.  A
    failure that leaves the workflow [main] waits for is logged once more by
    [main], which then runs the clean-up and returns. *)
Theorem guarded_workflows_error_policy :
  forall config spawnSync,
    (forall dest_dir pre season_no tv fls index w,
        rename_by_file_order_loop config dest_dir pre season_no tv fls index w
        = guarded caught (force config) (rename_body config)
            (rename_plan dest_dir pre season_no tv fls index) w)
    /\ (forall fls w,
           touch_dir_loop config fls w
           = guarded caught (force config) (touch_body config) fls w)
    /\ (forall dest_dir chdman_path fls w,
           to_chd_loop config spawnSync dest_dir chdman_path fls w
           = guarded caught (force config)
               (to_chd_body config spawnSync dest_dir chdman_path) fls w)
    /\ (forall extract_path drs rep w,
           check_incoming_dirs config extract_path drs rep w
           = guarded caught_in_report (force config)
               (check_dir_body config extract_path) drs (rep, w))
    /\ (forall extract_path fls rep w,
           check_incoming_files config extract_path fls rep w
           = guarded caught_in_report (force config)
               (check_file_body config extract_path) fls (rep, w))
    /\ (forall (S A : Type) (on_caught : error -> S -> S)
               (body : A -> S -> S * result unit) pre x post s s1 s2 e,
           force config = false ->
           guarded on_caught (force config) body pre s = (s1, Ok tt) ->
           body x s1 = (s2, Throw e) ->
           guarded on_caught (force config) body (pre ++ x :: post) s
           = (on_caught e s2, Throw e))
    /\ (forall (S A : Type) (on_caught : error -> S -> S)
               (body : A -> S -> S * result unit) pre x post s s1 s2 e,
           force config = true ->
           guarded on_caught (force config) body pre s = (s1, Ok tt) ->
           body x s1 = (s2, Throw e) ->
           guarded on_caught (force config) body (pre ++ x :: post) s
           = guarded on_caught (force config) body post (on_caught e s2)
           /\ snd (guarded on_caught (force config) body (pre ++ x :: post) s)
              = Ok tt)
    /\ (forall argv_text config_text usage_text workflow w w1 w2 e,
           startup_tasks config argv_text config_text usage_text w = (w1, Some tt) ->
           perform_action config spawnSync = Some workflow ->
           workflow w1 = (w2, Throw e) ->
           main config spawnSync argv_text config_text usage_text w
           = (cleanup_tasks (caught e w2), Returned)
           /\ console (cleanup_tasks (caught e w2))
              = console w2 ++ [Err ("Caught error: " ++ json_of_error e)%string])
    /\ (extract_flag config = false -> chd config = false ->
        incoming config = false -> order config = true ->
        perform_action config spawnSync
        = Some (rename_by_file_order config (Path.of_string (source config))
                  (if String.eqb (dest config) EmptyString
                   then Path.of_string (source config)
                   else Path.of_string (dest config))
                  (prefix config) (season config) (offset config) true)).
Proof.
  intros config spawnSync.
  split; [intros; apply rename_by_file_order_loop_guarded|].
  split; [intros; apply touch_dir_loop_guarded|].
  split; [intros; apply to_chd_loop_guarded|].
  split; [intros; apply check_incoming_dirs_guarded|].
  split; [intros; apply check_incoming_files_guarded|].
  split.
  { intros S A on_caught body pre x post s s1 s2 e Hf Hpre Hx.
    rewrite Hf in *. eapply guarded_halts; eassumption. }
  split.
  { intros S A on_caught body pre x post s s1 s2 e Hf Hpre Hx.
    rewrite Hf in *. split; [|apply guarded_returns].
    rewrite guarded_continues, Hpre. cbn [fst].
    now apply guarded_logs_failure. }
  split.
  { intros argv_text config_text usage_text workflow w w1 w2 e Hs Hp Hw.
    split; [eapply main_logs_failure_again; eassumption|].
    unfold cleanup_tasks, file_logger_close. cbn [console].
    apply caught_console. }
  apply perform_action_order.
Qed.

Lemma guarded_workflows_error_policy_witness :
  let config := with_order true Fixture.defaults in
  let w := Fixture.world_of Fixture.five in
  let plan :=
    rename_plan ["movies"] "" 1 true
      [["movies"; "a"]; ["movies"; "b"]; ["movies"; "c"]; ["movies"; "d"];
       ["movies"; "e"]] 1 in
  exists w2,
    guarded caught (force config) (rename_body config) plan w
    = (caught EISDIR w2, Throw EISDIR)
    /\ Fs.existsSync (fs w2) ["movies"; "S01E02"] = true
    /\ Fs.existsSync (fs w2) ["movies"; "d"] = true
    /\ Fs.existsSync (fs w2) ["movies"; "S01E04"] = false.
Proof.
  intros config w plan.
  destruct (guarded_workflows_error_policy config Fixture.tool_ok)
    as (_ & _ & _ & _ & _ & Hhalt & _).
  eexists. split.
  - refine (Hhalt world (path * path)%type caught (rename_body config)
              (rename_plan ["movies"] "" 1 true
                 [["movies"; "a"]; ["movies"; "b"]] 1)
              (["movies"; "c"], ["movies"; "S01E03"])
              (rename_plan ["movies"] "" 1 true
                 [["movies"; "d"]; ["movies"; "e"]] 4)
              w _ _ EISDIR eq_refl _ _).
    + reflexivity.
    + reflexivity.
  - repeat split; reflexivity.
Defined.

(** C2.  Two loops have no handler, so the flag does not reach them.  The
    substitution workflow, run with the flag set over the files [FOO_a] and
    [FOO_b], fails at its first entry (the body assigns to the undeclared
    [fullpath]): the failure is not caught, nothing about it is logged, and
    [FOO_b] is never processed.  The archive loop of [extract], run with the
    flag set and a tool that fails, ends at the first archive: the second is
    never handed to the tool. *)
Lemma substitution_workflow_stops_despite_force :
  let config := with_force true Fixture.defaults in
  let w :=
    Fixture.world_of
      (Dir [("movies", Dir [("FOO_a", File "1"); ("FOO_b", File "2")])]) in
  let run := remove config ["movies"] "FOO_" "" "" w in
  let w2 :=
    Fixture.world_of
      (Dir [("in", Dir [("Show", Dir [("p1.rar", File "1"); ("p2.rar", File "2")])]);
            ("!extract", Dir [])]) in
  let run2 := extract config (fun _ => Exited 1 "") ["in"; "Show"] [] "rar" w2 in
  force config = true
  /\ snd run = Throw (ReferenceError "fullpath")
  /\ fs (fst run) = fs w
  /\ Fs.existsSync (fs (fst run)) ["movies"; "FOO_b"] = true
  /\ Fs.existsSync (fs (fst run)) ["movies"; "b"] = false
  /\ ~ In (Out (tab ++ "FOO_b...")%string) (console (fst run))
  /\ (forall text, ~ In (Err text) (console (fst run)))
  /\ snd run2 = Throw (ExitStatus 1)
  /\ List.length (spawned (fst run2)) = 1.
Proof.
  cbv zeta. repeat split; try reflexivity.
  - vm_compute. intuition discriminate.
  - intros text. vm_compute. intuition discriminate.
Qed.

(** The substitution workflow never consults the flag. *)
Lemma remove_ignores_force b config dir pre repl suf w :
  remove (with_force b config) dir pre repl suf w
  = remove config dir pre repl suf w.
Proof.
  unfold remove, remove_count. destruct (Fs.readdir (fs w) dir) as [names|e];
    [|reflexivity].
  now destruct names.
Qed.

(** ** The extension of an ordered name *)

Lemma ordered_name_ends_with_extension season_no index pre tv ext :
  Str.ends_with ext (get_ordered_filename season_no index pre tv ext).
Proof.
  unfold get_ordered_filename, get_season_episode_for_file_index,
    get_simple_filename_index.
  destruct tv.
  - exists ("S" ++ pad2 season_no ++ "E" ++ pad2 index)%string.
    now rewrite !append_assoc.
  - exists (pre ++ pad4 index)%string. now rewrite !append_assoc.
Qed.

Lemma rename_plan_destination dest_dir pre season_no tv fls : forall index src dst,
  In (src, dst) (rename_plan dest_dir pre season_no tv fls index) ->
  In src fls
  /\ exists name,
       dst = Path.join dest_dir name
       /\ Str.ends_with (Str.to_lower (Path.extname src)) name.
Proof.
  induction fls as [|file rest IH]; intros index src dst Hin; [destruct Hin|].
  cbn [rename_plan] in Hin. destruct Hin as [Heq|Hin].
  - injection Heq as <- <-. split; [now left|].
    eexists. split; [reflexivity|]. apply ordered_name_ends_with_extension.
  - destruct (IH _ _ _ Hin) as [Hsrc Hname]. split; [now right | exact Hname].
Qed.

(** C7, as the program has it.  The ordered name ends with the extension it
    is given, unchanged.  Reorder-and-rename gives it the extension of the
    source file in lower case: the renames of a run are those of its plan, and
    every destination of the plan is a name under the destination directory
    that ends with the lower-cased extension of its source file. *)
Theorem ordered_destination_extension :
  (forall season_no index pre tv ext,
      Str.ends_with ext (get_ordered_filename season_no index pre tv ext))
  /\ (forall config dest_dir pre season_no tv fls index w,
         rename_by_file_order_loop config dest_dir pre season_no tv fls index w
         = guarded caught (force config) (rename_body config)
             (rename_plan dest_dir pre season_no tv fls index) w)
  /\ (forall dest_dir pre season_no tv fls index src dst,
         In (src, dst) (rename_plan dest_dir pre season_no tv fls index) ->
         In src fls
         /\ exists name,
              dst = Path.join dest_dir name
              /\ Str.ends_with (Str.to_lower (Path.extname src)) name).
Proof.
  split; [apply ordered_name_ends_with_extension|].
  split; [intros; apply rename_by_file_order_loop_guarded|].
  intros. eapply rename_plan_destination. eassumption.
Qed.

Lemma ordered_destination_extension_witness :
  In ["movies"; "Movie.MKV"] [["movies"; "Movie.MKV"]]
  /\ exists name,
       ["movies"; "S01E01.mkv"] = Path.join ["movies"] name
       /\ Str.ends_with (Str.to_lower (Path.extname ["movies"; "Movie.MKV"])) name.
Proof.
  exact (proj2 (proj2 ordered_destination_extension) ["movies"] "" 1%Z true
           [["movies"; "Movie.MKV"]] 1%Z ["movies"; "Movie.MKV"]
           ["movies"; "S01E01.mkv"] (or_introl eq_refl)).
Defined.

Ltac refute_suffix H u :=
  repeat (destruct u as [|? u]; cbn in H; [discriminate H|];
          injection H as _ H);
  try (destruct u; discriminate H).

(** Read to the letter, the statement of the specification fails: the file
    [Movie.MKV] is renamed to [S01E01.mkv], which does not end with [.MKV]. *)
Lemma destination_extension_not_verbatim :
  let config := with_order true Fixture.defaults in
  let w :=
    Fixture.world_of (Dir [("movies", Dir [("Movie.MKV", File "1")])]) in
  let run := rename_by_file_order config ["movies"] ["movies"] "" 1 1 true w in
  Path.extname ["movies"; "Movie.MKV"] = ".MKV"
  /\ fs (fst run) = Dir [("movies", Dir [("S01E01.mkv", File "1")])]
  /\ In (Out "movies/Movie.MKV => movies/S01E01.mkv") (console (fst run))
  /\ ~ Str.ends_with ".MKV" "S01E01.mkv".
Proof.
  cbv zeta. split; [reflexivity|]. split; [reflexivity|].
  split; [vm_compute; auto|].
  intros [u H]. refute_suffix H u.
Qed.

(** ** The substitution workflow and unchanged names *)

(** C6.  A name the substitution leaves unchanged is an error, not a no-op.
    The loop of [remove] has the test and the line [Nothing to do] for it, but
    the body throws at its first statement, the assignment to the undeclared
    [fullpath]: over the one file [clip.mp4], which neither starts with the
    prefix nor contains the suffix, the run ends with that failure and never
    prints [Nothing to do].  A second run does the same; no run renames
    anything. *)
Lemma unchanged_name_is_an_error :
  let w := Fixture.world_of (Dir [("movies", Dir [("clip.mp4", File "1")])]) in
  let run := remove_count Fixture.defaults ["movies"] "FOO_" "" ".suffix" w in
  let again :=
    remove_count Fixture.defaults ["movies"] "FOO_" "" ".suffix"
      (snd (fst run)) in
  Str.starts_with "FOO_" "clip.mp4" = false
  /\ Str.includes ".suffix" "clip.mp4" = false
  /\ snd run = Throw (ReferenceError "fullpath")
  /\ ~ In (Out (tab ++ tab ++ "Nothing to do")%string) (console (snd (fst run)))
  /\ fst (fst run) = 0
  /\ snd again = Throw (ReferenceError "fullpath")
  /\ fst (fst again) = 0
  /\ fs (snd (fst again)) = fs w.
Proof.
  cbv zeta. repeat split; try reflexivity.
  vm_compute. intuition discriminate.
Qed.

(** ** Reconciliation of the incoming folder *)

Lemma file_count_frame config p w :
  exists errors,
    file_count config p w = (caught_all errors w, file_count_of config (fs w) p).
Proof.
  destruct (get_files_reads_only p (negb (dot config)) (recurse config)
              (force config) (fs w)) as (errs & res & H).
  exists errs. unfold file_count_of, file_count.
  rewrite (H w eq_refl), (H (mkWorld (fs w) [] None [] []) eq_refl).
  now destruct res.
Qed.

Lemma check_one_extract_folder_verdict config basename sc extract_path rep w :
  exists errors,
    check_one_extract_folder config basename sc extract_path rep w
    = (record rep basename
         (verdict_of config (fs w) extract_path basename (Ok sc)),
       caught_all errors w,
       outcome_of (verdict_of config (fs w) extract_path basename (Ok sc))).
Proof.
  unfold check_one_extract_folder, verdict_of.
  destruct (Fs.existsSync (fs w) (Path.join extract_path basename)); cbn [negb].
  - destruct (file_count_frame config (Path.join extract_path basename) w)
      as [errs ->].
    exists errs.
    destruct (file_count_of config (fs w) (Path.join extract_path basename))
      as [c|e]; [|reflexivity].
    destruct (sc + 1 =? c)%nat; cbn [negb]; [|reflexivity].
    now destruct rep.
  - now exists [].
Qed.

Lemma check_dir_body_verdict config extract_path dir rep w :
  exists errors,
    check_dir_body config extract_path dir (rep, w)
    = (record rep (Path.basename dir)
         (verdict_of config (fs w) extract_path (Path.basename dir)
            (file_count_of config (fs w) dir)),
       caught_all errors w,
       outcome_of (verdict_of config (fs w) extract_path (Path.basename dir)
                     (file_count_of config (fs w) dir))).
Proof.
  unfold check_dir_body. cbn [fst snd].
  destruct (file_count_frame config dir w) as [errs ->].
  destruct (file_count_of config (fs w) dir) as [sc|e].
  - destruct (check_one_extract_folder_verdict config (Path.basename dir) sc
                extract_path rep (caught_all errs w)) as [errs' ->].
    rewrite caught_all_fs, <- caught_all_app. now exists (errs ++ errs').
  - now exists errs.
Qed.

Lemma check_file_body_verdict config extract_path file rep w :
  exists errors,
    check_file_body config extract_path file (rep, w)
    = (record rep (Path.basename file)
         (verdict_of config (fs w) extract_path (Path.basename file) (Ok 1)),
       caught_all errors w,
       outcome_of (verdict_of config (fs w) extract_path (Path.basename file)
                     (Ok 1))).
Proof.
  unfold check_file_body. cbn [fst snd].
  apply check_one_extract_folder_verdict.
Qed.

Lemma names_with_cons select name v entries :
  names_with select ((name, v) :: entries)
  = (if select v then [name] else []) ++ names_with select entries.
Proof. unfold names_with. cbn. now destruct (select v). Qed.

Lemma names_with_app select l1 l2 :
  names_with select (l1 ++ l2) = names_with select l1 ++ names_with select l2.
Proof. unfold names_with. now rewrite filter_app, map_app. Qed.

(** A guarded loop whose body records the verdict on each item, when it
    returns: the lists have grown by the names with each verdict, in order,
    and the tree has not changed. *)
Section VerdictLoop.

Variables (A : Type) (name_of : A -> string) (verdict_on : A -> node -> verdict).
Variable body : A -> report * world -> report * world * result unit.
Variable force_flag : bool.

Hypothesis body_verdict : forall x rep w,
  exists errors,
    body x (rep, w)
    = (record rep (name_of x) (verdict_on x (fs w)), caught_all errors w,
       outcome_of (verdict_on x (fs w))).

Lemma guarded_verdicts items : forall rep w rep' w',
  guarded caught_in_report force_flag body items (rep, w) = (rep', w', Ok tt) ->
  (exists errors, w' = caught_all errors w)
  /\ missing_in_extract rep'
     = missing_in_extract rep
       ++ names_with is_missing
            (map (fun x => (name_of x, verdict_on x (fs w))) items)
  /\ content_missing_in_extract rep'
     = content_missing_in_extract rep
       ++ names_with is_mismatch
            (map (fun x => (name_of x, verdict_on x (fs w))) items).
Proof.
  induction items as [|x items IH]; intros rep w rep' w' Hrun.
  - cbn in Hrun. injection Hrun as <- <-. cbn. rewrite !app_nil_r.
    split; [now exists []|auto].
  - cbn [guarded] in Hrun.
    destruct (body_verdict x rep w) as [errs Hx]. rewrite Hx in Hrun.
    cbn [map]. rewrite !names_with_cons.
    destruct (verdict_on x (fs w)) as [| | |e] eqn:Hv; cbn [outcome_of record] in Hrun.
    + apply IH in Hrun as ([errs' ->] & Hm & Hc). rewrite caught_all_fs in *.
      cbn [missing_in_extract content_missing_in_extract] in *.
      cbn [is_missing is_mismatch].
      split; [exists (errs ++ errs'); now rewrite caught_all_app|].
      split; [now rewrite Hm, <- app_assoc | exact Hc].
    + apply IH in Hrun as ([errs' ->] & Hm & Hc). rewrite caught_all_fs in *.
      cbn [missing_in_extract content_missing_in_extract] in *.
      cbn [is_missing is_mismatch].
      split; [exists (errs ++ errs'); now rewrite caught_all_app|].
      split; [exact Hm | now rewrite Hc, <- app_assoc].
    + apply IH in Hrun as ([errs' ->] & Hm & Hc). rewrite caught_all_fs in *.
      cbn [is_missing is_mismatch].
      split; [exists (errs ++ errs'); now rewrite caught_all_app|].
      split; assumption.
    + unfold caught_in_report in Hrun. cbn [fst snd] in Hrun.
      destruct force_flag; [|discriminate].
      apply IH in Hrun as ([errs' ->] & Hm & Hc).
      rewrite caught_fs, caught_all_fs in *.
      cbn [is_missing is_mismatch].
      split; [|split; assumption].
      exists (errs ++ e :: errs'). now rewrite caught_all_app.
Qed.

End VerdictLoop.

Lemma log_all_console lines : forall w,
  console (log_all lines w) = console w ++ map Out lines.
Proof.
  unfold log_all.
  induction lines as [|l lines IH]; intros w; cbn.
  - now rewrite app_nil_r.
  - rewrite IH, log_console, <- app_assoc. reflexivity.
Qed.

Lemma emit_report_console rep w :
  console (emit_report rep w)
  = console w
    ++ map Out
         (section_lines "Folders missing from !extract:" (missing_in_extract rep)
          ++ section_lines "Folders in !extract with missing content:"
               (content_missing_in_extract rep)).
Proof.
  unfold emit_report.
  destruct (missing_in_extract rep) as [|m ms];
    destruct (content_missing_in_extract rep) as [|c cs]; cbn [section_lines].
  - now rewrite app_nil_r.
  - now rewrite log_all_console, log_console, <- app_assoc.
  - rewrite log_all_console, log_console, <- app_assoc, app_nil_r. reflexivity.
  - repeat (rewrite ?log_all_console, ?log_console).
    rewrite map_app, <- !app_assoc. reflexivity.
Qed.

(** The lists of a reconciliation that returns, and what it has printed. *)
Lemma check_incoming_report_lists config dir w rep w' :
  check_incoming_report config dir w = (rep, w', Ok tt) ->
  exists r errors,
    snd (get_files dir (negb (dot config)) (recurse config) (force config) w)
    = Ok r
    /\ missing_in_extract rep
       = names_with is_missing
           (entry_verdicts config (fs w) (Path.join dir "!extract") r)
    /\ content_missing_in_extract rep
       = names_with is_mismatch
           (entry_verdicts config (fs w) (Path.join dir "!extract") r)
    /\ w' = emit_report rep
              (caught_all errors
                 (log ("Checking incoming folder " ++ Path.show dir ++ "...")%string
                    w)).
Proof.
  unfold check_incoming_report.
  set (w0 := log ("Checking incoming folder " ++ Path.show dir ++ "...")%string w).
  assert (fs w0 = fs w) as Hfs0 by apply log_fs.
  pose proof (get_files_result_of_tree dir (negb (dot config)) (recurse config)
                (force config) w0 w Hfs0) as Hsame.
  destruct (get_files_reads_only dir (negb (dot config)) (recurse config)
              (force config) (fs w0)) as (errs0 & res & Hwalk).
  rewrite (Hwalk w0 eq_refl) in *. cbn [snd] in Hsame.
  destruct res as [r|e]; [|discriminate].
  rewrite check_incoming_dirs_guarded.
  destruct (guarded caught_in_report (force config)
              (check_dir_body config (Path.join dir "!extract")) (dirs r)
              (mkReport [] [], caught_all errs0 w0))
    as [[rep1 w2] [[]|e]] eqn:Hdirs; [|discriminate].
  rewrite check_incoming_files_guarded.
  destruct (guarded caught_in_report (force config)
              (check_file_body config (Path.join dir "!extract")) (files r)
              (rep1, w2)) as [[rep2 w3] [[]|e]] eqn:Hfiles; [|discriminate].
  intros [= <- <-].
  apply (guarded_verdicts path Path.basename
           (fun d root =>
              verdict_of config root (Path.join dir "!extract") (Path.basename d)
                (file_count_of config root d))) in Hdirs
    as ([errs1 ->] & Hm1 & Hc1);
    [|intros; apply check_dir_body_verdict].
  apply (guarded_verdicts path Path.basename
           (fun f root =>
              verdict_of config root (Path.join dir "!extract") (Path.basename f)
                (Ok 1))) in Hfiles
    as ([errs2 ->] & Hm2 & Hc2);
    [|intros; apply check_file_body_verdict].
  exists r, (errs0 ++ errs1 ++ errs2). split; [now rewrite <- Hsame|].
  unfold entry_verdicts. rewrite !names_with_app.
  rewrite Hm2, Hc2, Hm1, Hc1. cbn [missing_in_extract content_missing_in_extract app].
  rewrite !caught_all_fs, Hfs0, !caught_all_app. repeat split; reflexivity.
Qed.

Lemma verdict_missing_iff config root extract_path basename src :
  verdict_of config root extract_path basename src = Missing
  <-> (exists sc, src = Ok sc)
      /\ Fs.existsSync root (Path.join extract_path basename) = false.
Proof.
  unfold verdict_of. destruct src as [sc|e].
  - destruct (Fs.existsSync root (Path.join extract_path basename)).
    + destruct (file_count_of config root (Path.join extract_path basename))
        as [c|e]; [destruct (sc + 1 =? c)%nat|];
        (split; [discriminate | intros [_ H]; discriminate H]).
    + split; [intros _; split; [now exists sc | reflexivity] | reflexivity].
  - split; [discriminate | intros [[sc H] _]; discriminate H].
Qed.

Lemma verdict_mismatch_iff config root extract_path basename src :
  verdict_of config root extract_path basename src = Mismatch
  <-> exists sc c,
        src = Ok sc
        /\ Fs.existsSync root (Path.join extract_path basename) = true
        /\ file_count_of config root (Path.join extract_path basename) = Ok c
        /\ c <> sc + 1.
Proof.
  unfold verdict_of. destruct src as [sc|e].
  - destruct (Fs.existsSync root (Path.join extract_path basename)).
    + destruct (file_count_of config root (Path.join extract_path basename))
        as [c|e].
      * destruct (Nat.eqb_spec (sc + 1) c) as [Heq|Hne].
        -- split; [discriminate|].
           intros (sc' & c' & [= <-] & _ & [= <-] & Hne). congruence.
        -- split; [|reflexivity]. intros _. exists sc, c.
           repeat split; congruence.
      * split; [discriminate|]. intros (sc' & c' & _ & _ & H & _). discriminate H.
    + split; [discriminate|]. intros (sc' & c' & _ & H & _). discriminate H.
  - split; [discriminate|]. intros (sc' & c' & H & _). discriminate H.
Qed.

Lemma verdict_matches config root extract_path basename sc :
  Fs.existsSync root (Path.join extract_path basename) = true ->
  file_count_of config root (Path.join extract_path basename) = Ok (sc + 1) ->
  verdict_of config root extract_path basename (Ok sc) = Matches.
Proof.
  intros He Hc. unfold verdict_of. now rewrite He, Hc, Nat.eqb_refl.
Qed.

(** C3.  The verdict on an entry whose source count is known is "missing"
    exactly when nothing exists under its base name in the extract folder,
    and "content mismatch" exactly when something exists there whose file
    count is not the source count plus one; a count of [n + 1] files against
    [n] is neither.  A reconciliation that returns has put in its two lists
    the base names of the entries with these two verdicts, directories first
    (counted by the walker) and then plain files (counted as one), and what
    it prints after the walk ends with each list under its heading, a list
    that is empty being left out with its heading. *)
Theorem reconcile_incoming_report :
  (forall config root extract_path basename src,
      verdict_of config root extract_path basename src = Missing
      <-> (exists sc, src = Ok sc)
          /\ Fs.existsSync root (Path.join extract_path basename) = false)
  /\ (forall config root extract_path basename src,
         verdict_of config root extract_path basename src = Mismatch
         <-> exists sc c,
               src = Ok sc
               /\ Fs.existsSync root (Path.join extract_path basename) = true
               /\ file_count_of config root (Path.join extract_path basename)
                  = Ok c
               /\ c <> sc + 1)
  /\ (forall config root extract_path basename sc,
         Fs.existsSync root (Path.join extract_path basename) = true ->
         file_count_of config root (Path.join extract_path basename)
         = Ok (sc + 1) ->
         verdict_of config root extract_path basename (Ok sc) = Matches)
  /\ (forall config dir w rep w',
         check_incoming_report config dir w = (rep, w', Ok tt) ->
         exists r errors,
           snd (get_files dir (negb (dot config)) (recurse config)
                  (force config) w) = Ok r
           /\ missing_in_extract rep
              = names_with is_missing
                  (entry_verdicts config (fs w) (Path.join dir "!extract") r)
           /\ content_missing_in_extract rep
              = names_with is_mismatch
                  (entry_verdicts config (fs w) (Path.join dir "!extract") r)
           /\ console w'
              = console w
                ++ [Out ("Checking incoming folder " ++ Path.show dir ++ "...")%string]
                ++ map (fun e => Err ("Caught error: " ++ json_of_error e)%string)
                     errors
                ++ map Out
                     (section_lines "Folders missing from !extract:"
                        (missing_in_extract rep)
                      ++ section_lines "Folders in !extract with missing content:"
                           (content_missing_in_extract rep))).
Proof.
  split; [apply verdict_missing_iff|].
  split; [apply verdict_mismatch_iff|].
  split; [apply verdict_matches|].
  intros config dir w rep w' Hrun.
  destruct (check_incoming_report_lists config dir w rep w' Hrun)
    as (r & errs & Hr & Hm & Hc & ->).
  exists r, errs. repeat split; try assumption.
  rewrite emit_report_console, caught_all_console, log_console.
  now rewrite <- !app_assoc.
Qed.

Lemma reconcile_incoming_report_witness :
  let run :=
    check_incoming_report Fixture.defaults ["movies"]
      (Fixture.world_of Fixture.incoming_root) in
  missing_in_extract (fst (fst run)) = ["!extract"; "solo.mkv"]
  /\ content_missing_in_extract (fst (fst run)) = []
  /\ console (snd (fst run))
     = [Out "Checking incoming folder movies...";
        Out "Folders missing from !extract:"; Out "!extract"; Out "solo.mkv"].
Proof.
  intros run.
  destruct (proj2 (proj2 (proj2 reconcile_incoming_report)) Fixture.defaults
              ["movies"] (Fixture.world_of Fixture.incoming_root)
              (fst (fst run)) (snd (fst run)) eq_refl)
    as (r & errs & Hr & Hm & Hc & Hco).
  injection Hr as <-.
  split; [exact Hm|]. split; [exact Hc|]. reflexivity.
Defined.

(** ** The extract folder as an entry of the incoming folder *)

(** A walk that returns has listed every first-level directory that is not
    passed over. *)
Lemma get_files_loop_keeps_dirs skip_dot recurse_flag force_flag descend dir es :
  forall fls drs w w' r,
    get_files_loop skip_dot recurse_flag force_flag descend dir es fls drs w
    = (w', Ok r) ->
    (forall p, In p drs -> In p (dirs r))
    /\ (forall name child,
           In (name, child) es -> skipped skip_dot name = false ->
           Fs.is_directory child = true -> In (Path.join dir name) (dirs r)).
Proof.
  induction es as [|[name child] es IH]; intros fls drs w w' r Hrun.
  - cbn in Hrun. injection Hrun as _ <-. cbn. split; [auto | intros ? ? []].
  - cbn [get_files_loop] in Hrun. fold (skipped skip_dot name) in Hrun.
    assert (forall fls1 drs1 w1,
               get_files_loop skip_dot recurse_flag force_flag descend dir es
                 fls1 drs1 w1 = (w', Ok r) ->
               (forall p, In p drs -> In p drs1) ->
               (skipped skip_dot name = false -> Fs.is_directory child = true ->
                In (Path.join dir name) drs1) ->
               (forall p, In p drs -> In p (dirs r))
               /\ (forall name0 child0,
                      In (name0, child0) ((name, child) :: es) ->
                      skipped skip_dot name0 = false ->
                      Fs.is_directory child0 = true ->
                      In (Path.join dir name0) (dirs r))) as Hstep.
    { intros fls1 drs1 w1 Hloop Hkeep Hhead.
      destruct (IH _ _ _ _ _ Hloop) as [Hacc Hes].
      split; [auto|].
      intros name0 child0 [[= <- <-]|Hin] Hs Hd; [auto | eauto]. }
    destruct (skipped skip_dot name) eqn:Hskip.
    + eapply Hstep; [exact Hrun | auto | discriminate].
    + destruct child as [data|sub| |]; cbn [Fs.stat_node] in Hrun.
      * eapply Hstep; [exact Hrun | auto | discriminate].
      * destruct recurse_flag.
        -- destruct (descend (Path.join dir name) (Dir sub) w) as [w1 [r1|e]].
           ++ eapply Hstep; [exact Hrun | |]; intros;
                apply in_or_app; left; apply in_or_app; auto.
              right. now left.
           ++ destruct force_flag; [|discriminate].
              eapply Hstep; [exact Hrun | |]; intros; apply in_or_app; auto.
              right. now left.
        -- eapply Hstep; [exact Hrun | |]; intros; apply in_or_app; auto.
           right. now left.
      * destruct recurse_flag.
        -- destruct (descend (Path.join dir name) Locked w) as [w1 [r1|e]].
           ++ eapply Hstep; [exact Hrun | |]; intros;
                apply in_or_app; left; apply in_or_app; auto.
              right. now left.
           ++ destruct force_flag; [|discriminate].
              eapply Hstep; [exact Hrun | |]; intros; apply in_or_app; auto.
              right. now left.
        -- eapply Hstep; [exact Hrun | |]; intros; apply in_or_app; auto.
           right. now left.
      * destruct force_flag; [|discriminate].
        eapply Hstep; [exact Hrun | auto | discriminate].
Qed.

Lemma basename_join_extract dir :
  Path.basename (Path.join dir "!extract") = "!extract".
Proof.
  unfold Path.basename, Path.join. cbn. apply last_last.
Qed.

Lemma names_with_In select name v entries :
  In (name, v) entries -> select v = true -> In name (names_with select entries).
Proof.
  intros Hin Hsel. unfold names_with.
  apply (in_map fst _ (name, v)). apply filter_In. now split.
Qed.

(** C10.  When the listing of the incoming folder holds a directory named
    [!extract], nothing exists at [!extract/!extract] under the incoming
    folder, the files of that directory can be counted and the reconciliation
    returns, then [!extract] is in the list of missing names and is printed
    under the heading of that list. *)
Theorem extract_folder_reported_missing :
  forall config dir w es child rep w',
    Fs.lookup (fs w) dir = Some (Dir es) ->
    In ("!extract", child) es ->
    Fs.is_directory child = true ->
    Fs.existsSync (fs w) (Path.join (Path.join dir "!extract") "!extract") = false ->
    (exists n, file_count_of config (fs w) (Path.join dir "!extract") = Ok n) ->
    check_incoming_report config dir w = (rep, w', Ok tt) ->
    In "!extract" (missing_in_extract rep)
    /\ In (Out "Folders missing from !extract:") (console w')
    /\ In (Out "!extract") (console w').
Proof.
  intros config dir w es child rep w' Hdir Hin Hd Hne [n Hn] Hrun.
  destruct (check_incoming_report_lists config dir w rep w' Hrun)
    as (r & errs & Hr & Hm & _ & ->).
  assert (In (Path.join dir "!extract") (dirs r)) as Hlisted.
  { unfold get_files in Hr. rewrite Hdir in Hr. cbn [get_files_node] in Hr.
    match type of Hr with
    | snd ?run = _ => destruct run as [w1 res] eqn:Hloop
    end.
    cbn [snd] in Hr. subst res.
    eapply (proj2 (get_files_loop_keeps_dirs _ _ _ _ _ _ _ _ _ _ _ Hloop));
      [exact Hin | reflexivity | exact Hd]. }
  assert (In "!extract" (missing_in_extract rep)) as Hmiss.
  { rewrite Hm. unfold entry_verdicts. rewrite names_with_app.
    apply in_or_app. left.
    eapply names_with_In.
    - apply in_map_iff. exists (Path.join dir "!extract").
      split; [|exact Hlisted]. rewrite basename_join_extract. reflexivity.
    - rewrite Hn.
      assert (verdict_of config (fs w) (Path.join dir "!extract") "!extract" (Ok n)
              = Missing) as ->; [|reflexivity].
      apply verdict_missing_iff. split; [now exists n | exact Hne]. }
  split; [exact Hmiss|].
  rewrite emit_report_console.
  destruct (missing_in_extract rep) as [|m ms]; [destruct Hmiss|].
  cbn [section_lines].
  split; apply in_or_app; right; rewrite map_app; apply in_or_app; left.
  - now left.
  - right. now apply in_map.
Qed.

Lemma extract_folder_reported_missing_witness :
  let run :=
    check_incoming_report Fixture.defaults ["movies"]
      (Fixture.world_of Fixture.incoming_root) in
  In "!extract" (missing_in_extract (fst (fst run)))
  /\ In (Out "Folders missing from !extract:") (console (snd (fst run)))
  /\ In (Out "!extract") (console (snd (fst run))).
Proof.
  intros run.
  refine (extract_folder_reported_missing Fixture.defaults ["movies"]
            (Fixture.world_of Fixture.incoming_root)
            (match Fs.lookup Fixture.incoming_root ["movies"] with
             | Some (Dir es) => es
             | _ => []
             end)
            (Dir [("Alpha",
                   Dir [("a", File "1"); ("b", File "2"); ("c", File "3");
                        ("!extract.log", File "")])])
            (fst (fst run)) (snd (fst run)) eq_refl _ eq_refl eq_refl _ eq_refl).
  - cbn. auto.
  - now exists 0.
Defined.

(** ** The extract workflow under dry-run *)

Lemma spawn_fs config spawnSync cmd args w :
  fs (fst (spawn config spawnSync cmd args w)) = fs w.
Proof.
  unfold spawn. destruct (dryrun config); cbn [fst]; [apply log_fs|].
  destruct (spawnSync _) as [stderr message|status output].
  - cbn [fst]. unfold log_error, file_logger_write. cbn.
    destruct (logger w); cbn; unfold log, file_logger_write; cbn;
      now destruct (logger w).
  - destruct (negb (status =? 0)%Z); cbn [fst].
    + unfold log_error, file_logger_write. cbn.
      destruct (logger w); cbn; unfold log, file_logger_write; cbn;
        now destruct (logger w).
    + rewrite log_fs. cbn. apply log_fs.
Qed.

Lemma spawn_dryrun config spawnSync cmd args w :
  dryrun config = true ->
  spawn config spawnSync cmd args w
  = (log (cmd ++ " " ++ String.concat " " args)%string w, Ok tt).
Proof. intros H. unfold spawn. now rewrite H. Qed.

Lemma extract_rars_fs config spawnSync rar dest_path rar_files : forall w,
  fs (fst (extract_rars config spawnSync rar dest_path rar_files w)) = fs w.
Proof.
  induction rar_files as [|f rest IH]; intros w; [reflexivity|].
  cbn [extract_rars].
  pose proof (spawn_fs config spawnSync (quoted rar)
                ["x"; "-y"; "-idp"; quoted (Path.show f);
                 quoted (Path.show dest_path)] w) as Hs.
  destruct (spawn config spawnSync (quoted rar) _ w) as [w1 [[]|e]];
    cbn [fst] in *; [now rewrite IH | exact Hs].
Qed.

Lemma extract_rars_dryrun config spawnSync rar dest_path rar_files : forall w,
  dryrun config = true ->
  spawned (fst (extract_rars config spawnSync rar dest_path rar_files w))
  = spawned w
  /\ snd (extract_rars config spawnSync rar dest_path rar_files w) = Ok tt.
Proof.
  induction rar_files as [|f rest IH]; intros w Hdry; [now split|].
  cbn [extract_rars]. rewrite spawn_dryrun by exact Hdry.
  destruct (IH (log (quoted rar ++ " "
                     ++ String.concat " "
                          ["x"; "-y"; "-idp"; quoted (Path.show f);
                           quoted (Path.show dest_path)])%string w) Hdry)
    as [Hs Hr].
  rewrite log_spawned in Hs. now split.
Qed.

Lemma copy_file_dryrun config src dst w :
  dryrun config = true ->
  copy_file config src dst w = (log (arrow src dst) w, Ok tt).
Proof. intros H. unfold copy_file. now rewrite H. Qed.

Lemma mkdir_spawned p w : spawned (fst (mkdir p w)) = spawned w.
Proof.
  unfold mkdir. destruct (Fs.mkdirSync (fs w) p) as [root|e]; [reflexivity|].
  now destruct e.
Qed.

Lemma enable_file_logger_spawned p w :
  spawned (fst (enable_file_logger p w)) = spawned w.
Proof.
  unfold enable_file_logger. now destruct (Fs.openSync_w (fs w) p).
Qed.

Lemma ensure_dir_spawned dst w : spawned (fst (ensure_dir dst w)) = spawned w.
Proof.
  unfold ensure_dir.
  destruct (Fs.lookup (fs w) dst) as [[| | |]|]; try reflexivity.
  now destruct (Fs.mkdirSync (fs w) dst).
Qed.

Lemma cp_item_spawned n : forall src dst rars w,
  spawned (snd (fst (cp_item src n dst rars w))) = spawned w.
Proof.
  induction n as [data|es IH| |] using node_induction; intros src dst rars w;
    cbn [cp_item].
  - destruct (should_copy_one src).
    + destruct (Fs.put_file _ dst data); cbn [fst snd]; cbn; apply log_spawned.
    + cbn [fst snd]. apply log_spawned.
  - pose proof (ensure_dir_spawned dst w) as He.
    destruct (ensure_dir dst w) as [w1 [[]|e]]; cbn [fst snd] in *; [|exact He].
    rewrite <- He. generalize w1. clear He w1 w. revert src dst rars.
    induction IH as [|[name child] es Hc _ IHes]; intros src dst rars w;
      [reflexivity|].
    cbn [copy_entries]. cbn [snd] in Hc.
    pose proof (Hc (Path.join src name) (Path.join dst name) rars w) as Hi.
    destruct (cp_item (Path.join src name) child (Path.join dst name) rars w)
      as [[rars1 w1] [[]|e]]; cbn [fst snd] in *; [|exact Hi].
    now rewrite IHes.
  - pose proof (ensure_dir_spawned dst w) as He.
    destruct (ensure_dir dst w) as [w1 [[]|e]]; cbn [fst snd] in *; exact He.
  - reflexivity.
Qed.

Lemma cpSync_spawned src dst w :
  spawned (snd (fst (cpSync src dst w))) = spawned w.
Proof.
  unfold cpSync. destruct (Fs.lookup (fs w) src) as [n|]; [|reflexivity].
  destruct (Path.below dst src); [reflexivity | apply cp_item_spawned].
Qed.

Lemma extract_dryrun_spawned config spawnSync content_path save_path rar w :
  dryrun config = true ->
  spawned (fst (extract config spawnSync content_path save_path rar w))
  = spawned w.
Proof.
  intros Hdry. unfold extract.
  set (dest_path := Path.join (Path.join save_path "!extract")
                      (Path.basename content_path)).
  pose proof (mkdir_spawned dest_path w) as H1.
  destruct (mkdir dest_path w) as [w1 [[]|e]]; cbn [fst] in *; [|exact H1].
  pose proof (enable_file_logger_spawned (Path.join dest_path "!extract.log") w1)
    as H2.
  destruct (enable_file_logger (Path.join dest_path "!extract.log") w1)
    as [w2 [[]|e]]; cbn [fst] in *; [|congruence].
  match goal with
  | |- context [Fs.statSync (fs ?wl) content_path] =>
      remember wl as w4 eqn:Hw4
  end.
  assert (spawned w4 = spawned w) as H4
      by (rewrite Hw4, !log_spawned; congruence).
  clear Hw4.
  destruct (Fs.statSync (fs w4) content_path) as [[|]|e]; cbn [fst];
    [| |exact H4].
  - destruct (should_copy_one content_path).
    + rewrite copy_file_dryrun by exact Hdry. cbn [fst]. now rewrite log_spawned.
    + cbn [fst]. now rewrite log_spawned.
  - pose proof (cpSync_spawned content_path dest_path w4) as H5.
    destruct (cpSync content_path dest_path w4) as [[rars w5] [[]|e]];
      cbn [fst snd] in *; [|congruence].
    rewrite (proj1 (extract_rars_dryrun config spawnSync rar dest_path rars w5 Hdry)).
    congruence.
Qed.

(** C9, as the program has it.  With the dry-run flag set, [extract] runs no
    external command.  Once the destination directory is there and the log
    file is open (both are done whatever the flag): for content that is a
    directory, what the program itself does to the tree is the same with the
    flag set and unset, the recursive copy being done in both cases; for
    content that is a single file the tree is left as the set-up made it, the
    file is not copied. *)
Theorem extract_dryrun_partly_honoured :
  forall config spawnSync content_path save_path rar w,
    let dry := with_dryrun true config in
    let wet := with_dryrun false config in
    let dest_path :=
      Path.join (Path.join save_path "!extract") (Path.basename content_path) in
    let logfile := Path.join dest_path "!extract.log" in
    spawned (fst (extract dry spawnSync content_path save_path rar w)) = spawned w
    /\ forall w1 w2,
         mkdir dest_path w = (w1, Ok tt) ->
         enable_file_logger logfile w1 = (w2, Ok tt) ->
         (Fs.statSync (fs w2) content_path = Ok IsDirectory ->
             fs (fst (extract dry spawnSync content_path save_path rar w))
             = fs (fst (extract wet spawnSync content_path save_path rar w)))
         /\ (Fs.statSync (fs w2) content_path = Ok IsFile ->
             fs (fst (extract dry spawnSync content_path save_path rar w))
             = fs w2).
Proof.
  intros config spawnSync content_path save_path rar w dry wet dest_path logfile.
  split; [now apply extract_dryrun_spawned|].
  intros w1 w2 Hmk Hlog.
  unfold extract. fold dest_path. fold logfile. rewrite Hmk, Hlog.
  match goal with
  | |- context [Fs.statSync (fs (log ?l ?wl)) content_path] =>
      remember (log l wl) as w4 eqn:Hw4
  end.
  assert (fs w4 = fs w2) as H4 by now rewrite Hw4, !log_fs.
  clear Hw4. rewrite H4.
  destruct (Fs.statSync (fs w2) content_path) as [[|]|e].
  - split; [discriminate|intros _].
    destruct (should_copy_one content_path).
    + unfold dry. rewrite copy_file_dryrun by reflexivity. cbn [fst].
      now rewrite log_fs.
    + cbn [fst]. now rewrite log_fs.
  - split; [intros _|discriminate].
    destruct (cpSync content_path dest_path w4) as [[rars w5] [[]|e]];
      [|reflexivity].
    now rewrite !extract_rars_fs.
  - split; discriminate.
Qed.

Lemma extract_dryrun_partly_honoured_witness :
  let w := Fixture.world_of Fixture.downloads in
  fs (fst (extract (with_dryrun true Fixture.defaults) Fixture.tool_ok
             ["in"; "Show"] [] "rar" w))
  = fs (fst (extract (with_dryrun false Fixture.defaults) Fixture.tool_ok
               ["in"; "Show"] [] "rar" w)).
Proof.
  intros w.
  exact (proj1
           (proj2 (extract_dryrun_partly_honoured Fixture.defaults Fixture.tool_ok
                     ["in"; "Show"] [] "rar" w)
              (fst (mkdir ["!extract"; "Show"] w))
              (fst (enable_file_logger ["!extract"; "Show"; "!extract.log"]
                      (fst (mkdir ["!extract"; "Show"] w))))
              eq_refl eq_refl)
           eq_refl).
Defined.

(** Read to the letter, the statement of the specification fails twice: with
    the dry-run flag set a single content file is not copied, and the archive
    found in a content directory is not extracted. *)
Lemma extract_dryrun_skips_copy_and_archives :
  let dry := with_dryrun true Fixture.defaults in
  let wet := with_dryrun false Fixture.defaults in
  let w := Fixture.world_of Fixture.downloads in
  Fs.existsSync
    (fs (fst (extract wet Fixture.tool_ok ["in"; "a.mkv"] [] "rar" w)))
    ["!extract"; "a.mkv"; "a.mkv"] = true
  /\ Fs.existsSync
       (fs (fst (extract dry Fixture.tool_ok ["in"; "a.mkv"] [] "rar" w)))
       ["!extract"; "a.mkv"; "a.mkv"] = false
  /\ List.length
       (spawned (fst (extract wet Fixture.tool_ok ["in"; "Show"] [] "rar" w))) = 1
  /\ spawned (fst (extract dry Fixture.tool_ok ["in"; "Show"] [] "rar" w)) = [].
Proof. cbv zeta. repeat split; reflexivity. Qed.

(** * Further properties *)

(** ** Padding and ordered names *)

Lemma number_to_string_negative n :
  (n < 0)%Z -> exists digits, Str.number_to_string n = String "-" digits.
Proof. destruct n; try lia. intros _. now eexists. Qed.

(** The padding function of width three, which the program defines next to
    the two it uses: a number that is not negative is zero-padded to three
    digits, a wider one is written in full.  A negative number is not padded
    to the width by any of the three functions: the zeros of the one-digit
    case are put before its minus sign. *)
Theorem pad3_zero_padded :
  (forall n, (0 <= n)%Z -> pad3 n = Str.zero_pad 3 n)
  /\ (forall n, (n < 0)%Z ->
        exists digits,
          Str.number_to_string n = String "-" digits
          /\ pad2 n = ("0-" ++ digits)%string
          /\ pad3 n = ("00-" ++ digits)%string
          /\ pad4 n = ("000-" ++ digits)%string).
Proof.
  split.
  - intros n Hn. unfold pad3.
    destruct (Z.ltb_spec n 10); [|destruct (Z.ltb_spec n 100)].
    + now rewrite (zero_pad_narrow 3 1 n (number_length_1 n ltac:(lia)) ltac:(lia)).
    + now rewrite (zero_pad_narrow 3 2 n (number_length_2 n ltac:(lia)) ltac:(lia)).
    + rewrite zero_pad_wide; [reflexivity|].
      pose proof (number_length_lower 2 n ltac:(simpl; lia)). lia.
  - intros n Hn. destruct (number_to_string_negative n Hn) as [digits Hd].
    exists digits. unfold pad2, pad3, pad4.
    destruct (Z.ltb_spec n 10); [|lia].
    rewrite Hd. repeat split; reflexivity.
Qed.

Lemma pad3_zero_padded_witness :
  pad3 7 = "007" /\ pad3 42 = "042" /\ pad3 1234 = "1234"
  /\ exists digits,
       Str.number_to_string (-5) = String "-" digits
       /\ pad2 (-5) = ("0-" ++ digits)%string
       /\ pad3 (-5) = ("00-" ++ digits)%string
       /\ pad4 (-5) = ("000-" ++ digits)%string.
Proof.
  destruct pad3_zero_padded as [Hpos Hneg].
  split; [exact (Hpos 7%Z ltac:(lia))|].
  split; [exact (Hpos 42%Z ltac:(lia))|].
  split; [exact (Hpos 1234%Z ltac:(lia))|].
  exact (Hneg (-5)%Z ltac:(lia)).
Defined.

Lemma append_inv_head (a b c : string) : (a ++ b = a ++ c)%string -> b = c.
Proof. induction a as [|x a IH]; cbn; [auto | intros [= H]; auto]. Qed.

(** Where the digits end is where they end: two texts made of digits and
    followed by texts that do not start with a digit are equal piece by
    piece when they are equal as a whole. *)
Lemma digits_split a : forall b x y,
  Decimal.all_digits a = true -> Decimal.all_digits b = true ->
  leading_digit x = false -> leading_digit y = false ->
  (a ++ x = b ++ y)%string -> a = b /\ x = y.
Proof.
  induction a as [|c a IH]; intros b x y Ha Hb Hx Hy H.
  - destruct b as [|c' b]; [now split|]. cbn in H. subst x.
    cbn in Hb, Hx. apply andb_true_iff in Hb as [Hc _]. congruence.
  - destruct b as [|c' b].
    + cbn in H. subst y. cbn in Ha, Hy.
      apply andb_true_iff in Ha as [Hc _]. congruence.
    + cbn in H. injection H as <- H. cbn in Ha, Hb.
      apply andb_true_iff in Ha as [_ Ha]. apply andb_true_iff in Hb as [_ Hb].
      destruct (IH b x y Ha Hb Hx Hy H) as [-> ->]. now split.
Qed.

Lemma zero_pad_injective w i j :
  (0 <= i)%Z -> (0 <= j)%Z -> Str.zero_pad w i = Str.zero_pad w j -> i = j.
Proof.
  intros Hi Hj H.
  destruct (zero_pad_meaning w i Hi) as (_ & Vi & _).
  destruct (zero_pad_meaning w j Hj) as (_ & Vj & _).
  rewrite H in Vi. congruence.
Qed.

Lemma extension_no_leading_digit file :
  leading_digit (Str.to_lower (Path.extname file)) = false.
Proof.
  unfold Path.extname, Path.extname_of_name.
  destruct (Path.basename file) as [|c t]; [reflexivity|].
  destruct (Path.after_last_dot t None) as [e|]; [|reflexivity].
  destruct (String.eqb (String c t) ".."); reflexivity.
Qed.

Lemma ordered_name_injective s i j p tv e1 e2 :
  (0 <= s)%Z -> (0 <= i)%Z -> (0 <= j)%Z ->
  leading_digit e1 = false -> leading_digit e2 = false ->
  get_ordered_filename s i p tv e1 = get_ordered_filename s j p tv e2 ->
  i = j /\ e1 = e2.
Proof.
  intros Hs Hi Hj He1 He2 H.
  unfold get_ordered_filename, get_season_episode_for_file_index,
    get_simple_filename_index in H.
  destruct tv.
  - rewrite !pad2_zero_pad in H by assumption.
    pose proof (zero_pad_meaning 2 s Hs) as (Ds & _).
    pose proof (zero_pad_meaning 2 i Hi) as (Di & _).
    pose proof (zero_pad_meaning 2 j Hj) as (Dj & _).
    remember (Str.zero_pad 2 s) as ps. remember (Str.zero_pad 2 i) as pi.
    remember (Str.zero_pad 2 j) as pj.
    cbn in H. injection H as H.
    apply append_inv_head in H. cbn in H. injection H as H.
    apply digits_split in H as [H ->]; try assumption.
    split; [|reflexivity]. subst pi pj. now apply (zero_pad_injective 2).
  - rewrite !pad4_zero_pad in H by assumption.
    pose proof (zero_pad_meaning 4 i Hi) as (Di & _).
    pose proof (zero_pad_meaning 4 j Hj) as (Dj & _).
    apply append_inv_head in H.
    apply digits_split in H as [H ->]; try assumption.
    split; [|reflexivity]. now apply (zero_pad_injective 4).
Qed.

Lemma in_ordered_names pre s tv fls : forall idx name,
  In name (ordered_names pre s tv fls idx) ->
  exists j file,
    (idx <= j < idx + Z.of_nat (List.length fls))%Z
    /\ name = get_ordered_filename s j pre tv (Str.to_lower (Path.extname file)).
Proof.
  induction fls as [|file rest IH]; intros idx name Hin; [destruct Hin|].
  cbn [ordered_names] in Hin. cbn [List.length]. destruct Hin as [<-|Hin].
  - exists idx, file. split; [lia | reflexivity].
  - destruct (IH _ _ Hin) as (j & f & Hj & ->). exists j, f. split; [lia | reflexivity].
Qed.

Lemma rename_plan_names dest_dir pre s tv fls : forall idx,
  rename_plan dest_dir pre s tv fls idx
  = combine fls (map (Path.join dest_dir) (ordered_names pre s tv fls idx)).
Proof.
  induction fls as [|file rest IH]; intros idx; [reflexivity|].
  cbn [rename_plan ordered_names map combine]. now rewrite IH.
Qed.

(** The names of one run never collide.  The reorder-and-rename loop pairs
    the enumerated files, in order, with the names [ordered_names] lists.
    For a season and indices from zero up to 2^53, two ordered names are
    equal only for the same index and the same extension, whenever the
    extensions do not start with a digit, and the lower-cased extension of a
    file never does.  So the names given to the files of a run whose counter
    starts at zero or above and stays below 2^53 are pairwise distinct. *)
Theorem ordered_names_distinct :
  (forall config dest_dir pre s tv fls idx w,
      rename_by_file_order_loop config dest_dir pre s tv fls idx w
      = guarded caught (force config) (rename_body config)
          (combine fls (map (Path.join dest_dir) (ordered_names pre s tv fls idx)))
          w)
  /\ (forall s i j p tv e1 e2,
         safe_integer s -> safe_integer i -> safe_integer j ->
         leading_digit e1 = false -> leading_digit e2 = false ->
         get_ordered_filename s i p tv e1 = get_ordered_filename s j p tv e2 ->
         i = j /\ e1 = e2)
  /\ (forall file, leading_digit (Str.to_lower (Path.extname file)) = false)
  /\ (forall pre s tv fls idx,
         safe_integer s -> (0 <= idx)%Z ->
         (idx + Z.of_nat (List.length fls) <= max_safe)%Z ->
         NoDup (ordered_names pre s tv fls idx)).
Proof.
  split.
  { intros. rewrite rename_by_file_order_loop_guarded.
    now rewrite rename_plan_names. }
  split.
  { intros s i j p tv e1 e2 [Hs _] [Hi _] [Hj _].
    now apply ordered_name_injective. }
  split; [apply extension_no_leading_digit|].
  intros pre s tv fls. induction fls as [|file rest IH]; intros idx Hs Hidx Hmax.
  - constructor.
  - cbn [ordered_names]. cbn [List.length] in Hmax.
    constructor; [|apply IH; [assumption | lia | lia]].
    intros Hin. apply in_ordered_names in Hin as (j & f & Hj & Heq).
    destruct Hs as [Hs _].
    apply ordered_name_injective in Heq as [Heq _];
      try apply extension_no_leading_digit; lia.
Qed.

Lemma ordered_names_distinct_witness :
  NoDup
    (ordered_names "" 1 true
       [["movies"; "a.mkv"]; ["movies"; "b.MKV"]; ["movies"; "c.srt"]] 9).
Proof.
  apply (proj2 (proj2 (proj2 ordered_names_distinct)) "" 1%Z true
           [["movies"; "a.mkv"]; ["movies"; "b.MKV"]; ["movies"; "c.srt"]] 9%Z).
  - unfold safe_integer, max_safe. lia.
  - lia.
  - unfold max_safe. cbn. lia.
Defined.

(** ** More on the walker *)

(** The walker only reads the tree.  Whatever the tree, the flags and the
    outcome, a walk leaves the tree, the log file in use and the executed
    commands as they were; all it adds to the console are the
    [Caught error] lines of the failures it met, on the error stream.  What
    it returns depends on the tree alone: in another world with the same tree
    the same walk returns the same lists, or throws the same error. *)
Theorem walker_only_logs_errors :
  forall dir skip_dot recurse_flag force_flag w,
    let run := get_files dir skip_dot recurse_flag force_flag w in
    fs (fst run) = fs w /\ logger (fst run) = logger w
    /\ spawned (fst run) = spawned w
    /\ (exists errors,
          console (fst run)
          = console w
            ++ map (fun e => Err ("Caught error: " ++ json_of_error e)%string)
                 errors)
    /\ forall w2,
          fs w2 = fs w ->
          snd (get_files dir skip_dot recurse_flag force_flag w2) = snd run.
Proof.
  intros dir skip_dot recurse_flag force_flag w run.
  destruct (get_files_frame dir skip_dot recurse_flag force_flag w)
    as (Hfs & Hlogger & Hspawned & Hconsole).
  repeat split; try assumption.
  intros w2 Hsame. now apply get_files_result_of_tree.
Qed.

Lemma walker_only_logs_errors_witness :
  snd (get_files ["movies"] true true false
         (mkWorld Fixture.library [Out "earlier"] None [] ["tool"]))
  = snd (get_files ["movies"] true true false (Fixture.world_of Fixture.library)).
Proof.
  exact (proj2
           (proj2
              (proj2
                 (proj2
                    (walker_only_logs_errors ["movies"] true true false
                       (Fixture.world_of Fixture.library)))))
           (mkWorld Fixture.library [Out "earlier"] None [] ["tool"]) eq_refl).
Defined.

Lemma get_files_loop_forced skip_dot recurse_flag descend dir es :
  forall fls drs w,
    exists r,
      snd (get_files_loop skip_dot recurse_flag true descend dir es fls drs w)
      = Ok r.
Proof.
  induction es as [|[name child] es IH]; intros fls drs w.
  - now eexists.
  - cbn [get_files_loop].
    destruct (Str.starts_with "." name && skip_dot); [apply IH|].
    destruct (Fs.stat_node child) as [[|]|e]; try apply IH.
    destruct recurse_flag; [|apply IH].
    destruct (descend (Path.join dir name) child w) as [w1 [r1|e]]; apply IH.
Qed.

(** With the force flag the walk of a directory that can be listed always
    returns, whatever fails below it; a root that cannot be listed makes the
    walk throw even with the flag, before anything is logged: a missing path
    and a broken entry with [ENOENT], a regular file with [ENOTDIR], an
    unreadable directory with [EACCES]. *)
Theorem forced_walk_returns :
  (forall dir skip_dot recurse_flag w es,
      Fs.lookup (fs w) dir = Some (Dir es) ->
      exists r, snd (get_files dir skip_dot recurse_flag true w) = Ok r)
  /\ (forall dir skip_dot recurse_flag force_flag w,
         (forall es, Fs.lookup (fs w) dir <> Some (Dir es)) ->
         get_files dir skip_dot recurse_flag force_flag w
         = (w, Throw
                 match Fs.lookup (fs w) dir with
                 | Some (File _) => ENOTDIR
                 | Some Locked => EACCES
                 | _ => ENOENT
                 end)).
Proof.
  split.
  - intros dir skip_dot recurse_flag w es Hdir. unfold get_files. rewrite Hdir.
    apply get_files_loop_forced.
  - intros dir skip_dot recurse_flag force_flag w Hno. unfold get_files.
    destruct (Fs.lookup (fs w) dir) as [[data|es| |]|]; try reflexivity.
    now destruct (Hno es).
Qed.

Lemma forced_walk_returns_witness :
  (exists r,
      snd (get_files [] true true true
             (Fixture.world_of
                (Dir [("a", File "1"); ("b", Broken); ("c", Locked);
                      ("d", Dir [("e", Broken); ("f", File "2")])])))
      = Ok r)
  /\ get_files ["c"] true true true
       (Fixture.world_of
          (Dir [("a", File "1"); ("b", Broken); ("c", Locked);
                ("d", Dir [("e", Broken); ("f", File "2")])]))
     = (Fixture.world_of
          (Dir [("a", File "1"); ("b", Broken); ("c", Locked);
                ("d", Dir [("e", Broken); ("f", File "2")])]),
        Throw EACCES).
Proof.
  split.
  - exact (proj1 forced_walk_returns [] true true
             (Fixture.world_of
                (Dir [("a", File "1"); ("b", Broken); ("c", Locked);
                      ("d", Dir [("e", Broken); ("f", File "2")])]))
             _ eq_refl).
  - apply (proj2 forced_walk_returns ["c"] true true true
             (Fixture.world_of
                (Dir [("a", File "1"); ("b", Broken); ("c", Locked);
                      ("d", Dir [("e", Broken); ("f", File "2")])]))).
    intros es. cbn. discriminate.
Defined.

Lemma get_files_loop_quiet skip_dot recurse_flag es :
  Forall
    (fun e =>
       forall dir w w' r,
         get_files_node skip_dot recurse_flag false dir (snd e) w = (w', Ok r) ->
         w' = w) es ->
  forall dir fls drs w w' r,
    get_files_loop skip_dot recurse_flag false
      (get_files_node skip_dot recurse_flag false) dir es fls drs w = (w', Ok r) ->
    w' = w.
Proof.
  induction 1 as [|[name child] es Hc _ IH]; intros dir fls drs w w' r Hrun.
  - cbn in Hrun. congruence.
  - cbn [get_files_loop snd] in *.
    destruct (Str.starts_with "." name && skip_dot); [eauto|].
    destruct (Fs.stat_node child) as [[|]|e]; [eauto | | discriminate].
    destruct recurse_flag; [|eauto].
    destruct (get_files_node skip_dot true false (Path.join dir name) child w)
      as [w1 [r1|e]] eqn:Hd; [|discriminate].
    apply Hc in Hd. subst w1. eauto.
Qed.

(** Without the force flag a walk that returns has met no failure: it leaves
    the world exactly as it was, nothing is logged.  (With the flag unset
    every failure the walker logs is thrown again.) *)
Theorem strict_walk_is_silent :
  forall dir skip_dot recurse_flag w w' r,
    get_files dir skip_dot recurse_flag false w = (w', Ok r) -> w' = w.
Proof.
  intros dir skip_dot recurse_flag w w' r. unfold get_files.
  destruct (Fs.lookup (fs w) dir) as [n|]; [|discriminate].
  revert dir w w' r.
  induction n as [data|es IH| |] using node_induction;
    intros dir w w' r Hrun; try discriminate.
  cbn [get_files_node] in Hrun.
  eapply get_files_loop_quiet; eassumption.
Qed.

Lemma strict_walk_is_silent_witness :
  fst (get_files ["movies"] true true false (Fixture.world_of Fixture.library))
  = Fixture.world_of Fixture.library.
Proof.
  exact (strict_walk_is_silent ["movies"] true true
           (Fixture.world_of Fixture.library)
           (fst (get_files ["movies"] true true false
                   (Fixture.world_of Fixture.library)))
           _ eq_refl).
Defined.

Lemma get_files_loop_flat skip_dot force_flag descend1 descend2 dir es :
  forall fls drs w,
    get_files_loop skip_dot false force_flag descend1 dir es fls drs w
    = get_files_loop skip_dot false force_flag descend2 dir es fls drs w.
Proof.
  induction es as [|[name child] es IH]; intros fls drs w; [reflexivity|].
  cbn [get_files_loop].
  destruct (Str.starts_with "." name && skip_dot); [apply IH|].
  destruct (Fs.stat_node child) as [[|]|e]; rewrite ?IH; reflexivity.
Qed.

Lemma get_files_loop_flat_tree skip_dot force_flag descend dir es :
  forall fls drs w,
    get_files_loop skip_dot false force_flag descend dir es fls drs w
    = get_files_loop skip_dot false force_flag descend dir
        (map (fun e =>
                (fst e,
                 match snd e with
                 | Dir _ => Dir []
                 | other => other
                 end)) es) fls drs w.
Proof.
  induction es as [|[name child] es IH]; intros fls drs w; [reflexivity|].
  cbn [get_files_loop map fst snd].
  destruct (Str.starts_with "." name && skip_dot); [apply IH|].
  destruct child; cbn [Fs.stat_node]; rewrite ?IH; reflexivity.
Qed.

(** Without recursion the walker looks at one level only: what it returns
    and logs is the same when the sub-directories are emptied, and the
    superseded walker, whose recursive call has lost its arguments, agrees
    with the current one on every tree. *)
Theorem flat_walk_one_level :
  (forall skip_dot force_flag dir es w,
      get_files_node skip_dot false force_flag dir (Dir es) w
      = get_files_node skip_dot false force_flag dir
          (Dir (map (fun e =>
                       (fst e,
                        match snd e with
                        | Dir _ => Dir []
                        | other => other
                        end)) es)) w)
  /\ (forall skip_dot force_flag dir n w,
         Legacy.get_files_node skip_dot false force_flag dir n w
         = get_files_node skip_dot false force_flag dir n w).
Proof.
  split.
  - intros. cbn [get_files_node].
    rewrite get_files_loop_flat_tree. apply get_files_loop_flat.
  - intros skip_dot force_flag dir n w.
    destruct n; try reflexivity; apply get_files_loop_flat.
Qed.

(** ** External tools *)

Lemma log_error_fs s w : fs (log_error s w) = fs w.
Proof. unfold log_error, file_logger_write. cbn. now destruct (logger w). Qed.

Lemma log_error_logger s w : logger (log_error s w) = logger w.
Proof. unfold log_error, file_logger_write. cbn. now destruct (logger w). Qed.

Lemma log_error_spawned s w : spawned (log_error s w) = spawned w.
Proof. unfold log_error, file_logger_write. cbn. now destruct (logger w). Qed.

Lemma log_error_console s w : console (log_error s w) = console w ++ [Err s].
Proof. unfold log_error, file_logger_write. cbn. now destruct (logger w). Qed.

Lemma log_all_app l1 l2 w : log_all (l1 ++ l2) w = log_all l2 (log_all l1 w).
Proof. unfold log_all. apply fold_left_app. Qed.

Lemma log_all_spawned lines : forall w, spawned (log_all lines w) = spawned w.
Proof.
  induction lines as [|l lines IH]; intros w; [reflexivity|].
  cbn. unfold log_all in IH. rewrite IH. apply log_spawned.
Qed.

Lemma log_all_fs lines : forall w, fs (log_all lines w) = fs w.
Proof.
  induction lines as [|l lines IH]; intros w; [reflexivity|].
  cbn. unfold log_all in IH. rewrite IH. apply log_fs.
Qed.

(** [spawn] logs the command line first.  Under a dry run that is all it
    does; otherwise the command is executed, once, and [spawn] returns
    exactly when the tool could be started and ended with status zero.  In
    no case does [spawn] itself touch the tree. *)
Theorem spawn_runs_unless_dryrun :
  forall config spawnSync cmd args w,
    let command := command_line cmd args in
    let run := spawn config spawnSync cmd args w in
    fs (fst run) = fs w
    /\ spawned (fst run)
       = (if dryrun config then spawned w else spawned w ++ [command])
    /\ (snd run = Ok tt
        <-> dryrun config = true
            \/ exists output, spawnSync command = Exited 0 output)
    /\ exists rest, console (fst run) = console w ++ Out command :: rest.
Proof.
  intros config spawnSync cmd args w command run.
  split; [apply spawn_fs|].
  subst run. unfold spawn. fold (command_line cmd args). fold command.
  destruct (dryrun config).
  - cbn [fst snd]. rewrite log_spawned, log_console.
    repeat split; [now left | now exists []].
  - destruct (spawnSync command) as [stderr message|status output] eqn:Hrun;
      [|destruct (Z.eqb_spec status 0) as [->|Hne]]; cbn [negb fst snd];
      rewrite ?log_error_spawned, ?log_error_console, ?log_spawned,
        ?log_console; cbn [spawned console]; rewrite ?log_spawned, ?log_console.
    + repeat split.
      * discriminate.
      * intros [Hd|[output Ho]]; discriminate.
      * rewrite <- app_assoc. now eexists.
    + repeat split.
      * intros _. right. now exists output.
      * rewrite <- app_assoc. now eexists.
    + repeat split.
      * discriminate.
      * intros [Hd|[out Ho]]; [discriminate|].
        injection Ho as Hs _. now destruct Hne.
      * rewrite <- app_assoc. now eexists.
Qed.

Lemma spawn_succeeds config spawnSync cmd args w output :
  dryrun config = false ->
  spawnSync (command_line cmd args) = Exited 0 output ->
  exists w',
    spawn config spawnSync cmd args w = (w', Ok tt)
    /\ spawned w' = spawned w ++ [command_line cmd args].
Proof.
  intros Hd Hrun. unfold spawn. fold (command_line cmd args).
  rewrite Hd, Hrun. cbn [Z.eqb negb]. eexists. split; [reflexivity|].
  rewrite log_spawned. cbn [spawned]. now rewrite log_spawned.
Qed.

Lemma spawn_spawned config spawnSync cmd args w :
  dryrun config = false ->
  spawned (fst (spawn config spawnSync cmd args w))
  = spawned w ++ [command_line cmd args].
Proof.
  intros Hd. unfold spawn. fold (command_line cmd args). rewrite Hd.
  destruct (spawnSync _) as [stderr message|status output];
    [|destruct (negb (status =? 0)%Z)]; cbn [fst];
    rewrite ?log_error_spawned, ?log_spawned; cbn [spawned];
    rewrite ?log_spawned; reflexivity.
Qed.

Lemma spawn_returns config spawnSync cmd args w w' :
  dryrun config = false ->
  spawn config spawnSync cmd args w = (w', Ok tt) ->
  exists output, spawnSync (command_line cmd args) = Exited 0 output.
Proof.
  intros Hd. unfold spawn. fold (command_line cmd args). rewrite Hd.
  destruct (spawnSync _) as [stderr message|status output];
    [discriminate|].
  destruct (Z.eqb_spec status 0) as [->|Hne]; cbn [negb]; [|discriminate].
  intros _. now exists output.
Qed.

Lemma chd_commands_image chdman_path dest_dir file verb :
  chdman_verb_map (Str.to_lower (Path.extname file)) = Some verb ->
  chd_commands chdman_path dest_dir file
  = [create_command chdman_path verb dest_dir file;
     verify_command chdman_path dest_dir file].
Proof. intros H. unfold chd_commands. now rewrite H. Qed.

Lemma chd_commands_other chdman_path dest_dir file :
  chdman_verb_map (Str.to_lower (Path.extname file)) = None ->
  chd_commands chdman_path dest_dir file = [].
Proof. intros H. unfold chd_commands. now rewrite H. Qed.

Lemma to_chd_loop_dryrun config spawnSync dest_dir chdman_path fls :
  dryrun config = true ->
  forall w,
    to_chd_loop config spawnSync dest_dir chdman_path fls w
    = (log_all (flat_map (chd_commands chdman_path dest_dir) fls) w, Ok tt).
Proof.
  intros Hd. induction fls as [|file rest IH]; intros w; [reflexivity|].
  cbn [to_chd_loop flat_map]. rewrite log_all_app.
  destruct (chdman_verb_map (Str.to_lower (Path.extname file))) as [verb|] eqn:Hv.
  - rewrite (chd_commands_image _ _ _ _ Hv), !(spawn_dryrun _ _ _ _ _ Hd).
    apply IH.
  - rewrite (chd_commands_other _ _ _ Hv). apply IH.
Qed.

Lemma to_chd_loop_real config spawnSync dest_dir chdman_path fls :
  dryrun config = false ->
  (forall c, In c (flat_map (chd_commands chdman_path dest_dir) fls) ->
             exists output, spawnSync c = Exited 0 output) ->
  forall w,
    let run := to_chd_loop config spawnSync dest_dir chdman_path fls w in
    spawned (fst run)
    = spawned w ++ flat_map (chd_commands chdman_path dest_dir) fls
    /\ snd run = Ok tt.
Proof.
  intros Hd. induction fls as [|file rest IH]; intros Hall w.
  - cbn. now rewrite app_nil_r.
  - assert (forall c, In c (flat_map (chd_commands chdman_path dest_dir) rest) ->
                      exists output, spawnSync c = Exited 0 output) as Hrest.
    { intros c Hc. apply Hall. cbn [flat_map]. apply in_or_app. now right. }
    assert (forall c, In c (chd_commands chdman_path dest_dir file) ->
                      exists output, spawnSync c = Exited 0 output) as Hhere.
    { intros c Hc. apply Hall. cbn [flat_map]. apply in_or_app. now left. }
    specialize (IH Hrest).
    cbn [to_chd_loop flat_map].
    destruct (chdman_verb_map (Str.to_lower (Path.extname file))) as [verb|] eqn:Hv;
      [rewrite (chd_commands_image _ _ _ _ Hv) in *
      |rewrite (chd_commands_other _ _ _ Hv) in *].
    + destruct (Hhere _ (or_introl eq_refl)) as [o1 H1].
      destruct (Hhere _ (or_intror (or_introl eq_refl))) as [o2 H2].
      unfold create_command in H1. unfold verify_command in H2.
      destruct (spawn_succeeds config spawnSync chdman_path _ w o1 Hd H1)
        as (w1 & Hr1 & Hs1).
      destruct (spawn_succeeds config spawnSync chdman_path _ w1 o2 Hd H2)
        as (w2 & Hr2 & Hs2).
      unfold chd_target in Hr1, Hr2. rewrite Hr1, Hr2.
      fold (chd_target dest_dir file) in Hs1, Hs2.
      fold (create_command chdman_path verb dest_dir file) in Hs1.
      fold (verify_command chdman_path dest_dir file) in Hs2.
      destruct (IH w2) as [Hsp Hok]. cbv zeta in *.
      split; [|exact Hok]. rewrite Hsp, Hs2, Hs1, <- !app_assoc. reflexivity.
    + apply (IH w).
Qed.

(** A dry run of the conversion shows the commands a real run executes.
    For the files the walk of the source returns: under [--dryrun] the
    workflow returns after logging, in order, the create and the verify
    command of every disc image, and executes nothing; in a real run in
    which each of these commands succeeds, exactly these commands are
    executed, in this order, and the workflow returns. *)
Theorem to_chd_dryrun_shows_commands :
  forall config spawnSync src_dir dest_dir chdman_path w w1 r,
    get_files src_dir (negb (dot config)) true (force config)
      (log ("Converting disc images to chd in " ++ Path.show src_dir ++ "...")%string
         w)
    = (w1, Ok r) ->
    let commands := flat_map (chd_commands chdman_path dest_dir) (files r) in
    let run := to_chd config spawnSync src_dir dest_dir chdman_path w in
    (dryrun config = true ->
     run = (log_all commands w1, Ok tt) /\ spawned (fst run) = spawned w)
    /\ (dryrun config = false ->
        (forall c, In c commands -> exists output, spawnSync c = Exited 0 output) ->
        spawned (fst run) = spawned w ++ commands /\ snd run = Ok tt).
Proof.
  intros config spawnSync src_dir dest_dir chdman_path w w1 r Hwalk commands run.
  assert (spawned w1 = spawned w) as Hsp.
  { pose proof (get_files_frame src_dir (negb (dot config)) true (force config)
                  (log ("Converting disc images to chd in "
                        ++ Path.show src_dir ++ "...")%string w)) as Hf.
    rewrite Hwalk in Hf. cbn [fst] in Hf. destruct Hf as (_ & _ & Hf & _).
    now rewrite Hf, log_spawned. }
  subst run. unfold to_chd. rewrite Hwalk. split.
  - intros Hd. rewrite (to_chd_loop_dryrun _ _ _ _ _ Hd). cbn [fst].
    split; [reflexivity|]. now rewrite log_all_spawned.
  - intros Hd Hall.
    destruct (to_chd_loop_real config spawnSync dest_dir chdman_path (files r)
                Hd Hall w1) as [H1 H2].
    cbv zeta in *. now rewrite H1, Hsp.
Qed.

Lemma to_chd_dryrun_shows_commands_witness :
  let config := with_dryrun true Fixture.defaults in
  spawned
    (fst (to_chd config Fixture.tool_ok ["discs"] ["out"] "chdman"
            (Fixture.world_of
               (Dir [("discs", Dir [("Game.ISO", File "1"); ("readme.txt", File "2");
                                    ("b.cue", File "3")])]))))
  = [].
Proof.
  intros config.
  exact (proj2
           (proj1
              (to_chd_dryrun_shows_commands config Fixture.tool_ok ["discs"]
                 ["out"] "chdman"
                 (Fixture.world_of
                    (Dir [("discs", Dir [("Game.ISO", File "1");
                                         ("readme.txt", File "2");
                                         ("b.cue", File "3")])]))
                 _ _ eq_refl)
              eq_refl)).
Defined.

Lemma chd_allowed_later spawnSync chdman_path dest_dir file rest c :
  chd_allowed spawnSync chdman_path dest_dir rest c ->
  chd_allowed spawnSync chdman_path dest_dir (file :: rest) c.
Proof.
  intros (f & v & Hf & Hv & Hc). exists f, v. repeat split; [now right|..]; assumption.
Qed.

Lemma to_chd_loop_trace config spawnSync dest_dir chdman_path fls :
  dryrun config = false ->
  forall w c,
    In c (spawned (fst (to_chd_loop config spawnSync dest_dir chdman_path fls w))) ->
    In c (spawned w) \/ chd_allowed spawnSync chdman_path dest_dir fls c.
Proof.
  intros Hd. induction fls as [|file rest IH]; intros w c; [now left|].
  cbn [to_chd_loop].
  assert (forall w2,
             (In c (spawned w2) ->
              In c (spawned w)
              \/ chd_allowed spawnSync chdman_path dest_dir (file :: rest) c) ->
             In c (spawned
                     (fst (to_chd_loop config spawnSync dest_dir chdman_path
                             rest w2))) ->
             In c (spawned w)
             \/ chd_allowed spawnSync chdman_path dest_dir (file :: rest) c)
    as Hnext.
  { intros w2 Hw2 Hin. apply IH in Hin as [Hin|Hin]; [now apply Hw2|].
    right. now apply chd_allowed_later. }
  destruct (chdman_verb_map (Str.to_lower (Path.extname file))) as [verb|] eqn:Hverb;
    [|apply Hnext; now left].
  fold (chd_target dest_dir file).
  pose proof (spawn_spawned config spawnSync chdman_path
                [verb; "-i"; quoted (Path.show file); "-o";
                 quoted (Path.show (chd_target dest_dir file))] w Hd) as Hs1.
  fold (create_command chdman_path verb dest_dir file) in Hs1.
  assert (forall w2,
             spawned w2
             = spawned w ++ [create_command chdman_path verb dest_dir file] ->
             In c (spawned w2) ->
             In c (spawned w)
             \/ chd_allowed spawnSync chdman_path dest_dir (file :: rest) c)
    as Hone.
  { intros w2 Heq Hin. rewrite Heq in Hin.
    apply in_app_or in Hin as [Hin|[<-|[]]]; [now left|].
    right. exists file, verb. repeat split; [now left | assumption | now left]. }
  destruct (spawn config spawnSync chdman_path
              [verb; "-i"; quoted (Path.show file); "-o";
               quoted (Path.show (chd_target dest_dir file))] w)
    as [w1 [[]|e]] eqn:Hrun1; cbn [fst] in Hs1.
  - apply (spawn_returns _ _ _ _ _ _ Hd) in Hrun1 as [o1 Ho1].
    fold (create_command chdman_path verb dest_dir file) in Ho1.
    pose proof (spawn_spawned config spawnSync chdman_path
                  ["verify"; "-i"; quoted (Path.show (chd_target dest_dir file))]
                  w1 Hd) as Hs2.
    fold (verify_command chdman_path dest_dir file) in Hs2.
    assert (forall w2,
               spawned w2
               = spawned w1 ++ [verify_command chdman_path dest_dir file] ->
               In c (spawned w2) ->
               In c (spawned w)
               \/ chd_allowed spawnSync chdman_path dest_dir (file :: rest) c)
      as Hboth.
    { intros w2 Heq Hin. rewrite Heq in Hin.
      apply in_app_or in Hin as [Hin|[<-|[]]]; [now apply (Hone w1)|].
      right. exists file, verb.
      repeat split; [now left | assumption | right; split; [reflexivity|]].
      now exists o1. }
    destruct (spawn config spawnSync chdman_path
                ["verify"; "-i"; quoted (Path.show (chd_target dest_dir file))]
                w1) as [w2 [[]|e]]; cbn [fst] in Hs2.
    + apply Hnext. now apply Hboth.
    + destruct (force config); [apply Hnext|cbn [fst]];
        rewrite caught_spawned; now apply Hboth.
  - destruct (force config); [apply Hnext|cbn [fst]];
      rewrite caught_spawned; now apply Hone.
Qed.

(** An image is verified only after it was created.  In a real run, every
    command the conversion executes is the create command of a disc image of
    the list, or the verify command of an image of the list whose create
    command has ended with status zero; nothing else is executed, with or
    without [--force]. *)
Theorem chd_verified_only_after_create :
  forall config spawnSync dest_dir chdman_path fls w c,
    dryrun config = false ->
    In c (spawned (fst (to_chd_loop config spawnSync dest_dir chdman_path fls w))) ->
    In c (spawned w) \/ chd_allowed spawnSync chdman_path dest_dir fls c.
Proof.
  intros config spawnSync dest_dir chdman_path fls w c Hd.
  now apply to_chd_loop_trace.
Qed.

Lemma chd_verified_only_after_create_witness :
  In (verify_command "chdman" ["out"] ["discs"; "a.iso"]) []
  \/ chd_allowed Fixture.tool_ok "chdman" ["out"] [["discs"; "a.iso"]]
       (verify_command "chdman" ["out"] ["discs"; "a.iso"]).
Proof.
  apply (chd_verified_only_after_create Fixture.defaults Fixture.tool_ok
           ["out"] "chdman" [["discs"; "a.iso"]]
           (Fixture.world_of (Dir []))
           (verify_command "chdman" ["out"] ["discs"; "a.iso"])).
  - reflexivity.
  - vm_compute. right. left. reflexivity.
Defined.

(** ** The executor: [mkdir], [copy_file] and [rename] *)

Lemma find_put_same c v es : Fs.find c (Fs.put c v es) = Some v.
Proof.
  induction es as [|[n x] es IH]; cbn.
  - now rewrite String.eqb_refl.
  - destruct (String.eqb n c) eqn:E; cbn; now rewrite E.
Qed.

Lemma find_put_other c c' v es :
  String.eqb c c' = false -> Fs.find c' (Fs.put c v es) = Fs.find c' es.
Proof.
  intros Hne. induction es as [|[n x] es IH]; cbn.
  - now rewrite Hne.
  - destruct (String.eqb n c) eqn:E; cbn.
    + apply String.eqb_eq in E. subst n. now rewrite Hne.
    + now rewrite IH.
Qed.

Lemma lookup_write_same p : forall root v root',
  Fs.write root p v = Some root' -> Fs.lookup root' p = Some v.
Proof.
  induction p as [|c p' IH]; intros root v root' Hw.
  - cbn in *. congruence.
  - cbn [Fs.write] in Hw. destruct root as [data|es| |]; try discriminate.
    destruct p' as [|c2 p2].
    + injection Hw as <-. cbn. now rewrite find_put_same.
    + destruct (Fs.find c es) as [child|]; [|discriminate].
      destruct (Fs.write child (c2 :: p2) v) as [child'|] eqn:Hc; [|discriminate].
      injection Hw as <-. cbn [Fs.lookup]. rewrite find_put_same.
      now apply (IH child).
Qed.

Lemma lookup_write_diverge p : forall root v root' q,
  Fs.write root p v = Some root' -> diverge p q = true ->
  Fs.lookup root' q = Fs.lookup root q.
Proof.
  induction p as [|c p' IH]; intros root v root' q Hw Hd; [discriminate|].
  destruct q as [|c' q']; [discriminate|].
  cbn [Fs.write] in Hw. destruct root as [data|es| |]; try discriminate.
  cbn [diverge] in Hd. cbn [Fs.lookup].
  destruct (String.eqb c c') eqn:E.
  - apply String.eqb_eq in E. subst c'.
    destruct p' as [|c2 p2]; [discriminate|].
    destruct (Fs.find c es) as [child|]; [|discriminate].
    destruct (Fs.write child (c2 :: p2) v) as [child'|] eqn:Hc; [|discriminate].
    injection Hw as <-. rewrite find_put_same. now apply (IH child v).
  - destruct p' as [|c2 p2].
    + injection Hw as <-. now rewrite find_put_other.
    + destruct (Fs.find c es) as [child|]; [|discriminate].
      destruct (Fs.write child (c2 :: p2) v) as [child'|]; [|discriminate].
      injection Hw as <-. now rewrite find_put_other.
Qed.

(** Writing a regular file where no directory stands keeps every regular
    file that was there, or gives it the new content when it is the file
    written. *)
Lemma lookup_write_file p : forall root data root' q,
  Fs.write root p (File data) = Some root' ->
  (forall es, Fs.lookup root p <> Some (Dir es)) ->
  Fs.lookup root q = Some (File data) ->
  Fs.lookup root' q = Some (File data).
Proof.
  induction p as [|c p' IH]; intros root data root' q Hw Hnd Hq.
  - cbn in Hw. injection Hw as <-.
    destruct q as [|c' q']; [reflexivity|].
    cbn in Hq. destruct root as [d|es| |]; try discriminate.
    now destruct (Hnd es).
  - cbn [Fs.write] in Hw. destruct root as [d|es| |]; try discriminate.
    destruct q as [|c' q']; [discriminate|].
    cbn [Fs.lookup] in *.
    destruct (String.eqb c c') eqn:E.
    + apply String.eqb_eq in E. subst c'.
      destruct (Fs.find c es) as [child|] eqn:Hf.
      * destruct p' as [|c2 p2].
        -- injection Hw as <-. rewrite find_put_same.
           destruct q' as [|c3 q3]; [reflexivity|].
           cbn in Hq. destruct child as [d|es'| |]; try discriminate.
           now destruct (Hnd es').
        -- destruct (Fs.write child (c2 :: p2) (File data)) as [child'|] eqn:Hc;
             [|discriminate].
           injection Hw as <-. rewrite find_put_same.
           now apply (IH child).
      * discriminate.
    + destruct p' as [|c2 p2].
      * injection Hw as <-. now rewrite find_put_other.
      * destruct (Fs.find c es) as [child|]; [|discriminate].
        destruct (Fs.write child (c2 :: p2) (File data)) as [child'|];
          [|discriminate].
        injection Hw as <-. now rewrite find_put_other.
Qed.

Lemma find_del_distinct c es :
  distinct (map fst es) = true -> Fs.find c (Fs.del c es) = None.
Proof.
  induction es as [|[n x] es IH]; intros Hd; [reflexivity|].
  cbn in Hd. apply andb_prop in Hd as [Hn Hd]. cbn.
  destruct (String.eqb n c) eqn:E.
  - apply String.eqb_eq in E. subst n.
    clear IH Hd. induction es as [|[m y] es IH]; [reflexivity|].
    cbn in Hn. apply negb_true_iff, orb_false_elim in Hn as [Hm Hn].
    cbn. rewrite String.eqb_sym, Hm. apply IH. now rewrite Hn.
  - cbn. rewrite E. now apply IH.
Qed.

Lemma unique_names_child c es child :
  unique_names (Dir es) = true -> Fs.find c es = Some child ->
  unique_names child = true.
Proof.
  cbn [unique_names]. intros Hu. apply andb_prop in Hu as [_ Hu].
  induction es as [|[n x] es IH]; [discriminate|].
  cbn in Hu. apply andb_prop in Hu as [Hx Hu]. cbn.
  destruct (String.eqb n c); [congruence | now apply IH].
Qed.

Lemma lookup_unlink p : forall root,
  unique_names root = true -> p <> [] ->
  Fs.lookup (Fs.unlink root p) p = None.
Proof.
  induction p as [|c p' IH]; intros root Hu Hne; [now destruct Hne|].
  destruct root as [d|es| |]; try reflexivity.
  cbn [Fs.unlink]. destruct p' as [|c2 p2].
  - cbn. rewrite find_del_distinct; [reflexivity|].
    cbn in Hu. now apply andb_prop in Hu as [Hu _].
  - destruct (Fs.find c es) as [child|] eqn:Hf.
    + cbn [Fs.lookup]. rewrite find_put_same. apply IH; [|discriminate].
      now apply (unique_names_child c es).
    + cbn [Fs.lookup]. now rewrite Hf.
Qed.

Lemma path_eqb_false p q : Path.eqb p q = false -> p <> q.
Proof. unfold Path.eqb. now destruct (list_eq_dec string_dec p q). Qed.

(** Two paths are equal, or one leads to the other, or they part. *)
Lemma path_positions p : forall q,
  p = q \/ Path.below p q = true \/ Path.below q p = true \/ diverge p q = true.
Proof.
  induction p as [|a p IH]; intros [|b q]; cbn; auto.
  destruct (String.eqb a b) eqn:E.
  - apply String.eqb_eq in E. subst b. rewrite String.eqb_refl. cbn.
    destruct (IH q) as [->|[H|[H|H]]]; auto.
  - rewrite String.eqb_sym, E. cbn. auto.
Qed.

(** Something stands above [p]: a directory that is not empty. *)
Lemma lookup_above p : forall q root n,
  Path.below p q = true -> Fs.lookup root p = Some n ->
  exists e es, Fs.lookup root q = Some (Dir (e :: es)).
Proof.
  induction p as [|a p IH]; intros [|b q] root n Hb Hl; try discriminate.
  - cbn in Hl. destruct root as [d|es| |]; try discriminate.
    destruct es as [|e es]; [discriminate|]. now exists e, es.
  - cbn in Hb. apply andb_prop in Hb as [Hab Hb].
    apply String.eqb_eq in Hab. subst b.
    cbn in Hl |- *. destruct root as [d|es| |]; try discriminate.
    destruct (Fs.find a es) as [child|]; [|discriminate].
    now apply (IH q child n).
Qed.

Lemma renameSync_moved root old new root' :
  Fs.renameSync root old new = Ok root' -> old <> new ->
  exists n,
    Fs.lookup root old = Some n
    /\ Fs.write (Fs.unlink root old) new n = Some root'
    /\ diverge new old = true.
Proof.
  unfold Fs.renameSync. intros Hr Hne.
  destruct (Fs.lookup root old) as [n|] eqn:Hold; [|discriminate].
  destruct (Path.eqb old new) eqn:Heq.
  { unfold Path.eqb in Heq.
    destruct (list_eq_dec string_dec old new); [contradiction|discriminate]. }
  destruct (Path.below new old) eqn:Hbelow; [discriminate|].
  exists n. split; [reflexivity|].
  assert (Fs.write (Fs.unlink root old) new n = Some root') as Hw.
  { destruct (Fs.write (Fs.unlink root old) new n) as [r|].
    - destruct (Fs.lookup root new) as [[d|[|e es]| |]|];
        destruct (Fs.is_directory n); congruence.
    - destruct (Fs.lookup root new) as [[d|[|e es]| |]|];
        destruct (Fs.is_directory n); discriminate. }
  split; [exact Hw|].
  destruct (path_positions new old) as [->|[H|[H|H]]];
    [now destruct Hne | congruence | | exact H].
  destruct (lookup_above old new root n H Hold) as (e & es & Hnew).
  rewrite Hnew in Hr. destruct (Fs.is_directory n); discriminate.
Qed.


(** A copy leaves the source in place.  When [copy_file] returns in a real
    run, the source is a regular file, it still stands at its path with its
    content, and the destination holds a regular file with the same content. *)
Theorem copy_keeps_source :
  forall config src dst w w',
    dryrun config = false ->
    copy_file config src dst w = (w', Ok tt) ->
    exists data,
      Fs.lookup (fs w) src = Some (File data)
      /\ Fs.lookup (fs w') src = Some (File data)
      /\ Fs.lookup (fs w') dst = Some (File data).
Proof.
  intros config src dst w w' Hd. unfold copy_file. rewrite Hd. cbn [negb].
  rewrite log_fs. unfold Fs.copyFileSync, Fs.put_file.
  destruct (Fs.lookup (fs w) src) as [[data|es| |]|] eqn:Hsrc; try discriminate.
  assert (forall root,
             Fs.write (fs w) dst (File data) = Some root ->
             (forall es, Fs.lookup (fs w) dst <> Some (Dir es)) ->
             (set_fs root (log (arrow src dst) w), Ok tt) = (w', Ok tt) ->
             exists data0,
               Some (File data) = Some (File data0)
               /\ Fs.lookup (fs w') src = Some (File data0)
               /\ Fs.lookup (fs w') dst = Some (File data0)) as Hgo.
  { intros root Hw Hnd Heq. injection Heq as <-. exists data. cbn [set_fs fs].
    split; [reflexivity|]. split.
    - now apply (lookup_write_file dst (fs w) data root src).
    - now apply (lookup_write_same dst (fs w)). }
  destruct (Fs.lookup (fs w) dst) as [[d|es| |]|] eqn:Hdst; try discriminate;
    (destruct (Fs.write (fs w) dst (File data)) as [root|] eqn:Hw;
     [|discriminate]); apply (Hgo root eq_refl); discriminate.
Qed.

Lemma copy_keeps_source_witness :
  let w := Fixture.world_of Fixture.library in
  exists data,
    Fs.lookup (fs w) ["movies"; "a.mkv"] = Some (File data)
    /\ Fs.lookup
         (fs (fst (copy_file Fixture.defaults ["movies"; "a.mkv"]
                     ["movies"; "d"; "copy.mkv"] w)))
         ["movies"; "a.mkv"] = Some (File data)
    /\ Fs.lookup
         (fs (fst (copy_file Fixture.defaults ["movies"; "a.mkv"]
                     ["movies"; "d"; "copy.mkv"] w)))
         ["movies"; "d"; "copy.mkv"] = Some (File data).
Proof.
  intros w.
  exact (copy_keeps_source Fixture.defaults ["movies"; "a.mkv"]
           ["movies"; "d"; "copy.mkv"] w
           (fst (copy_file Fixture.defaults ["movies"; "a.mkv"]
                   ["movies"; "d"; "copy.mkv"] w))
           eq_refl eq_refl).
Defined.

(** A move takes the source away.  When [rename] returns in a real run
    without [--copy] and the two paths differ, the destination holds what
    stood at the source, and, in a tree where no directory lists a name
    twice, nothing stands at the source any more.  A rename of a path to
    itself changes nothing in the tree. *)
Theorem move_takes_source_away :
  forall config src dst w w',
    copy config = false -> dryrun config = false ->
    rename config src dst w = (w', Ok tt) ->
    (src = dst -> fs w' = fs w)
    /\ (src <> dst ->
        exists n,
          Fs.lookup (fs w) src = Some n
          /\ Fs.lookup (fs w') dst = Some n
          /\ (unique_names (fs w) = true -> Fs.lookup (fs w') src = None)).
Proof.
  intros config src dst w w' Hc Hd. unfold rename. rewrite Hc, Hd. cbn [negb].
  rewrite log_fs.
  destruct (Fs.renameSync (fs w) src dst) as [root|e] eqn:Hr; [|discriminate].
  intros Heq. injection Heq as <-. cbn [set_fs fs]. split.
  - intros <-. unfold Fs.renameSync in Hr.
    destruct (Fs.lookup (fs w) src); [|discriminate].
    unfold Path.eqb in Hr.
    destruct (list_eq_dec string_dec src src) as [_|Hne]; [congruence|].
    now destruct Hne.
  - intros Hne.
    destruct (renameSync_moved (fs w) src dst root Hr Hne) as (n & Hold & Hw & Hdiv).
    exists n. split; [exact Hold|]. split.
    + now apply (lookup_write_same dst (Fs.unlink (fs w) src)).
    + intros Hu.
      rewrite (lookup_write_diverge dst (Fs.unlink (fs w) src) n root src Hw Hdiv).
      apply lookup_unlink; [exact Hu|].
      intros ->. destruct dst; [now destruct Hne | discriminate].
Qed.

Lemma move_takes_source_away_witness :
  let w := Fixture.world_of Fixture.library in
  let w' :=
    fst (rename Fixture.defaults ["movies"; "a.mkv"] ["movies"; "d"; "S01E01.mkv"]
           w) in
  exists n,
    Fs.lookup (fs w) ["movies"; "a.mkv"] = Some n
    /\ Fs.lookup (fs w') ["movies"; "d"; "S01E01.mkv"] = Some n
    /\ Fs.lookup (fs w') ["movies"; "a.mkv"] = None.
Proof.
  intros w w'.
  destruct (proj2
              (move_takes_source_away Fixture.defaults ["movies"; "a.mkv"]
                 ["movies"; "d"; "S01E01.mkv"] w w' eq_refl eq_refl eq_refl))
    as (n & H1 & H2 & H3); [discriminate|].
  exists n. split; [exact H1|]. split; [exact H2|]. now apply H3.
Defined.

Lemma rename_console config src dst w :
  console (fst (rename config src dst w)) = console w ++ [Out (arrow src dst)].
Proof.
  unfold rename, copy_file.
  destruct (copy config), (negb (dryrun config)); cbn [fst];
    try apply log_console.
  - destruct (Fs.copyFileSync _ src dst); cbn [fst set_fs console];
      apply log_console.
  - destruct (Fs.renameSync _ src dst); cbn [fst set_fs console];
      apply log_console.
Qed.

Lemma rename_logger config src dst w :
  logger (fst (rename config src dst w)) = logger w.
Proof.
  unfold rename, copy_file.
  destruct (copy config), (negb (dryrun config)); cbn [fst];
    try apply log_logger.
  - destruct (Fs.copyFileSync _ src dst); cbn [fst set_fs logger];
      apply log_logger.
  - destruct (Fs.renameSync _ src dst); cbn [fst set_fs logger];
      apply log_logger.
Qed.

(** The substitution loop leaves the world as it finds it: it ends before
    its first entry is examined. *)
Lemma remove_loop_world config dir pre repl suf names counter w :
  snd (fst (remove_loop config dir pre repl suf names counter w)) = w.
Proof. now destruct names. Qed.

(** ** The substitution workflow renames nothing *)

(** What the substitution workflow does, for every directory and all
    options.  It never renames and never runs a tool.  When the directory
    cannot be listed it throws that failure and prints nothing; over an empty
    directory it prints its heading and [Renamed 0 files.] and returns; over a
    directory that lists at least one entry it prints its heading and throws a
    [ReferenceError] at the first statement of its loop, the assignment to
    [fullpath], before any entry is examined. *)
Theorem remove_renames_nothing :
  forall config dir pre repl suf w,
    let run := remove_count config dir pre repl suf w in
    let heading :=
      ("Attempting to reformat files" ++ nl ++ tab ++ "Source dir = "
       ++ quoted (Path.show dir) ++ nl ++ tab ++ "Prefix = " ++ quoted pre
       ++ nl ++ tab ++ "Replacement = " ++ quoted repl
       ++ nl ++ tab ++ "Suffix = " ++ quoted suf)%string in
    fst (fst run) = 0
    /\ fs (snd (fst run)) = fs w
    /\ spawned (snd (fst run)) = spawned w
    /\ match Fs.readdir (fs w) dir with
       | Throw e => snd run = Throw e /\ snd (fst run) = w
       | Ok [] =>
           snd run = Ok tt
           /\ console (snd (fst run))
              = console w ++ [Out heading; Out "Renamed 0 files."]
       | Ok (_ :: _) =>
           snd run = Throw (ReferenceError "fullpath")
           /\ console (snd (fst run)) = console w ++ [Out heading]
       end.
Proof.
  intros config dir pre repl suf w run heading. subst run heading.
  unfold remove_count.
  destruct (Fs.readdir (fs w) dir) as [[|file rest]|e];
    cbn [remove_loop assign_undeclared fst snd].
  - rewrite !log_fs, !log_spawned, !log_console, <- app_assoc.
    repeat split.
  - rewrite !log_fs, !log_spawned, !log_console. repeat split.
  - repeat split.
Qed.

(** ** Reconciliation reads only *)

Lemma only_printed_refl w : only_printed w w.
Proof. now repeat split. Qed.

Lemma only_printed_trans w1 w2 w3 :
  only_printed w1 w2 -> only_printed w2 w3 -> only_printed w1 w3.
Proof. unfold only_printed. intros (? & ? & ?) (? & ? & ?). repeat split; congruence. Qed.

Lemma only_printed_log s w : only_printed w (log s w).
Proof. repeat split; [apply log_fs | apply log_spawned | apply log_logger]. Qed.

Lemma only_printed_caught e w : only_printed w (caught e w).
Proof.
  repeat split; [apply caught_fs | apply caught_spawned | apply caught_logger].
Qed.

Lemma only_printed_caught_all errors w : only_printed w (caught_all errors w).
Proof.
  repeat split;
    [apply caught_all_fs | apply caught_all_spawned | apply caught_all_logger].
Qed.

Lemma only_printed_log_all lines : forall w, only_printed w (log_all lines w).
Proof.
  induction lines as [|l lines IH]; intros w; [apply only_printed_refl|].
  cbn. eapply only_printed_trans; [apply only_printed_log|apply IH].
Qed.

Lemma only_printed_get_files dir skip_dot recurse_flag force_flag w :
  only_printed w (fst (get_files dir skip_dot recurse_flag force_flag w)).
Proof.
  destruct (get_files_frame dir skip_dot recurse_flag force_flag w)
    as (H1 & H2 & H3 & _).
  now repeat split.
Qed.

Lemma only_printed_check_one config basename sc extract_path rep w :
  only_printed w
    (snd (fst (check_one_extract_folder config basename sc extract_path rep w))).
Proof.
  destruct (check_one_extract_folder_verdict config basename sc extract_path rep w)
    as [errs ->].
  apply only_printed_caught_all.
Qed.

Lemma only_printed_check_dirs config extract_path drs : forall rep w,
  only_printed w (snd (fst (check_incoming_dirs config extract_path drs rep w))).
Proof.
  induction drs as [|dir rest IH]; intros rep w; [apply only_printed_refl|].
  cbn [check_incoming_dirs].
  destruct (file_count_frame config dir w) as [errs ->].
  pose proof (only_printed_caught_all errs w) as H0.
  destruct (file_count_of config (fs w) dir) as [sc|e].
  - pose proof (only_printed_check_one config (Path.basename dir) sc extract_path
                  rep (caught_all errs w)) as H1.
    destruct (check_one_extract_folder config (Path.basename dir) sc extract_path
                rep (caught_all errs w)) as [[rep1 w1] [[]|e]]; cbn [fst snd] in H1.
    + eapply only_printed_trans; [|apply IH].
      eapply only_printed_trans; eassumption.
    + assert (only_printed w (caught e w1)) as H2.
      { eapply only_printed_trans; [|apply only_printed_caught].
        eapply only_printed_trans; eassumption. }
      destruct (force config); [|exact H2].
      eapply only_printed_trans; [exact H2|apply IH].
  - assert (only_printed w (caught e (caught_all errs w))) as H2.
    { eapply only_printed_trans; [exact H0|apply only_printed_caught]. }
    destruct (force config); [|exact H2].
    eapply only_printed_trans; [exact H2|apply IH].
Qed.

Lemma only_printed_check_files config extract_path fls : forall rep w,
  only_printed w (snd (fst (check_incoming_files config extract_path fls rep w))).
Proof.
  induction fls as [|file rest IH]; intros rep w; [apply only_printed_refl|].
  cbn [check_incoming_files].
  pose proof (only_printed_check_one config (Path.basename file) 1 extract_path
                rep w) as H1.
  destruct (check_one_extract_folder config (Path.basename file) 1 extract_path
              rep w) as [[rep1 w1] [[]|e]]; cbn [fst snd] in H1.
  - eapply only_printed_trans; [exact H1|apply IH].
  - assert (only_printed w (caught e w1)) as H2.
    { eapply only_printed_trans; [exact H1|apply only_printed_caught]. }
    destruct (force config); [|exact H2].
    eapply only_printed_trans; [exact H2|apply IH].
Qed.

Lemma only_printed_emit_report rep w : only_printed w (emit_report rep w).
Proof.
  unfold emit_report.
  assert (only_printed w
            match missing_in_extract rep with
            | [] => w
            | _ :: _ =>
                log_all (missing_in_extract rep)
                  (log "Folders missing from !extract:" w)
            end) as H1.
  { destruct (missing_in_extract rep); [apply only_printed_refl|].
    eapply only_printed_trans;
      [apply only_printed_log|apply only_printed_log_all]. }
  destruct (content_missing_in_extract rep); [exact H1|].
  eapply only_printed_trans; [exact H1|].
  eapply only_printed_trans; [apply only_printed_log|apply only_printed_log_all].
Qed.

Lemma check_incoming_dirs_dryrun b config extract_path drs : forall rep w,
  check_incoming_dirs (with_dryrun b config) extract_path drs rep w
  = check_incoming_dirs config extract_path drs rep w.
Proof.
  induction drs as [|dir rest IH]; intros rep w; [reflexivity|].
  cbn [check_incoming_dirs].
  change (file_count (with_dryrun b config) dir w) with (file_count config dir w).
  destruct (file_count config dir w) as [w1 [sc|e]].
  - change (check_one_extract_folder (with_dryrun b config)) with
      (check_one_extract_folder config).
    destruct (check_one_extract_folder config (Path.basename dir) sc
                extract_path rep w1) as [[rep1 w2] [[]|e]]; [apply IH|].
    change (force (with_dryrun b config)) with (force config).
    now rewrite IH.
  - change (force (with_dryrun b config)) with (force config).
    now rewrite IH.
Qed.

Lemma check_incoming_files_dryrun b config extract_path fls : forall rep w,
  check_incoming_files (with_dryrun b config) extract_path fls rep w
  = check_incoming_files config extract_path fls rep w.
Proof.
  induction fls as [|file rest IH]; intros rep w; [reflexivity|].
  cbn [check_incoming_files].
  change (check_one_extract_folder (with_dryrun b config)) with
    (check_one_extract_folder config).
  destruct (check_one_extract_folder config (Path.basename file) 1
              extract_path rep w) as [[rep1 w2] [[]|e]]; [apply IH|].
  change (force (with_dryrun b config)) with (force config).
  now rewrite IH.
Qed.

(** The reconciliation only reads and prints.  Whatever the options, the
    tree and the outcome, [check_incoming] leaves the tree, the executed
    commands and the log file in use as they were; and the dry-run flag
    makes no difference to what it does. *)
Theorem check_incoming_reads_only :
  forall config dir w,
    only_printed w (fst (check_incoming config dir w))
    /\ forall b,
         check_incoming (with_dryrun b config) dir w
         = check_incoming config dir w.
Proof.
  intros config dir w. split.
  - unfold check_incoming, check_incoming_report.
    set (w0 := log ("Checking incoming folder " ++ Path.show dir ++ "...")%string w).
    assert (only_printed w w0) as H0 by apply only_printed_log.
    pose proof (only_printed_get_files dir (negb (dot config)) (recurse config)
                  (force config) w0) as H1.
    destruct (get_files dir (negb (dot config)) (recurse config) (force config) w0)
      as [w1 [r|e]]; cbn [fst] in *;
      [|eapply only_printed_trans; eassumption].
    pose proof (only_printed_check_dirs config (Path.join dir "!extract") (dirs r)
                  (mkReport [] []) w1) as H2.
    destruct (check_incoming_dirs config (Path.join dir "!extract") (dirs r)
                (mkReport [] []) w1) as [[rep2 w2] [[]|e]]; cbn [fst snd] in *;
      [|eapply only_printed_trans; [|exact H2];
        eapply only_printed_trans; eassumption].
    pose proof (only_printed_check_files config (Path.join dir "!extract")
                  (files r) rep2 w2) as H3.
    destruct (check_incoming_files config (Path.join dir "!extract") (files r)
                rep2 w2) as [[rep3 w3] [[]|e]]; cbn [fst snd] in *.
    + eapply only_printed_trans; [|apply only_printed_emit_report].
      eapply only_printed_trans; [|exact H3].
      eapply only_printed_trans; [|exact H2].
      eapply only_printed_trans; eassumption.
    + eapply only_printed_trans; [|exact H3].
      eapply only_printed_trans; [|exact H2].
      eapply only_printed_trans; eassumption.
  - intros b. unfold check_incoming, check_incoming_report.
    change (dot (with_dryrun b config)) with (dot config).
    change (recurse (with_dryrun b config)) with (recurse config).
    change (force (with_dryrun b config)) with (force config).
    destruct (get_files dir (negb (dot config)) (recurse config) (force config) _)
      as [w1 [r|e]]; [|reflexivity].
    rewrite check_incoming_dirs_dryrun.
    destruct (check_incoming_dirs config (Path.join dir "!extract") (dirs r)
                (mkReport [] []) w1) as [[rep2 w2] [[]|e]]; [|reflexivity].
    now rewrite check_incoming_files_dryrun.
Qed.

(** ** More on [extract] *)










(** *** The log file of [extract] *)

Lemma mirrored_refl f w : logger w = Some f -> mirrored f w w.
Proof.
  intros H. split; [exact H|]. exists []. cbn. now rewrite !app_nil_r.
Qed.

Lemma mirrored_trans f w1 w2 w3 :
  mirrored f w1 w2 -> mirrored f w2 w3 -> mirrored f w1 w3.
Proof.
  intros (_ & l1 & Hc1 & Hl1) (H3 & l2 & Hc2 & Hl2). split; [exact H3|].
  exists (l1 ++ l2). rewrite Hc2, Hc1, Hl2, Hl1, map_app, <- !app_assoc.
  now split.
Qed.

Lemma mirrored_log f s w : logger w = Some f -> mirrored f w (log s w).
Proof.
  intros H. split; [now rewrite log_logger|]. exists [Out s].
  unfold log, file_logger_write. cbn. rewrite H. cbn. now split.
Qed.

Lemma mirrored_log_error f s w :
  logger w = Some f -> mirrored f w (log_error s w).
Proof.
  intros H. split; [now rewrite log_error_logger|]. exists [Err s].
  unfold log_error, file_logger_write. cbn. rewrite H. cbn. now split.
Qed.

Lemma mirrored_set_fs f root w : logger w = Some f -> mirrored f w (set_fs root w).
Proof.
  intros H. split; [exact H|]. exists []. cbn. now rewrite !app_nil_r.
Qed.

Lemma mirrored_logger f w w' : mirrored f w w' -> logger w' = Some f.
Proof. now intros [H _]. Qed.

Lemma mirrored_copy_file f config src dst w :
  logger w = Some f -> mirrored f w (fst (copy_file config src dst w)).
Proof.
  intros H. unfold copy_file.
  pose proof (mirrored_log f (arrow src dst) w H) as Hl.
  destruct (negb (dryrun config)); [|exact Hl].
  destruct (Fs.copyFileSync _ src dst); cbn [fst]; [|exact Hl].
  eapply mirrored_trans; [exact Hl|].
  apply mirrored_set_fs. now apply mirrored_logger in Hl.
Qed.

Lemma mirrored_ensure_dir f dst w :
  logger w = Some f -> mirrored f w (fst (ensure_dir dst w)).
Proof.
  intros H. unfold ensure_dir.
  destruct (Fs.lookup (fs w) dst) as [[| | |]|]; cbn [fst];
    try now apply mirrored_refl.
  destruct (Fs.mkdirSync (fs w) dst); cbn [fst];
    [now apply mirrored_set_fs | now apply mirrored_refl].
Qed.

Lemma mirrored_cp_item f n : forall src dst acc w,
  logger w = Some f -> mirrored f w (snd (fst (cp_item src n dst acc w))).
Proof.
  induction n as [data|es IH| |] using node_induction; intros src dst acc w H;
    cbn [cp_item].
  - destruct (should_copy_one src); [|cbn [fst snd]; now apply mirrored_log].
    pose proof (mirrored_log f (arrow src dst) w H) as Hl.
    destruct (Fs.put_file _ dst data); cbn [fst snd]; [|exact Hl].
    eapply mirrored_trans; [exact Hl|].
    apply mirrored_set_fs. now apply mirrored_logger in Hl.
  - pose proof (mirrored_ensure_dir f dst w H) as He.
    destruct (ensure_dir dst w) as [w1 [[]|e]]; cbn [fst snd] in *; [|exact He].
    eapply mirrored_trans; [exact He|].
    apply mirrored_logger in He. generalize dependent w1. clear H w.
    revert src dst acc.
    induction IH as [|[name child] es Hc _ IHes]; intros src dst acc w H;
      [now apply mirrored_refl|].
    cbn [copy_entries]. cbn [snd] in Hc.
    pose proof (Hc (Path.join src name) (Path.join dst name) acc w H) as Hi.
    destruct (cp_item (Path.join src name) child (Path.join dst name) acc w)
      as [[acc1 w1] [[]|e]]; cbn [fst snd] in *; [|exact Hi].
    eapply mirrored_trans; [exact Hi|].
    apply IHes. now apply mirrored_logger in Hi.
  - pose proof (mirrored_ensure_dir f dst w H) as He.
    destruct (ensure_dir dst w) as [w1 [[]|e]]; cbn [fst snd] in *; exact He.
  - now apply mirrored_refl.
Qed.

Lemma mirrored_cpSync f src dst w :
  logger w = Some f -> mirrored f w (snd (fst (cpSync src dst w))).
Proof.
  intros H. unfold cpSync.
  destruct (Fs.lookup (fs w) src) as [n|]; [|now apply mirrored_refl].
  destruct (Path.below dst src); [now apply mirrored_refl|].
  now apply mirrored_cp_item.
Qed.

Lemma mirrored_spawn f config spawnSync cmd args w :
  logger w = Some f -> mirrored f w (fst (spawn config spawnSync cmd args w)).
Proof.
  intros H. unfold spawn.
  pose proof (mirrored_log f (cmd ++ " " ++ String.concat " " args)%string w H)
    as Hl.
  destruct (dryrun config); [exact Hl|].
  set (w1 := mkWorld _ _ _ _ _).
  assert (mirrored f w w1) as H1.
  { destruct Hl as (Hlg & lines & Hc & Hd). split; [exact Hlg|].
    exists lines. now split. }
  assert (logger w1 = Some f) as Hlg1 by now apply mirrored_logger in H1.
  destruct (spawnSync _) as [stderr message|status output]; cbn [fst].
  - eapply mirrored_trans; [exact H1|now apply mirrored_log_error].
  - destruct (negb (status =? 0)%Z); cbn [fst];
      (eapply mirrored_trans; [exact H1|]);
      [now apply mirrored_log_error | now apply mirrored_log].
Qed.

Lemma mirrored_extract_rars f config spawnSync rar dest_path rar_files :
  forall w,
    logger w = Some f ->
    mirrored f w (fst (extract_rars config spawnSync rar dest_path rar_files w)).
Proof.
  induction rar_files as [|a rest IH]; intros w H; [now apply mirrored_refl|].
  cbn [extract_rars].
  pose proof (mirrored_spawn f config spawnSync (quoted rar)
                ["x"; "-y"; "-idp"; quoted (Path.show a);
                 quoted (Path.show dest_path)] w H) as Hs.
  destruct (spawn config spawnSync (quoted rar) _ w) as [w1 [[]|e]];
    cbn [fst] in *; [|exact Hs].
  eapply mirrored_trans; [exact Hs|]. apply IH. now apply mirrored_logger in Hs.
Qed.

(** The log file of [extract] holds what the console shows.  Every line
    [extract] prints, on either stream, is also written to the log file, in
    the same order: nothing is printed before the log file is open, and
    [extract] does not close it.  When the destination folder or the log
    file cannot be made, nothing is printed at all. *)
Theorem extract_log_mirrors_console :
  forall config spawnSync content_path save_path rar w,
    let run := extract config spawnSync content_path save_path rar w in
    let logfile :=
      Path.join
        (Path.join (Path.join save_path "!extract") (Path.basename content_path))
        "!extract.log" in
    (exists lines,
        console (fst run) = console w ++ lines
        /\ logged (fst run) = logged w ++ map text_of lines)
    /\ (console (fst run) <> console w -> logger (fst run) = Some logfile).
Proof.
  intros config spawnSync content_path save_path rar w run logfile.
  subst run. unfold extract.
  assert (forall w0 : world,
             console w0 = console w -> logged w0 = logged w ->
             (exists lines,
                 console w0 = console w ++ lines
                 /\ logged w0 = logged w ++ map text_of lines)
             /\ (console w0 <> console w -> logger w0 = Some logfile)) as Hnone.
  { intros w0 Hc Hl. split; [|now intros []].
    exists []. cbn. now rewrite !app_nil_r. }
  assert (forall w1 w2 : world,
             console w1 = console w -> logged w1 = logged w ->
             mirrored logfile w1 w2 ->
             (exists lines,
                 console w2 = console w ++ lines
                 /\ logged w2 = logged w ++ map text_of lines)
             /\ (console w2 <> console w -> logger w2 = Some logfile)) as Hsome.
  { intros w1 w2 Hc Hl (Hlg & lines & Hc2 & Hl2). split; [|now intros _].
    exists lines. rewrite Hc2, Hl2, Hc, Hl. now split. }
  assert (console (fst (mkdir (Path.join (Path.join save_path "!extract")
                                 (Path.basename content_path)) w)) = console w
          /\ logged (fst (mkdir (Path.join (Path.join save_path "!extract")
                                   (Path.basename content_path)) w)) = logged w)
    as [Hc1 Hl1].
  { unfold mkdir. destruct (Fs.mkdirSync _ _) as [root|[]]; now split. }
  destruct (mkdir _ w) as [w1 [[]|e]]; cbn [fst] in *; [|now apply Hnone].
  fold logfile.
  assert (console (fst (enable_file_logger logfile w1)) = console w1
          /\ logged (fst (enable_file_logger logfile w1)) = logged w1
          /\ (snd (enable_file_logger logfile w1) = Ok tt ->
              logger (fst (enable_file_logger logfile w1)) = Some logfile))
    as (Hc2 & Hl2 & Hlg2).
  { unfold enable_file_logger. destruct (Fs.openSync_w _ _); cbn; auto.
    repeat split. discriminate. }
  destruct (enable_file_logger logfile w1) as [w2 [[]|e]]; cbn [fst snd] in *;
    [|apply Hnone; congruence].
  specialize (Hlg2 eq_refl).
  apply (Hsome w2); [congruence | congruence |].
  set (w3 := log _ (log _ (log _ (log "Extracting..." w2)))).
  assert (mirrored logfile w2 w3) as H3.
  { unfold w3.
    repeat (eapply mirrored_trans;
            [|apply mirrored_log; rewrite ?log_logger; exact Hlg2]).
    now apply mirrored_refl. }
  assert (logger w3 = Some logfile) as Hlg3 by now apply mirrored_logger in H3.
  destruct (Fs.statSync (fs w3) content_path) as [[|]|e]; [| |exact H3].
  - destruct (should_copy_one content_path).
    + eapply mirrored_trans; [exact H3|]. now apply mirrored_copy_file.
    + cbn [fst]. eapply mirrored_trans; [exact H3|]. now apply mirrored_log.
  - pose proof (mirrored_cpSync logfile content_path
                  (Path.join (Path.join save_path "!extract")
                     (Path.basename content_path)) w3 Hlg3) as H4.
    destruct (cpSync content_path _ w3) as [[rars w4] [[]|e]];
      cbn [fst snd] in *.
    + eapply mirrored_trans; [exact H3|].
      eapply mirrored_trans; [exact H4|].
      apply mirrored_extract_rars. now apply mirrored_logger in H4.
    + eapply mirrored_trans; eassumption.
Qed.

Lemma extract_log_mirrors_console_witness :
  logger
    (fst (extract Fixture.defaults Fixture.tool_ok ["in"] [] "rar"
            (Fixture.world_of Fixture.downloads)))
  = Some ["!extract"; "in"; "!extract.log"].
Proof.
  apply (proj2
           (extract_log_mirrors_console Fixture.defaults Fixture.tool_ok ["in"]
              [] "rar" (Fixture.world_of Fixture.downloads))).
  vm_compute. discriminate.
Defined.

(** ** The entry point *)

Lemma startup_tasks_usage config argv_text config_text usage_text w :
  help config || String.eqb (source config) EmptyString = true ->
  startup_tasks config argv_text config_text usage_text w
  = (print_usage usage_text
       (log argv_text (log "Complex renamer app v0.1.2-alpha" w)), None).
Proof. intros H. unfold startup_tasks. now rewrite H. Qed.

Lemma startup_tasks_runs config argv_text config_text usage_text w :
  help config || String.eqb (source config) EmptyString = false ->
  startup_tasks config argv_text config_text usage_text w
  = (log config_text
       (log "Using this config:"
          (log argv_text (log "Complex renamer app v0.1.2-alpha" w))), Some tt).
Proof. intros H. unfold startup_tasks. now rewrite H. Qed.

(** The usage exit.  The process prints the usage text and exits exactly
    when help is asked for or no source is given, whatever workflow the
    other flags select; it then has printed its version, its arguments and
    the usage text, and has touched neither the tree nor any tool. *)
Theorem usage_exit_runs_nothing :
  forall config spawnSync argv_text config_text usage_text w,
    let run := main config spawnSync argv_text config_text usage_text w in
    (snd run = Exited_usage
     <-> help config = true \/ source config = EmptyString)
    /\ (snd run = Exited_usage ->
        fs (fst run) = fs w /\ spawned (fst run) = spawned w
        /\ console (fst run)
           = console w
             ++ [Out "Complex renamer app v0.1.2-alpha"; Out argv_text]
             ++ map Out usage_text ++ [Out EmptyString]).
Proof.
  intros config spawnSync argv_text config_text usage_text w run. subst run.
  unfold main.
  destruct (help config || String.eqb (source config) EmptyString) eqn:Hu.
  - rewrite (startup_tasks_usage _ _ _ _ _ Hu). cbn [fst snd]. split.
    + split; [intros _|reflexivity].
      apply orb_prop in Hu as [Hh|Hs]; [now left|right].
      now apply String.eqb_eq.
    + intros _. unfold print_usage. cbn [fs spawned console].
      rewrite !log_fs, !log_spawned, !log_console, <- !app_assoc.
      repeat split.
  - rewrite (startup_tasks_runs _ _ _ _ _ Hu).
    apply orb_false_elim in Hu as [Hh Hs].
    assert (forall e : ending,
               e <> Exited_usage ->
               (e = Exited_usage
                <-> help config = true \/ source config = EmptyString)
               /\ (e = Exited_usage -> False)) as Hno.
    { intros e He. split; [|exact He]. split; [now intros|].
      intros [H|H]; [congruence|]. apply String.eqb_eq in H. congruence. }
    assert (forall (w1 : world) (e : ending) (P : Prop),
               e <> Exited_usage ->
               (snd (w1, e) = Exited_usage
                <-> help config = true \/ source config = EmptyString)
               /\ (snd (w1, e) = Exited_usage -> P)) as Hgo.
    { intros w1 e P He. destruct (Hno e He) as [H1 H2]. cbn [snd].
      split; [exact H1|]. intros H. now destruct (H2 H). }
    destruct (perform_action config spawnSync) as [workflow|].
    + destruct (workflow _) as [w1 [[]|e]]; apply Hgo; discriminate.
    + destruct (remove config _ _ _ _ _) as [w1 [[]|e]]; apply Hgo; discriminate.
Qed.

Lemma usage_exit_runs_nothing_witness :
  snd (main (with_order true
               (mkOptions "" "" "" "" "" false 1 1 false false false false
                  false "chdman" "rar" false false false false false))
         Fixture.tool_ok "node app.js --order" "{}" ["usage"]
         (Fixture.world_of Fixture.library))
  = Exited_usage.
Proof.
  apply (proj1 (usage_exit_runs_nothing _ Fixture.tool_ok "node app.js --order"
                  "{}" ["usage"] (Fixture.world_of Fixture.library))).
  right. reflexivity.
Defined.

Lemma perform_action_selected config spawnSync :
  extract_flag config || chd config || incoming config || order config
  || touch config = true ->
  exists workflow, perform_action config spawnSync = Some workflow.
Proof.
  unfold perform_action. intros H.
  destruct (extract_flag config); [now eexists|].
  destruct (chd config); [now eexists|].
  destruct (incoming config); [now eexists|].
  destruct (order config); [now eexists|].
  destruct (touch config); [now eexists|discriminate].
Qed.

Lemma perform_action_default config spawnSync :
  extract_flag config || chd config || incoming config || order config
  || touch config = false ->
  perform_action config spawnSync = None.
Proof.
  unfold perform_action. intros H.
  destruct (extract_flag config); [discriminate|].
  destruct (chd config); [discriminate|].
  destruct (incoming config); [discriminate|].
  destruct (order config); [discriminate|].
  destruct (touch config); [discriminate|reflexivity].
Qed.

(** The workflows [main] waits for.  When a workflow flag is set and the
    process does not exit with the usage text, [main] always returns: a
    failure of the workflow is caught.  After the workflow [main] prints one
    more line, [Done] when the workflow returned and the [Caught error] line
    of the failure when it threw, closes the log file in both cases, and
    leaves the tree and the executed commands as the workflow left them. *)
Theorem awaited_workflow_always_returns :
  forall config spawnSync argv_text config_text usage_text w,
    help config || String.eqb (source config) EmptyString = false ->
    extract_flag config || chd config || incoming config || order config
    || touch config = true ->
    let run := main config spawnSync argv_text config_text usage_text w in
    snd run = Returned
    /\ logger (fst run) = None
    /\ exists workflow w1 r,
         perform_action config spawnSync = Some workflow
         /\ workflow
              (fst (startup_tasks config argv_text config_text usage_text w))
            = (w1, r)
         /\ fs (fst run) = fs w1 /\ spawned (fst run) = spawned w1
         /\ console (fst run)
            = console w1
              ++ [match r with
                  | Ok _ => Out "Done"
                  | Throw e => Err ("Caught error: " ++ json_of_error e)%string
                  end].
Proof.
  intros config spawnSync argv_text config_text usage_text w Hu Hsel run.
  subst run. unfold main.
  destruct (perform_action_selected config spawnSync Hsel) as [workflow Hwf].
  rewrite (startup_tasks_runs _ _ _ _ _ Hu), Hwf. cbn [fst].
  destruct (workflow _) as [w1 [[]|e]] eqn:Hrun; cbn [fst snd];
    (split; [reflexivity|]); (split; [reflexivity|]);
    exists workflow, w1.
  - exists (Ok tt). unfold cleanup_tasks, file_logger_close. cbn [fs spawned console].
    rewrite log_fs, log_spawned, log_console. repeat split; assumption.
  - exists (Throw e). unfold cleanup_tasks, file_logger_close.
    cbn [fs spawned console].
    rewrite caught_fs, caught_spawned, caught_console.
    repeat split; assumption.
Qed.

Lemma awaited_workflow_always_returns_witness :
  snd (main (with_order true Fixture.defaults) Fixture.tool_ok
         "node app.js --order" "{}" ["usage"] (Fixture.world_of Fixture.five))
  = Returned.
Proof.
  exact (proj1
           (awaited_workflow_always_returns (with_order true Fixture.defaults)
              Fixture.tool_ok "node app.js --order" "{}" ["usage"]
              (Fixture.world_of Fixture.five) eq_refl eq_refl)).
Defined.

(** The substitution workflow is not waited for.  When no workflow flag is
    set and the process does not exit with the usage text, [Done] is printed
    and the log file is closed before the substitution workflow starts.  The
    workflow then renames nothing: over a directory that lists an entry it
    throws at the first statement of its loop, and that failure, like the
    failure to list the directory, is neither caught nor logged, so the
    process ends with it unhandled; over an empty directory it returns.
    Whatever it prints is on the output stream, after [Done]. *)
Theorem substitution_starts_after_done :
  forall config spawnSync argv_text config_text usage_text w,
    help config || String.eqb (source config) EmptyString = false ->
    extract_flag config || chd config || incoming config || order config
    || touch config = false ->
    let run := main config spawnSync argv_text config_text usage_text w in
    (exists lines,
        console (fst run)
        = console w
          ++ [Out "Complex renamer app v0.1.2-alpha"; Out argv_text;
              Out "Using this config:"; Out config_text; Out "Done"]
          ++ map Out lines)
    /\ logger (fst run) = None
    /\ fs (fst run) = fs w
    /\ spawned (fst run) = spawned w
    /\ match Fs.readdir (fs w) (Path.of_string (source config)) with
       | Throw e => snd run = Unhandled e
       | Ok [] => snd run = Returned
       | Ok (_ :: _) => snd run = Unhandled (ReferenceError "fullpath")
       end.
Proof.
  intros config spawnSync argv_text config_text usage_text w Hu Hsel run.
  subst run. unfold main.
  rewrite (startup_tasks_runs _ _ _ _ _ Hu),
    (perform_action_default config spawnSync Hsel). cbn [fst].
  set (w0 := cleanup_tasks (log "Done" _)).
  assert (console w0
          = console w
            ++ [Out "Complex renamer app v0.1.2-alpha"; Out argv_text;
                Out "Using this config:"; Out config_text; Out "Done"]) as Hc0.
  { unfold w0, cleanup_tasks, file_logger_close. cbn [console].
    rewrite !log_console, <- !app_assoc. reflexivity. }
  assert (logger w0 = None) as Hl0 by reflexivity.
  assert (fs w0 = fs w) as Hf0.
  { unfold w0, cleanup_tasks, file_logger_close. cbn [fs]. now rewrite !log_fs. }
  assert (spawned w0 = spawned w) as Hs0.
  { unfold w0, cleanup_tasks, file_logger_close. cbn [spawned].
    now rewrite !log_spawned. }
  unfold remove, remove_count. rewrite Hf0.
  destruct (Fs.readdir (fs w) (Path.of_string (source config)))
    as [[|file rest]|e]; cbn [remove_loop assign_undeclared fst snd].
  - rewrite !log_console, !log_logger, !log_fs, !log_spawned, Hc0.
    repeat split; try assumption.
    eexists [_; _]. rewrite <- !app_assoc. reflexivity.
  - rewrite !log_console, !log_logger, !log_fs, !log_spawned, Hc0.
    repeat split; try assumption.
    eexists [_]. rewrite <- !app_assoc. reflexivity.
  - repeat split; try assumption. exists []. cbn [map]. now rewrite Hc0.
Qed.

Lemma substitution_starts_after_done_witness :
  snd (main Fixture.defaults Fixture.tool_ok "node app.js" "{}" ["usage"]
         (Fixture.world_of Fixture.five))
  = Unhandled (ReferenceError "fullpath").
Proof.
  exact (proj2
           (proj2
              (proj2
                 (proj2
                    (substitution_starts_after_done Fixture.defaults
                       Fixture.tool_ok "node app.js" "{}" ["usage"]
                       (Fixture.world_of Fixture.five) eq_refl eq_refl))))).
Defined.

(** ** The previous version of reorder-and-rename *)

Lemma console_log_off s w : logger w = None -> Previous.console_log s w = log s w.
Proof.
  intros H. unfold Previous.console_log, log, file_logger_write. cbn.
  now rewrite H.
Qed.

Lemma console_error_off e w :
  logger w = None ->
  Previous.console_error ("Caught error: " ++ json_of_error e)%string w
  = caught e w.
Proof.
  intros H. unfold Previous.console_error, caught, log_error, file_logger_write.
  cbn. now rewrite H.
Qed.

Lemma previous_rename_off config src dst w :
  logger w = None -> Previous.rename config src dst w = rename config src dst w.
Proof.
  intros H. unfold Previous.rename, rename, copy_file.
  rewrite (console_log_off _ _ H).
  destruct (copy config), (negb (dryrun config)); reflexivity.
Qed.

Lemma previous_loop_off config dest_dir pre season_no tv fls :
  Forall lower_extension fls ->
  forall index w,
    logger w = None ->
    Previous.rename_by_file_order_loop config dest_dir pre season_no tv fls
      index w
    = rename_by_file_order_loop config dest_dir pre season_no tv fls index w.
Proof.
  induction 1 as [|file rest Hext _ IH]; intros index w Hoff; [reflexivity|].
  cbn [Previous.rename_by_file_order_loop rename_by_file_order_loop].
  rewrite Hext, (previous_rename_off _ _ _ _ Hoff).
  pose proof (rename_logger config file
                (Path.join dest_dir
                   (get_ordered_filename season_no index pre tv
                      (Path.extname file))) w) as Hl.
  destruct (rename config file _ w) as [w1 [[]|e]]; cbn [fst] in Hl.
  - apply IH. congruence.
  - rewrite console_error_off by congruence.
    destruct (force config); [|reflexivity].
    apply IH. rewrite caught_logger. congruence.
Qed.

(** The two versions of reorder-and-rename agree where they can.  While no
    log file is in use, [rename] of the previous version does what [rename]
    does; and without recursion, on a directory whose files have their
    extensions in lower case, the whole workflow of the previous version
    does what the current one does: same renames, same lines, same
    outcome. *)
Theorem previous_reorder_agrees :
  forall config dir dest_dir pre season_no start tv w,
    logger w = None ->
    (forall src dst, Previous.rename config src dst w = rename config src dst w)
    /\ (recurse config = false ->
        (forall r,
            snd (get_files dir (negb (dot config)) false (force config) w) = Ok r ->
            Forall lower_extension (files r)) ->
        Previous.rename_by_file_order config dir dest_dir pre season_no start tv w
        = rename_by_file_order config dir dest_dir pre season_no start tv w).
Proof.
  intros config dir dest_dir pre season_no start tv w Hoff.
  split; [intros; now apply previous_rename_off|].
  intros Hflat Hext.
  unfold Previous.rename_by_file_order, rename_by_file_order.
  rewrite (console_log_off _ _ Hoff), Hflat.
  set (w0 := log _ w) in *.
  assert (logger w0 = None) as Hoff0 by (unfold w0; now rewrite log_logger).
  assert (Previous.get_files dir (negb (dot config)) false (force config) w0
          = get_files dir (negb (dot config)) false (force config) w0) as ->.
  { unfold Previous.get_files, get_files.
    destruct (Fs.lookup (fs w0) dir) as [n|]; [|reflexivity].
    destruct n; try reflexivity; apply get_files_loop_flat. }
  pose proof (get_files_result_of_tree dir (negb (dot config)) false
                (force config) w0 w (log_fs _ w)) as Hsame.
  pose proof (get_files_frame dir (negb (dot config)) false (force config) w0)
    as (_ & Hlg & _).
  destruct (get_files dir (negb (dot config)) false (force config) w0)
    as [w1 [r|e]]; [|reflexivity].
  cbn [fst snd] in *. apply previous_loop_off; [|congruence].
  apply Hext. now rewrite <- Hsame.
Qed.

Lemma previous_reorder_agrees_witness :
  Previous.rename_by_file_order Fixture.defaults ["movies"] ["movies"] "" 1 1
    true (Fixture.world_of Fixture.five)
  = rename_by_file_order Fixture.defaults ["movies"] ["movies"] "" 1 1 true
      (Fixture.world_of Fixture.five).
Proof.
  apply (proj2
           (previous_reorder_agrees Fixture.defaults ["movies"] ["movies"] "" 1 1
              true (Fixture.world_of Fixture.five) eq_refl)).
  - reflexivity.
  - intros r Hr. vm_compute in Hr. injection Hr as <-.
    repeat constructor.
Defined.

(** ** The touch workflow *)

Lemma touch_dir_loop_dryrun config fls : forall w,
  dryrun config = true ->
  touch_dir_loop config fls w = (log_all (map touching fls) w, Ok tt).
Proof.
  induction fls as [|file rest IH]; intros w Hd; [reflexivity|].
  cbn [touch_dir_loop map]. fold (touching file). rewrite Hd. cbn [negb].
  now rewrite IH.
Qed.

(** A dry run of the touch workflow touches nothing and fails on nothing.
    For the files the walk of the source returns, under [--dryrun] the
    workflow prints one line per file, in order, and returns, whether the
    files can be touched or not; the tree and the executed commands are as
    they were. *)
Theorem touch_dryrun_lists_files :
  forall config dir w w1 r,
    dryrun config = true ->
    get_files dir (negb (dot config)) (recurse config) (force config)
      (log ("Touching files in " ++ Path.show dir ++ "...")%string w)
    = (w1, Ok r) ->
    let run := touch_dir config dir w in
    run = (log_all (map touching (files r)) w1, Ok tt)
    /\ fs (fst run) = fs w
    /\ spawned (fst run) = spawned w
    /\ console (fst run) = console w1 ++ map Out (map touching (files r)).
Proof.
  intros config dir w w1 r Hd Hwalk run. subst run. unfold touch_dir.
  rewrite Hwalk, (touch_dir_loop_dryrun config (files r) w1 Hd). cbn [fst].
  pose proof (get_files_frame dir (negb (dot config)) (recurse config)
                (force config)
                (log ("Touching files in " ++ Path.show dir ++ "...")%string w))
    as Hf.
  rewrite Hwalk in Hf. cbn [fst] in Hf. destruct Hf as (Hfs & _ & Hsp & _).
  rewrite log_all_fs, log_all_spawned, log_all_console, Hfs, Hsp, log_fs,
    log_spawned.
  now repeat split.
Qed.

Lemma touch_dryrun_lists_files_witness :
  let config := with_dryrun true Fixture.defaults in
  fs (fst (touch_dir config ["movies"] (Fixture.world_of Fixture.five)))
  = Fixture.five.
Proof.
  intros config.
  exact (proj1
           (proj2
              (touch_dryrun_lists_files config ["movies"]
                 (Fixture.world_of Fixture.five) _ _ eq_refl eq_refl))).
Defined.
